(** * Provider abstraction and tool-calling orchestration

    A shallow embedding of the unified AI provider layer: the base
    [AIProvider.executeToolCalls], the [parseResponse] methods of the provider
    adapters, and the [AIManager] orchestrator (message ids, history
    projection, the bounded [sendMessage] loop).

    Conventions of the embedding.
    - JavaScript data (parsed JSON, tool arguments, tool results) is [jsval];
      numbers are the integer-valued ones.
    - Strings are sequences of code units below 256.
    - Message objects live in a heap and are addressed by location; the
      conversation history and the outbound list hold locations, so that
      [cloneMessage] and the places where two lists share one object are
      visible.  What lies inside a message (content array, metadata) is a
      value: every nested object the code writes to is one it has just built.
    - Awaited calls are sequential; handlers and the provider act on an
      explicit [World], and every call to them is logged in a trace.
    - A handler returns a value or throws an [Error]; the provider resolves
      or rejects.  The hooks [onProgress] and [prepareRateLimit] return
      normally: an exception of [prepareRateLimit] is caught and logged by
      [sendMessage], and [onProgress] is taken not to throw.
    - For [parseResponse] a thrown error is identified by its name, and
      [JSON.parse], [crypto.randomUUID] and [+] on arbitrary values are
      parameters. *)

From Stdlib Require Import ZArith String Ascii List Bool Lia DecimalString.
From stdpp Require Import base option list sorting gmap strings.
Import ListNotations.
Set Warnings "-register-all".
Abbreviation length := List.length.
Open Scope Z_scope.

(** ** JavaScript values and the runtime operations the code relies on *)

Module JS.

Inductive jsval : Type :=
| JUndefined
| JNull
| JBool (b : bool)
| JNum (z : Z)
| JStr (s : string)
| JArr (items : list jsval)
| JObj (fields : list (string * jsval)).

Definition string_of_Z (z : Z) : string := NilZero.string_of_int (Z.to_int z).
Definition string_of_nat (n : nat) : string := NilZero.string_of_uint (Nat.to_uint n).

(** [String(v)], which is also what a template literal and [+=] on a string
    apply to [v]. *)
Fixpoint js_String (v : jsval) : string :=
  match v with
  | JUndefined => "undefined"
  | JNull => "null"
  | JBool true => "true"
  | JBool false => "false"
  | JNum z => string_of_Z z
  | JStr s => s
  | JArr items =>
      (fix join (l : list jsval) : string :=
         match l with
         | [] => ""
         | x :: r =>
             let sx := match x with
                       | JUndefined | JNull => ""
                       | _ => js_String x
                       end in
             match r with
             | [] => sx
             | _ :: _ => sx +:+ "," +:+ join r
             end
         end) items
  | JObj _ => "[object Object]"
  end.

(** Truthiness, as tested by [if (v)], [v || d] and [!v]. *)
Definition truthy (v : jsval) : bool :=
  match v with
  | JUndefined | JNull => false
  | JBool b => b
  | JNum z => negb (z =? 0)
  | JStr s => negb (String.eqb s "")
  | JArr _ | JObj _ => true
  end.

Definition truthy_str (s : string) : bool := negb (String.eqb s "").

Definition truthy_ostr (o : option string) : bool :=
  match o with
  | Some s => truthy_str s
  | None => false
  end.

(** White space and line terminators among the code units below 256. *)
Definition is_whitespace (c : ascii) : bool :=
  let n := nat_of_ascii c in
  ((9 <=? n) && (n <=? 13) || (n =? 32) || (n =? 160))%nat.

(** [s.trimEnd()] *)
Fixpoint trimEnd (s : string) : string :=
  match s with
  | EmptyString => EmptyString
  | String c r =>
      match trimEnd r with
      | EmptyString => if is_whitespace c then EmptyString else String c EmptyString
      | r' => String c r'
      end
  end.

Fixpoint skip_whitespace (s : string) : string :=
  match s with
  | String c r => if is_whitespace c then skip_whitespace r else s
  | EmptyString => EmptyString
  end.

Definition digit_of (c : ascii) : option Z :=
  let n := nat_of_ascii c in
  if ((48 <=? n) && (n <=? 57))%nat then Some (Z.of_nat n - 48) else None.

Fixpoint digits_prefix (acc : option Z) (s : string) : option Z :=
  match s with
  | String c r =>
      match digit_of c with
      | Some d => digits_prefix (Some (10 * default 0 acc + d)) r
      | None => acc
      end
  | EmptyString => acc
  end.

(** [parseInt(s, 10)]; [None] is NaN. *)
Definition parseInt (s : string) : option Z :=
  match skip_whitespace s with
  | String "-" r => Z.opp <$> digits_prefix None r
  | String "+" r => digits_prefix None r
  | s' => digits_prefix None s'
  end.

(** The double quote, for string constants that contain one. *)
Definition dquote : string := String (ascii_of_nat 34) EmptyString.

(** The line feed. *)
Definition newline : string := String (ascii_of_nat 10) EmptyString.

End JS.
Export JS.

(** ** Data model *)

Inductive Role : Type := system | user | assistant.

Global Instance Role_eq_dec : EqDecision Role.
Proof. solve_decision. Defined.

(** A content part.  [TextBlock t true] is a text part carrying
    [metadata: { toolSummary: true }], as the projection creates them. *)
Inductive Block : Type :=
| TextBlock (text : string) (toolSummary : bool)
| ToolUse (id name : string) (input : jsval)
| ToolResult (tool_use_id : string) (content : string) (is_error : bool)
             (name : option string).

(** [content] is either a string or an array of parts. *)
Inductive Content : Type :=
| Text (s : string)
| Blocks (parts : list Block).

Record SummaryInfo : Type := mkSummary {
  successCount : nat;
  failureCount : nat;
  successNames : list string;
  failureNames : list string }.

(** [metadata.toolSummary] and [metadata.summaryInfo] are always written
    together; [md_toolSummary = Some s] stands for
    [{ toolSummary: true, summaryInfo: s }]. *)
Record Metadata : Type := mkMetadata {
  toolCallIds : option (list string);
  md_toolSummary : option SummaryInfo;
  md_summaryToolIds : option (list string) }.

(** The [_id] field: absent, a finite number, a number that is not finite,
    or a string. *)
Inductive MsgId : Type :=
| IdAbsent
| IdNum (z : Z)
| IdNonFinite
| IdStr (s : string).

(** A message object.  The last three fields exist only on messages built by
    the projection; [summaryInfo = None] is absent or [null]. *)
Record Message : Type := mkMessage {
  _id : MsgId;
  role : Role;
  content : Content;
  metadata : option Metadata;
  hasNonSummaryText : option bool;
  summaryInfo : option SummaryInfo;
  summaryToolIds : option (list string) }.

(** [{ role, content }] *)
Definition newMessage (r : Role) (c : Content) : Message :=
  mkMessage IdAbsent r c None None None None.

Definition set_id (i : MsgId) (m : Message) : Message :=
  mkMessage i (role m) (content m) (metadata m) (hasNonSummaryText m)
            (summaryInfo m) (summaryToolIds m).

Definition set_content (c : Content) (m : Message) : Message :=
  mkMessage (_id m) (role m) c (metadata m) (hasNonSummaryText m)
            (summaryInfo m) (summaryToolIds m).

Definition set_metadata (md : option Metadata) (m : Message) : Message :=
  mkMessage (_id m) (role m) (content m) md (hasNonSummaryText m)
            (summaryInfo m) (summaryToolIds m).

Definition set_hasNonSummaryText (b : option bool) (m : Message) : Message :=
  mkMessage (_id m) (role m) (content m) (metadata m) b
            (summaryInfo m) (summaryToolIds m).

Definition set_summaryInfo (s : option SummaryInfo) (m : Message) : Message :=
  mkMessage (_id m) (role m) (content m) (metadata m) (hasNonSummaryText m)
            s (summaryToolIds m).

Definition set_summaryToolIds (l : option (list string)) (m : Message) : Message :=
  mkMessage (_id m) (role m) (content m) (metadata m) (hasNonSummaryText m)
            (summaryInfo m) l.

Global Instance Message_inhabited : Inhabited Message :=
  populate (newMessage user (Text "")).

(** ** The heap of message objects *)

Abbreviation loc := nat.
Abbreviation Heap := (list Message).

(** A new object is placed after all existing ones. *)
Definition alloc (m : Message) (h : Heap) : loc * Heap :=
  (length h, h ++ [m]).

(** Reading [l]; a dangling location reads as the default message. *)
Definition deref (h : Heap) (l : loc) : Message := h !!! l.

Definition store (l : loc) (m : Message) (h : Heap) : Heap := <[l := m]> h.

(** [cloneMessage(message)]: [structuredClone] (or the JSON round trip), a
    deep copy in a new object. *)
Definition cloneMessage (l : loc) (h : Heap) : loc * Heap :=
  alloc (deref h l) h.

Definition valid_locs (h : Heap) (ls : list loc) : Prop :=
  Forall (fun l => (l < length h)%nat) ls.

(** ** Tool summaries *)

(** An entry of the [toolInfo] map, and an element of a pending batch:
    [{ name, id, isError }], each field possibly missing. *)
Record ToolMeta : Type := mkToolMeta {
  tm_name : option string;
  tm_id : option string;
  tm_isError : option bool }.

Definition emptySummary : SummaryInfo := mkSummary 0 0 [] [].

(** One round of the loop of [buildToolBatchSummary]. *)
Definition countToolMeta (summary : SummaryInfo) (meta : ToolMeta) : SummaryInfo :=
  let isError := default false (tm_isError meta) in
  let named := if truthy_ostr (tm_name meta)
               then [default "" (tm_name meta)] else [] in
  if isError then
    mkSummary (successCount summary) (S (failureCount summary))
              (successNames summary) (failureNames summary ++ named)
  else
    mkSummary (S (successCount summary)) (failureCount summary)
              (successNames summary ++ named) (failureNames summary).

Definition buildToolBatchSummary (toolMetas : list ToolMeta) : SummaryInfo :=
  fold_left countToolMeta toolMetas emptySummary.

(** [names.find(Boolean) || 'tool'] *)
Definition firstNameOr (names : list string) : string :=
  default "tool" (List.find truthy_str names).

Definition buildToolSummaryText (summaryInfo : SummaryInfo) : list string :=
  (if (0 <? successCount summaryInfo)%nat then
     if (successCount summaryInfo =? 1)%nat then
       ["Successfully called tool " +:+ firstNameOr (successNames summaryInfo)]
     else
       ["Successfully called " +:+ string_of_nat (successCount summaryInfo) +:+ " tools"]
   else [])
  ++
  (if (0 <? failureCount summaryInfo)%nat then
     if (failureCount summaryInfo =? 1)%nat then
       ["Tool " +:+ firstNameOr (failureNames summaryInfo) +:+ " failed"]
     else
       ["Failed " +:+ string_of_nat (failureCount summaryInfo) +:+ " tools" +:+
        (if (0 <? length (failureNames summaryInfo))%nat
         then " (" +:+ String.concat ", " (failureNames summaryInfo) +:+ ")"
         else "")]
   else []).

Definition cloneSummaryInfo (info : SummaryInfo) : SummaryInfo :=
  mkSummary (successCount info) (failureCount info)
            (successNames info) (failureNames info).

(** The four [+=] / [push(...)] lines that add [b] into [a]. *)
Definition addSummary (a b : SummaryInfo) : SummaryInfo :=
  mkSummary (successCount a + successCount b) (failureCount a + failureCount b)
            (successNames a ++ successNames b) (failureNames a ++ failureNames b).

(** [[...new Set(ids)]]: the first occurrence of each id, in order. *)
Fixpoint dedupe_from (seen : list string) (ids : list string) : list string :=
  match ids with
  | [] => []
  | x :: r =>
      if bool_decide (x ∈ seen) then dedupe_from seen r
      else x :: dedupe_from (x :: seen) r
  end.

Definition dedupe (ids : list string) : list string := dedupe_from [] ids.

(** ** Reading the history *)

Definition isUserText (entry : Message) : bool :=
  match role entry, content entry with
  | user, Text _ => true
  | _, _ => false
  end.

Definition isToolUse (part : Block) : bool :=
  match part with
  | ToolUse _ _ _ => true
  | _ => false
  end.

(** [entry.role === 'assistant' && Array.isArray(entry.content) &&
    entry.content.some(part => part.type === 'tool_use')] *)
Definition isToolInteraction (entry : Message) : bool :=
  match role entry, content entry with
  | assistant, Blocks parts => existsb isToolUse parts
  | _, _ => false
  end.

(** The downward scan of [findLastToolInteractionIndex], on the entries from
    index [i] on: the greatest matching index; [None] is [-1]. *)
Fixpoint findLastFrom (i : nat) (history : list Message) : option nat :=
  match history with
  | [] => None
  | entry :: rest =>
      match findLastFrom (S i) rest with
      | Some j => Some j
      | None => if isToolInteraction entry then Some i else None
      end
  end.

Definition findLastToolInteractionIndex (history : list Message) : option nat :=
  findLastFrom 0 history.

(** The downward scan of [findLatestUserTextMessageIndex]. *)
Fixpoint findLatestFrom (i : nat) (messages : list Message) : option nat :=
  match messages with
  | [] => None
  | entry :: rest =>
      match findLatestFrom (S i) rest with
      | Some j => Some j
      | None => if isUserText entry then Some i else None
      end
  end.

Definition findLatestUserTextMessageIndex (messages : list Message) : option nat :=
  findLatestFrom 0 messages.

(** The downward scan of [sliceHistoryByUserMessages] over the entries in
    reverse order: the index of the [limit]-th user text message from the
    end. *)
Fixpoint sliceIndexFrom (limit userMessagesSeen : Z) (reversed : list Message)
  : option nat :=
  match reversed with
  | [] => None
  | entry :: below =>
      if isUserText entry then
        if userMessagesSeen + 1 =? limit then Some (length below)
        else sliceIndexFrom limit (userMessagesSeen + 1) below
      else sliceIndexFrom limit userMessagesSeen below
  end.

Definition sliceHistoryByUserMessages (h : Heap) (limit : Z)
    (conversationHistory : list loc) : list loc :=
  if limit <=? 0 then conversationHistory
  else
    match sliceIndexFrom limit 0 (rev (map (deref h) conversationHistory)) with
    | Some i => drop i conversationHistory
    | None => conversationHistory
    end.

(** The part of the history [getHistoryView] works on. *)
Definition historyWindow (h : Heap) (limitMessages : Z)
    (conversationHistory : list loc) : list loc :=
  let history := if 0 <? limitMessages
                 then sliceHistoryByUserMessages h limitMessages conversationHistory
                 else conversationHistory in
  if 0 <? limitMessages then
    match findLastToolInteractionIndex (map (deref h) conversationHistory) with
    | Some lastToolIdx =>
        let baseStartIdx := (length conversationHistory - length history)%nat in
        if (lastToolIdx <? baseStartIdx)%nat
        then drop lastToolIdx conversationHistory
        else history
    | None => history
    end
  else history.

(** ** The history projection *)

(** First pass of [getHistoryView]: the [toolInfo] map from tool-use id to
    name and outcome. *)
Definition recordToolUse (toolInfo : gmap string ToolMeta) (part : Block)
  : gmap string ToolMeta :=
  match part with
  | ToolUse id name _ => <[id := mkToolMeta (Some name) (Some id) None]> toolInfo
  | _ => toolInfo
  end.

Definition recordToolResult (toolInfo : gmap string ToolMeta) (part : Block)
  : gmap string ToolMeta :=
  match part with
  | ToolResult tool_use_id _ is_error name =>
      if truthy_str tool_use_id then
        let entry := default (mkToolMeta None None None) (toolInfo !! tool_use_id) in
        let entry_name := if negb (truthy_ostr (tm_name entry)) && truthy_ostr name
                          then name else tm_name entry in
        let entry_id := if negb (truthy_ostr (tm_id entry))
                        then Some tool_use_id else tm_id entry in
        <[tool_use_id := mkToolMeta entry_name entry_id (Some is_error)]> toolInfo
      else toolInfo
  | _ => toolInfo
  end.

Definition collectToolInfo (history : list Message) : gmap string ToolMeta :=
  fold_left
    (fun toolInfo msg =>
       match role msg, content msg with
       | assistant, Blocks parts => fold_left recordToolUse parts toolInfo
       | user, Blocks parts => fold_left recordToolResult parts toolInfo
       | _, _ => toolInfo
       end)
    history ∅.

(** The ids of the tool-use parts of the last tool interaction. *)
Definition toolUseIds (parts : list Block) : list string :=
  omap (fun part => match part with
                    | ToolUse id _ _ => Some id
                    | _ => None
                    end) parts.

Definition lastToolUseIdsOf (history : list Message) (lastToolMessageIndex : option nat)
  : option (list string) :=
  match lastToolMessageIndex with
  | Some i =>
      match history !! i with
      | Some entry =>
          match role entry, content entry with
          | assistant, Blocks parts => Some (toolUseIds parts)
          | _, _ => None
          end
      | None => None
      end
  | None => None
  end.

(** The mutable fields of [transformed] while the parts of one assistant
    message are visited, with the pending batch. *)
Record Transforming : Type := mkTransforming {
  t_content : list Block;
  t_hasNonSummaryText : bool;
  t_summaryInfo : option SummaryInfo;
  t_summaryToolIds : list string;
  pendingToolBatch : list ToolMeta }.

Definition appendBatch (t : Transforming) : Transforming :=
  match pendingToolBatch t with
  | [] => t
  | _ :: _ =>
      let batchInfo := buildToolBatchSummary (pendingToolBatch t) in
      let info := addSummary (default emptySummary (t_summaryInfo t)) batchInfo in
      let batchIds := filter (fun i => truthy_str i = true)
                             (omap tm_id (pendingToolBatch t)) in
      mkTransforming (t_content t) (t_hasNonSummaryText t) (Some info)
                     (t_summaryToolIds t ++ batchIds) []
  end.

Definition transformPart (toolInfo : gmap string ToolMeta)
    (t : Transforming) (part : Block) : Transforming :=
  match part with
  | TextBlock text _ =>
      let t' := appendBatch t in
      mkTransforming (t_content t' ++ [TextBlock text false]) true
                     (t_summaryInfo t') (t_summaryToolIds t') (pendingToolBatch t')
  | ToolUse id name _ =>
      let meta := default (mkToolMeta (Some name) (Some id) (Some false))
                          (toolInfo !! id) in
      let meta := if negb (truthy_ostr (tm_id meta))
                  then mkToolMeta (tm_name meta) (Some id) (tm_isError meta)
                  else meta in
      mkTransforming (t_content t) (t_hasNonSummaryText t) (t_summaryInfo t)
                     (t_summaryToolIds t) (pendingToolBatch t ++ [meta])
  | ToolResult _ _ _ _ => t
  end.

Definition transformParts (toolInfo : gmap string ToolMeta) (msg : Message)
    (parts : list Block) : Transforming :=
  appendBatch
    (fold_left (transformPart toolInfo) parts
       (mkTransforming [] false None (default [] (summaryToolIds msg)) [])).

Definition summaryParts (texts : list string) : list Block :=
  map (fun text => TextBlock text true) texts.

Definition hasToolSummary (m : Message) : bool :=
  match metadata m with
  | Some md => bool_decide (is_Some (md_toolSummary md))
  | None => false
  end.

(** [prev.metadata?.toolSummary && prev.hasNonSummaryText === false] *)
Definition isSummaryOnly (prev : Message) : bool :=
  hasToolSummary prev && bool_decide (hasNonSummaryText prev = Some false).

(** [transformed] after the parts were visited and the summary lines added.
    The second component is [summaryMeta] when the message is a summary
    without text of its own, in which case its metadata marks it so. *)
Definition transformedMessage (toolInfo : gmap string ToolMeta) (msg : Message)
    (parts : list Block) : Message * option SummaryInfo :=
  let t := transformParts toolInfo msg parts in
  let base := mkMessage (_id msg) (role msg) (Blocks (t_content t)) (metadata msg)
                        (Some (t_hasNonSummaryText t)) (t_summaryInfo t)
                        (Some (t_summaryToolIds t)) in
  match t_summaryInfo t with
  | Some info =>
      let summaryTexts := buildToolSummaryText info in
      let withLines := set_content (Blocks (t_content t ++ summaryParts summaryTexts)) base in
      if negb (t_hasNonSummaryText t) && (0 <? length summaryTexts)%nat then
        let summaryMeta := cloneSummaryInfo info in
        let old := default (mkMetadata None None None) (metadata msg) in
        let ids := if (0 <? length (t_summaryToolIds t))%nat
                   then Some (dedupe (t_summaryToolIds t))
                   else md_summaryToolIds old in
        (set_metadata (Some (mkMetadata (toolCallIds old) (Some summaryMeta) ids))
                      withLines, Some summaryMeta)
      else (withLines, None)
  | None => (base, None)
  end.

(** [prev] after a summary was merged into it. *)
Definition mergeIntoPrev (prev : Message) (summaryMeta : SummaryInfo) : Message :=
  match metadata prev with
  | Some md =>
      let prevInfo := addSummary (default emptySummary (md_toolSummary md)) summaryMeta in
      mkMessage (_id prev) (role prev)
                (Blocks (summaryParts (buildToolSummaryText prevInfo)))
                (Some (mkMetadata (toolCallIds md) (Some prevInfo) (md_summaryToolIds md)))
                (Some false) (summaryInfo prev) (summaryToolIds prev)
  | None => prev
  end.

(** The tail of the assistant branch: what is pushed, if anything. *)
Definition finishTransformed (transformed : Message) : option Message :=
  match content transformed with
  | Blocks (_ :: _) =>
      let normal := set_hasNonSummaryText
                      (Some (default false (hasNonSummaryText transformed))) transformed in
      if hasToolSummary normal then
        let marked := set_hasNonSummaryText (Some false) normal in
        match metadata marked, summaryToolIds marked with
        | Some md, Some (i :: ids) =>
            match md_summaryToolIds md with
            | None =>
                Some (set_metadata
                        (Some (mkMetadata (toolCallIds md) (md_toolSummary md)
                                          (Some (dedupe (i :: ids))))) marked)
            | Some _ => Some marked
            end
        | _, _ => Some marked
        end
      else Some normal
  | _ => None
  end.

Definition isToolResultFirst (msg : Message) : bool :=
  match role msg, content msg with
  | user, Blocks (ToolResult _ _ _ _ :: _) => true
  | _, _ => false
  end.

(** [lastToolUseIds && msg.content.some(part => part.type === 'tool_result'
    && lastToolUseIds.has(part.tool_use_id))] *)
Definition isLastToolResult (lastToolUseIds : option (list string)) (msg : Message)
  : bool :=
  match lastToolUseIds, content msg with
  | Some ids, Blocks parts =>
      existsb (fun part => match part with
                           | ToolResult tool_use_id _ _ _ => bool_decide (tool_use_id ∈ ids)
                           | _ => false
                           end) parts
  | _, _ => false
  end.

(** One round of the second loop of [getHistoryView], for the entry at index
    [i], held at location [l]. *)
Definition viewStep (toolInfo : gmap string ToolMeta)
    (lastToolMessageIndex : option nat) (lastToolUseIds : option (list string))
    (state : list loc * Heap) (entry : nat * loc) : list loc * Heap :=
  let '(abridged, h) := state in
  let '(i, l) := entry in
  let msg := deref h l in
  if bool_decide (lastToolMessageIndex = Some i) then
    let '(c, h') := cloneMessage l h in (abridged ++ [c], h')
  else
    match role msg, content msg with
    | assistant, Blocks parts =>
        let '(t, h1) := cloneMessage l h in
        let '(transformed, summaryOnly) := transformedMessage toolInfo msg parts in
        let h2 := store t transformed h1 in
        let push :=
          match finishTransformed transformed with
          | Some final => (abridged ++ [t], store t final h2)
          | None => (abridged, h2)
          end in
        match summaryOnly, last abridged with
        | Some summaryMeta, Some p =>
            let prev := deref h2 p in
            if isSummaryOnly prev
            then (abridged, store p (mergeIntoPrev prev summaryMeta) h2)
            else push
        | _, _ => push
        end
    | _, _ =>
        if isToolResultFirst msg then
          if isLastToolResult lastToolUseIds msg then
            let '(c, h') := cloneMessage l h in (abridged ++ [c], h')
          else (abridged, h)
        else
          let '(c, h') := cloneMessage l h in (abridged ++ [c], h')
    end.

Definition indexed {A} (l : list A) : list (nat * A) := zip (seq 0 (length l)) l.

(** [getHistoryView(minimizeTokens, limitMessages)]: the locations of the
    view and the heap holding it. *)
Definition getHistoryView (conversationHistory : list loc)
    (minimizeTokens : bool) (limitMessages : Z) (h : Heap) : list loc * Heap :=
  let history := historyWindow h limitMessages conversationHistory in
  if negb minimizeTokens then
    fold_left (fun '(view, h) l => let '(c, h') := cloneMessage l h in (view ++ [c], h'))
              history ([], h)
  else
    let values := map (deref h) history in
    let toolInfo := collectToolInfo values in
    let lastToolMessageIndex := findLastToolInteractionIndex values in
    let lastToolUseIds := lastToolUseIdsOf values lastToolMessageIndex in
    fold_left (viewStep toolInfo lastToolMessageIndex lastToolUseIds)
              (indexed history) ([], h).

(** The projection as a function of the values of the messages alone; the
    heap version is shown below to compute exactly this. *)
Definition viewStepValues (toolInfo : gmap string ToolMeta)
    (lastToolMessageIndex : option nat) (lastToolUseIds : option (list string))
    (abridged : list Message) (entry : nat * Message) : list Message :=
  let '(i, msg) := entry in
  if bool_decide (lastToolMessageIndex = Some i) then abridged ++ [msg]
  else
    match role msg, content msg with
    | assistant, Blocks parts =>
        let '(transformed, summaryOnly) := transformedMessage toolInfo msg parts in
        let push :=
          match finishTransformed transformed with
          | Some final => abridged ++ [final]
          | None => abridged
          end in
        match summaryOnly, last abridged with
        | Some summaryMeta, Some prev =>
            if isSummaryOnly prev
            then removelast abridged ++ [mergeIntoPrev prev summaryMeta]
            else push
        | _, _ => push
        end
    | _, _ =>
        if isToolResultFirst msg then
          if isLastToolResult lastToolUseIds msg then abridged ++ [msg] else abridged
        else abridged ++ [msg]
    end.

Definition viewValues (minimizeTokens : bool) (history : list Message) : list Message :=
  if negb minimizeTokens then history
  else
    let lastToolMessageIndex := findLastToolInteractionIndex history in
    fold_left (viewStepValues (collectToolInfo history) lastToolMessageIndex
                 (lastToolUseIdsOf history lastToolMessageIndex))
              (indexed history) [].

(** ** Predicates used in the statements *)

(** [h'] keeps every object of [h] as it was. *)
Definition preserves (h h' : Heap) : Prop := take (length h) h' = h.

(** The state of the second loop of [getHistoryView], started on heap [h0],
    holds the messages [values]: the pushed objects are distinct, were all
    created since, and no object of [h0] was written to. *)
Definition viewInv (h0 : Heap) (state : list loc * Heap) (values : list Message)
  : Prop :=
  preserves h0 state.2 ∧
  Forall (fun l => (length h0 ≤ l < length state.2)%nat) state.1 ∧
  NoDup state.1 ∧
  map (deref state.2) state.1 = values.

Definition partsOf (m : Message) : list Block :=
  match content m with
  | Blocks parts => parts
  | Text _ => []
  end.

Definition isSummaryLine (part : Block) : bool :=
  match part with
  | TextBlock _ true => true
  | _ => false
  end.

(** A message as the orchestrator stores it: none of the fields and markers
    that only the projection writes. *)
Definition canonical (m : Message) : bool :=
  bool_decide (hasNonSummaryText m = None) &&
  bool_decide (summaryInfo m = None) &&
  bool_decide (summaryToolIds m = None) &&
  negb (hasToolSummary m) &&
  forallb (fun part => negb (isSummaryLine part)) (partsOf m).

(** The number of tool calls a message of the view reports in its summary. *)
Definition summarisedCount (v : Message) : nat :=
  let info := match metadata v ≫= md_toolSummary with
              | Some s => Some s
              | None => summaryInfo v
              end in
  match info with
  | Some s => successCount s + failureCount s
  | None => 0
  end.

(** The number of tool-use parts of an assistant message. *)
Definition toolUseCount (msg : Message) : nat :=
  match role msg, content msg with
  | assistant, Blocks parts => length (filter (fun part => isToolUse part = true) parts)
  | _, _ => 0
  end.

(** The tool-use parts of the history outside the entry at [skip]. *)
Definition toolUsesOutside (skip : option nat) (history : list Message) : nat :=
  sum_list (map (fun e => if bool_decide (skip = Some e.1) then 0%nat else toolUseCount e.2)
                (indexed history)).

Definition isAssistantBlocks (msg : Message) : bool :=
  match role msg, content msg with
  | assistant, Blocks _ => true
  | _, _ => false
  end.

Definition summaryCount (s : option SummaryInfo) : nat :=
  match s with
  | Some info => successCount info + failureCount info
  | None => 0
  end.

(** The five ways one round of the second loop changes the view. *)
Inductive viewStepCase (toolInfo : gmap string ToolMeta)
    (lastIdx : option nat) (lastIds : option (list string))
    (abridged : list Message) (i : nat) (msg : Message) : list Message → Prop :=
| step_last :
    lastIdx = Some i →
    viewStepCase toolInfo lastIdx lastIds abridged i msg (abridged ++ [msg])
| step_plain :
    lastIdx ≠ Some i → isAssistantBlocks msg = false →
    isToolResultFirst msg = false ∨ isLastToolResult lastIds msg = true →
    viewStepCase toolInfo lastIdx lastIds abridged i msg (abridged ++ [msg])
| step_omit :
    lastIdx ≠ Some i → isAssistantBlocks msg = false →
    isToolResultFirst msg = true → isLastToolResult lastIds msg = false →
    viewStepCase toolInfo lastIdx lastIds abridged i msg abridged
| step_transformed parts transformed summaryOnly :
    lastIdx ≠ Some i → role msg = assistant → content msg = Blocks parts →
    transformedMessage toolInfo msg parts = (transformed, summaryOnly) →
    (∀ prev, is_Some summaryOnly → last abridged = Some prev → isSummaryOnly prev = false) →
    viewStepCase toolInfo lastIdx lastIds abridged i msg
      match finishTransformed transformed with
      | Some final => abridged ++ [final]
      | None => abridged
      end
| step_merged parts transformed summaryMeta prev :
    lastIdx ≠ Some i → role msg = assistant → content msg = Blocks parts →
    transformedMessage toolInfo msg parts = (transformed, Some summaryMeta) →
    last abridged = Some prev → isSummaryOnly prev = true →
    viewStepCase toolInfo lastIdx lastIds abridged i msg
      (removelast abridged ++ [mergeIntoPrev prev summaryMeta]).

Definition isPlainText (part : Block) : bool :=
  match part with
  | TextBlock _ false => true
  | _ => false
  end.

(** What holds of [transformed] while the parts are visited, [k] tool-use
    parts having been seen. *)
Definition transformingInv (k : nat) (t : Transforming) : Prop :=
  forallb isPlainText (t_content t) = true ∧
  (summaryCount (t_summaryInfo t) + length (pendingToolBatch t))%nat = k ∧
  (t_hasNonSummaryText t = false → t_content t = []) ∧
  (is_Some (t_summaryInfo t) → (0 < summaryCount (t_summaryInfo t))%nat).

(** Parts as the projection writes them: plain text kept from the message,
    or a line of some tool summary. *)
Definition projectedParts (parts : list Block) : Prop :=
  ∀ part, part ∈ parts →
    isPlainText part = true ∨
    ∃ s t, part = TextBlock t true ∧ t ∈ buildToolSummaryText s.

(** No two neighbours of the view are both summaries without text. *)
Definition noAdjacentSummaries (view : list Message) : Prop :=
  ∀ before a b after, view = before ++ a :: b :: after →
    isSummaryOnly a && isSummaryOnly b = false.

(** The reading of "every earlier user message consisting of tool results is
    omitted" that takes every such message before the last tool interaction. *)
Definition omitsEarlierToolResults (history view : list Message) : Prop :=
  ∀ i j r, findLastToolInteractionIndex history = Some i → (j < i)%nat →
    history !! j = Some r → isToolResultFirst r = true → r ∉ view.

(** ** Sample histories *)

Module Samples.

Definition stored (i : Z) (r : Role) (c : Content) (ids : option (list string))
  : Message :=
  mkMessage (IdNum i) r c
            (match ids with
             | Some l => Some (mkMetadata (Some l) None None)
             | None => None
             end) None None None.

(** Three earlier tool turns, the second failing twice, the third with text
    of its own, then the last tool turn and the final answer. *)
Definition longHistory : Heap :=
  [ stored 1 user (Text "build it") None;
    stored 2 assistant (Blocks [ToolUse "t1" "read_file" JNull]) (Some ["t1"]);
    stored 3 user (Blocks [ToolResult "t1" "ok" false None]) (Some ["t1"]);
    stored 4 assistant (Blocks [ToolUse "t2" "write_file" JNull;
                                ToolUse "t3" "move_file" JNull]) (Some ["t2"; "t3"]);
    stored 5 user (Blocks [ToolResult "t2" "Error: denied" true None;
                           ToolResult "t3" "Error: missing" true None])
           (Some ["t2"; "t3"]);
    stored 6 assistant (Blocks [TextBlock "Trying again" false;
                                ToolUse "t4" "write_file" JNull]) (Some ["t4"]);
    stored 7 user (Blocks [ToolResult "t4" "ok" false None]) (Some ["t4"]);
    stored 8 assistant (Blocks [ToolUse "t5" "list_files" JNull]) (Some ["t5"]);
    stored 9 user (Blocks [ToolResult "t5" "a.js" false None]) (Some ["t5"]);
    stored 10 assistant (Text "done") None ].

(** Two tool turns whose calls carry the same id, as a provider that numbers
    its calls anew in every response produces them. *)
Definition reusedIdHistory : Heap :=
  [ stored 1 user (Text "hi") None;
    stored 2 assistant (Blocks [ToolUse "call_0" "echo" (JStr "hi")]) (Some ["call_0"]);
    stored 3 user (Blocks [ToolResult "call_0" "hi" false None]) (Some ["call_0"]);
    stored 4 assistant (Blocks [ToolUse "call_0" "echo" (JStr "hi")]) (Some ["call_0"]);
    stored 5 user (Blocks [ToolResult "call_0" "hi" false None]) (Some ["call_0"]) ].

Definition allLocs (h : Heap) : list loc := seq 0 (length h).

Definition viewOf (h : Heap) : list Message :=
  let view := getHistoryView (allLocs h) true 0 h in
  map (deref view.2) view.1.

End Samples.

(** ** Tools, providers and the orchestrator state *)

(** What an awaited handler call ends in: the value it resolves to, or an
    [Error] with its message. *)
Inductive Outcome : Type :=
| Returns (v : jsval)
| Throws (message : string).

(** A tool call as a provider reports it. *)
Record ToolCall : Type := mkToolCall {
  call_id : string;
  call_name : string;
  call_arguments : jsval }.

(** A normalized provider response: [{ content, toolCalls, usage }]. *)
Record Response : Type := mkResponse {
  r_content : string;
  r_toolCalls : list ToolCall;
  r_usage : jsval }.

(** An element of the array [executeToolCalls] returns. *)
Record ToolOutcome : Type := mkToolOutcome {
  out_id : string;
  out_result : jsval;
  out_isError : bool }.

(** The entry recorded for a call of a tool that is not registered. *)
Definition unknownToolResult (call : ToolCall) : ToolOutcome :=
  mkToolOutcome (call_id call) (JStr ("Unknown tool: " +:+ call_name call)) true.

(** The entry recorded for a call whose handler threw an error with
    message [m]. *)
Definition errorResult (call : ToolCall) (m : string) : ToolOutcome :=
  mkToolOutcome (call_id call) (JStr ("Error: " +:+ m)) true.

(** Calls made to the outside, in order. *)
Inductive Event : Type :=
| CallAPI (messages : list Message)
| CallHandler (name : string) (arguments : jsval).

(** The outbound lists of the provider calls of a trace, in order. *)
Definition providerCalls (t : list Event) : list (list Message) :=
  omap (fun e => match e with
                 | CallAPI outbound => Some outbound
                 | CallHandler _ _ => None
                 end) t.

(** The handler calls of a trace, in order. *)
Definition handlerCalls (t : list Event) : list (string * jsval) :=
  omap (fun e => match e with
                 | CallHandler name arguments => Some (name, arguments)
                 | CallAPI _ => None
                 end) t.

(** What [onProgress] is called with. *)
Inductive ProgressEvent : Type :=
| tool_iteration (assistantMessage toolResultMessage : Message)
                 (allToolCalls : list (ToolCall * MsgId))
                 (allToolResults : list (ToolOutcome * MsgId)) (usage : jsval)
| final_assistant_message (assistantMessage : Message) (usage : jsval).

(** The object [sendMessage] returns: the last provider response with the
    fields added to it. *)
Record ExchangeResult : Type := mkExchangeResult {
  x_content : string;
  x_toolCalls : list ToolCall;
  x_usage : jsval;
  assistantMessageId : option MsgId;
  toolResultMessageId : option MsgId;
  needsContinuation : bool;
  iterationsUsed : option Z;
  maxIterations : option Z;
  allToolCalls : list (ToolCall * MsgId);
  allToolResults : list (ToolOutcome * MsgId) }.

Inductive Result (A : Type) : Type :=
| Ok (a : A)
| Threw (message : string).

Arguments Ok {A} a.
Arguments Threw {A} message.

Section Orchestrator.

(** The state of everything outside the orchestrator that handlers, hooks
    and providers read and change. *)
Context {World : Type}.

(** [JSON.stringify(v, null, 2)]; [None] is [undefined]. *)
Variable JSON_stringify : jsval → option string.

Record UniversalTool : Type := mkUniversalTool {
  tool_name : string;
  tool_description : string;
  tool_parameters : jsval;
  handler : jsval → World → Outcome * World;
  category : string }.

(** The options of [sendMessage]; the three hooks and flags it deletes
    before passing the rest to the provider come last. *)
Record Options : Type := mkOptions {
  opt_model : option string;
  opt_maxTokens : option Z;
  opt_temperature : option Z;
  opt_maxIterations : option Z;
  opt_minimizeTokens : bool;
  opt_limitMessages : option Z;
  onProgress : option (ProgressEvent → World → World);
  prepareRateLimit : option (list Message → World → World);
  preAddedUserMessage : bool }.

Definition providerOptionsOf (options : Options) : Options :=
  mkOptions (opt_model options) (opt_maxTokens options) (opt_temperature options)
            (opt_maxIterations options) (opt_minimizeTokens options)
            (opt_limitMessages options) None None false.

(** A provider: [callAPI] resolves to a response or rejects with an error. *)
Record AIProvider : Type := mkAIProvider {
  callAPI : list Message → list UniversalTool → Options → World → Result Response * World }.

Record AIManager : Type := mkAIManager {
  providers : gmap string AIProvider;
  currentProvider : option string;
  tools : list UniversalTool;
  conversationHistory : list loc;
  systemPrompt : option string;
  messageIdCounter : Z }.

Record State : Type := mkState {
  manager : AIManager;
  heap : Heap;
  world : World;
  trace : list Event }.

(** [new AIManager()] *)
Definition newAIManager : AIManager := mkAIManager ∅ None [] [] None 0.

Definition set_manager (m : AIManager) (s : State) : State :=
  mkState m (heap s) (world s) (trace s).
Definition set_heap (h : Heap) (s : State) : State :=
  mkState (manager s) h (world s) (trace s).
Definition set_world (w : World) (s : State) : State :=
  mkState (manager s) (heap s) w (trace s).
Definition log (e : Event) (s : State) : State :=
  mkState (manager s) (heap s) (world s) (trace s ++ [e]).

Definition set_history (history : list loc) (m : AIManager) : AIManager :=
  mkAIManager (providers m) (currentProvider m) (tools m) history
              (systemPrompt m) (messageIdCounter m).
Definition set_counter (counter : Z) (m : AIManager) : AIManager :=
  mkAIManager (providers m) (currentProvider m) (tools m) (conversationHistory m)
              (systemPrompt m) counter.

(** *** Registration *)

Definition registerProvider (name : string) (provider : AIProvider) (m : AIManager)
  : AIManager :=
  mkAIManager (<[name := provider]> (providers m))
              (if truthy_ostr (currentProvider m) then currentProvider m else Some name)
              (tools m) (conversationHistory m) (systemPrompt m) (messageIdCounter m).

Definition setProvider (name : string) (m : AIManager) : Result AIManager :=
  match providers m !! name with
  | Some _ =>
      Ok (mkAIManager (providers m) (Some name) (tools m) (conversationHistory m)
                      (systemPrompt m) (messageIdCounter m))
  | None => Threw ("Provider " +:+ name +:+ " not registered")
  end.

(** [this.providers[this.currentProvider]]; the key [null] reads the
    property named "null". *)
Definition getProvider (m : AIManager) : option AIProvider :=
  providers m !! default "null" (currentProvider m).

Definition registerTool (name description : string) (parameters : jsval)
    (h : jsval → World → Outcome * World) (cat : string) (m : AIManager) : AIManager :=
  mkAIManager (providers m) (currentProvider m)
              (tools m ++ [mkUniversalTool name description parameters h cat])
              (conversationHistory m) (systemPrompt m) (messageIdCounter m).

Definition registerTools (ts : list UniversalTool) (m : AIManager) : AIManager :=
  fold_left (fun m tool => registerTool (tool_name tool) (tool_description tool)
                                        (tool_parameters tool) (handler tool) "general" m)
            ts m.

Definition setSystemPrompt (prompt : option string) (m : AIManager) : AIManager :=
  mkAIManager (providers m) (currentProvider m) (tools m) (conversationHistory m)
              prompt (messageIdCounter m).

Definition clearHistory (m : AIManager) : AIManager :=
  mkAIManager (providers m) (currentProvider m) (tools m) [] (systemPrompt m) 0.

Definition getHistory (m : AIManager) : list loc := conversationHistory m.

(** *** Message ids *)

(** [ensureMessageId(message)] on the value of the message and the counter. *)
Definition ensureMessageId (message : Message) (counter : Z) : Message * Z :=
  let assign := (set_id (IdNum (counter + 1)) message, counter + 1) in
  match _id message with
  | IdNum existingId =>
      (message, if counter <? existingId then existingId else counter)
  | IdStr existingId =>
      match parseInt existingId with
      | Some parsed =>
          (set_id (IdNum parsed) message, if counter <? parsed then parsed else counter)
      | None => assign
      end
  | IdAbsent | IdNonFinite => assign
  end.

(** [ensureMessageId] on the object at [l]. *)
Definition ensureMessageIdAt (l : loc) (s : State) : State :=
  let '(message, counter) := ensureMessageId (deref (heap s) l)
                                             (messageIdCounter (manager s)) in
  set_manager (set_counter counter (manager s)) (set_heap (store l message (heap s)) s).

Definition ensureHistoryMessageIds (s : State) : State :=
  fold_left (fun s entry => ensureMessageIdAt entry s)
            (conversationHistory (manager s)) s.

(** A message literal is given its id and appended to the history; the
    location of the new object is returned. *)
Definition appendMessage (message : Message) (s : State) : loc * State :=
  let '(message, counter) := ensureMessageId message (messageIdCounter (manager s)) in
  let '(l, h) := alloc message (heap s) in
  (l, set_manager (set_history (conversationHistory (manager s) ++ [l])
                               (set_counter counter (manager s)))
                  (set_heap h s)).

Definition addMessage (r : Role) (c : Content) (s : State) : loc * State :=
  appendMessage (newMessage r c) s.

(** *** Tool execution *)

Definition findTool (availableTools : list UniversalTool) (name : string)
  : option UniversalTool :=
  List.find (fun t => String.eqb (tool_name t) name) availableTools.

(** One round of the loop of [AIProvider.executeToolCalls]. *)
Definition executeToolCall (availableTools : list UniversalTool) (call : ToolCall)
    (s : State) : ToolOutcome * State :=
  match findTool availableTools (call_name call) with
  | Some tool =>
      let s := log (CallHandler (call_name call) (call_arguments call)) s in
      let '(outcome, w) := handler tool (call_arguments call) (world s) in
      (match outcome with
       | Returns result => mkToolOutcome (call_id call) result false
       | Throws message => mkToolOutcome (call_id call) (JStr ("Error: " +:+ message)) true
       end, set_world w s)
  | None =>
      (mkToolOutcome (call_id call) (JStr ("Unknown tool: " +:+ call_name call)) true, s)
  end.

Fixpoint executeToolCalls (toolCalls : list ToolCall)
    (availableTools : list UniversalTool) (s : State) : list ToolOutcome * State :=
  match toolCalls with
  | [] => ([], s)
  | call :: rest =>
      let '(result, s) := executeToolCall availableTools call s in
      let '(results, s) := executeToolCalls rest availableTools s in
      (result :: results, s)
  end.

(** *** Prompt augmentation *)

(** [summaryText] by what the [code_summary] tool did; [None] for the tool is
    no such tool, [None] for the text is [undefined]. *)
Definition summaryTextOf (outcome : option Outcome) : option string :=
  match outcome with
  | Some (Returns (JStr summary)) => Some summary
  | Some (Returns JUndefined) | Some (Returns JNull) =>
      Some "[code_summary returned no data]"
  | Some (Returns summary) => JSON_stringify summary
  | Some (Throws message) => Some ("[Error generating summary: " +:+ message +:+ "]")
  | None => Some "[code_summary tool unavailable]"
  end.

Definition finalSummaryOf (summaryText : option string) : string :=
  let cleanedSummary := match summaryText with
                        | Some text => trimEnd text
                        | None => ""
                        end in
  if truthy_str cleanedSummary then cleanedSummary else "[No summary generated]".

Definition augmentedPromptOf (outcome : option Outcome) (originalMessage : string)
  : string :=
  "Code summary:" +:+ newline +:+ finalSummaryOf (summaryTextOf outcome)
  +:+ newline +:+ newline +:+ originalMessage.

Definition buildAugmentedPrompt (originalMessage : string) (s : State)
  : string * State :=
  let '(outcome, s) :=
    match findTool (tools (manager s)) "code_summary" with
    | Some summaryTool =>
        let s := log (CallHandler "code_summary" JUndefined) s in
        let '(outcome, w) := handler summaryTool JUndefined (world s) in
        (Some outcome, set_world w s)
    | None => (None, s)
    end in
  (augmentedPromptOf outcome originalMessage, s).

(** *** The tool-calling loop *)

(** The variables of the loop of [sendMessage]; [messages] is the outbound
    list. *)
Record LoopVars : Type := mkLoopVars {
  messages : list loc;
  continueProcessing : bool;
  finalResponse : option ExchangeResult;
  lv_allToolCalls : list (ToolCall * MsgId);
  lv_allToolResults : list (ToolOutcome * MsgId);
  iterations : Z }.

Definition responseResult (response : Response) (assistantId toolResultId : option MsgId)
  : ExchangeResult :=
  mkExchangeResult (r_content response) (r_toolCalls response) (r_usage response)
                   assistantId toolResultId false None None [] [].

Definition toolUsePart (toolCall : ToolCall) : Block :=
  ToolUse (call_id toolCall) (call_name toolCall) (call_arguments toolCall).

Definition toolResultPart (result : ToolOutcome) : Block :=
  ToolResult (out_id result) (js_String (out_result result)) (out_isError result) None.

(** The assistant message literal for a response with tool calls, with the
    metadata set on it before it is pushed. *)
Definition assistantToolMessage (response : Response) : Message :=
  mkMessage IdAbsent assistant
            (Blocks ((if truthy_str (r_content response)
                      then [TextBlock (r_content response) false] else [])
                     ++ map toolUsePart (r_toolCalls response)))
            (Some (mkMetadata (Some (map call_id (r_toolCalls response))) None None))
            None None None.

Definition toolResultMessageOf (toolResults : list ToolOutcome) : Message :=
  mkMessage IdAbsent user (Blocks (map toolResultPart toolResults))
            (Some (mkMetadata (Some (map out_id toolResults)) None None))
            None None None.

Definition notify (options : Options) (event : ProgressEvent) (s : State) : State :=
  match onProgress options with
  | Some progressCallback => set_world (progressCallback event (world s)) s
  | None => s
  end.

(** The branch of the loop body for a response with tool calls. *)
Definition toolIteration (options : Options) (response : Response) (v : LoopVars)
    (s : State) : LoopVars * State :=
  let '(la, s) := appendMessage (assistantToolMessage response) s in
  let assistantMessage := deref (heap s) la in
  let '(toolResults, s) := executeToolCalls (r_toolCalls response) (tools (manager s)) s in
  let '(lr, s) := appendMessage (toolResultMessageOf toolResults) s in
  let toolResultMessage := deref (heap s) lr in
  let toolCallsWithMeta :=
    map (fun call => (call, _id assistantMessage)) (r_toolCalls response) in
  let toolResultsWithMeta :=
    map (fun result => (result, _id toolResultMessage)) toolResults in
  let s := notify options
             (tool_iteration assistantMessage toolResultMessage
                             toolCallsWithMeta toolResultsWithMeta (r_usage response)) s in
  (mkLoopVars (messages v ++ [la; lr]) true
              (Some (responseResult response (Some (_id assistantMessage))
                                             (Some (_id toolResultMessage))))
              (lv_allToolCalls v ++ toolCallsWithMeta)
              (lv_allToolResults v ++ toolResultsWithMeta)
              (iterations v), s).

(** The branch for a response without tool calls. *)
Definition finalIteration (options : Options) (response : Response) (v : LoopVars)
    (s : State) : LoopVars * State :=
  if truthy_str (r_content response) then
    let '(la, s) := appendMessage (newMessage assistant (Text (r_content response))) s in
    let assistantMessage := deref (heap s) la in
    let s := notify options (final_assistant_message assistantMessage (r_usage response)) s in
    (mkLoopVars (messages v) false
                (Some (responseResult response (Some (_id assistantMessage)) None))
                (lv_allToolCalls v) (lv_allToolResults v) (iterations v), s)
  else
    (mkLoopVars (messages v) false (Some (responseResult response None None))
                (lv_allToolCalls v) (lv_allToolResults v) (iterations v), s).

(** The body of the loop. *)
Definition iteration (provider : AIProvider) (options : Options) (v : LoopVars)
    (s : State) : Result LoopVars * State :=
  let v := mkLoopVars (messages v) (continueProcessing v) (finalResponse v)
                      (lv_allToolCalls v) (lv_allToolResults v) (iterations v + 1) in
  let outbound := map (deref (heap s)) (messages v) in
  let s := match prepareRateLimit options with
           | Some prepare => set_world (prepare outbound (world s)) s
           | None => s
           end in
  let s := log (CallAPI outbound) s in
  let '(answer, w) := callAPI provider outbound (tools (manager s))
                              (providerOptionsOf options) (world s) in
  let s := set_world w s in
  match answer with
  | Threw message => (Threw message, s)
  | Ok response =>
      match r_toolCalls response with
      | _ :: _ => let '(v, s) := toolIteration options response v s in (Ok v, s)
      | [] => let '(v, s) := finalIteration options response v s in (Ok v, s)
      end
  end.

(** [while (continueProcessing && iterations < MAX_ITERATIONS)], unrolled at
    most [rounds] times. *)
Fixpoint loop (rounds : nat) (provider : AIProvider) (options : Options)
    (MAX_ITERATIONS : Z) (v : LoopVars) (s : State) : Result LoopVars * State :=
  if continueProcessing v && (iterations v <? MAX_ITERATIONS) then
    match rounds with
    | O => (Ok v, s)
    | S rounds =>
        match iteration provider options v s with
        | (Ok v, s) => loop rounds provider options MAX_ITERATIONS v s
        | (Threw message, s) => (Threw message, s)
        end
    end
  else (Ok v, s).

Definition limitNotice (MAX_ITERATIONS : Z) : string :=
  "⚠️ Reached tool iteration limit (" +:+ string_of_Z MAX_ITERATIONS +:+
  " iterations). The task may not be complete. Click " +:+ dquote +:+
  "Continue Tools" +:+ dquote +:+ " to resume processing.".

(** The part of [sendMessage] after the loop. *)
Definition finish (MAX_ITERATIONS : Z) (v : LoopVars) : Result ExchangeResult :=
  let finalResponse :=
    if (MAX_ITERATIONS <=? iterations v) && continueProcessing v then
      let r := default (mkExchangeResult "" [] JUndefined None None false None None [] [])
                       (finalResponse v) in
      Some (mkExchangeResult
              (if truthy_str (x_content r) then x_content r
               else limitNotice MAX_ITERATIONS)
              (x_toolCalls r) (x_usage r) (assistantMessageId r)
              (toolResultMessageId r) true (Some (iterations v)) (Some MAX_ITERATIONS)
              (allToolCalls r) (allToolResults r))
    else finalResponse v in
  match finalResponse with
  | Some r =>
      Ok (mkExchangeResult (x_content r) (x_toolCalls r) (x_usage r)
                           (assistantMessageId r) (toolResultMessageId r)
                           (needsContinuation r) (iterationsUsed r) (maxIterations r)
                           (lv_allToolCalls v) (lv_allToolResults v))
  | None => Threw "TypeError: Cannot set properties of null"
  end.

Definition isContinuationMarker (userMessage : string) : bool :=
  String.eqb userMessage "__continue_tools__".

(** [options.maxIterations || (isContinuation ? 20 : 10)] *)
Definition maxIterationsFor (options : Options) (isContinuation : bool) : Z :=
  match opt_maxIterations options with
  | Some n => if n =? 0 then (if isContinuation then 20 else 10) else n
  | None => if isContinuation then 20 else 10
  end.

(** The first steps of [sendMessage]: ids for the stored messages, and the
    user message appended unless this is a continuation or the caller has
    added it. *)
Definition beginTurn (userMessage : string) (options : Options) (s : State) : State :=
  let s := ensureHistoryMessageIds s in
  if negb (isContinuationMarker userMessage) && negb (preAddedUserMessage options)
  then (addMessage user (Text userMessage) s).2
  else s.

(** The outbound list: the history view, with the system prompt put in front
    unless the view starts with a system message. *)
Definition outboundMessages (options : Options) (s : State) : list loc * State :=
  let '(messages, h) :=
    getHistoryView (conversationHistory (manager s)) (opt_minimizeTokens options)
                   (default 0 (opt_limitMessages options)) (heap s) in
  let s := set_heap h s in
  if truthy_ostr (systemPrompt (manager s))
     && negb (bool_decide (role <$> (deref (heap s) <$> head messages) = Some system))
  then
    let '(l, h) := alloc (newMessage system (Text (default "" (systemPrompt (manager s)))))
                         (heap s) in
    (l :: messages, set_heap h s)
  else (messages, s).

(** The latest user text message of the outbound list is given the
    augmented prompt. *)
Definition augmentLatest (messages : list loc) (s : State) : State :=
  match findLatestUserTextMessageIndex (map (deref (heap s)) messages) with
  | Some targetIndex =>
      match messages !! targetIndex with
      | Some target =>
          match content (deref (heap s) target) with
          | Text originalContent =>
              let '(augmentedPrompt, s) := buildAugmentedPrompt originalContent s in
              if negb (String.eqb augmentedPrompt originalContent) then
                set_heap (store target (set_content (Text augmentedPrompt)
                                                    (deref (heap s) target))
                                (heap s)) s
              else s
          | Blocks _ => s
          end
      | None => s
      end
  | None => s
  end.

(** The part of [sendMessage] before the loop. *)
Definition prepareMessages (userMessage : string) (options : Options) (s : State)
  : list loc * State :=
  let s := beginTurn userMessage options s in
  let '(messages, s) := outboundMessages options s in
  (messages,
   if negb (isContinuationMarker userMessage) then augmentLatest messages s else s).

Definition sendMessage (userMessage : string) (options : Options) (s : State)
  : Result ExchangeResult * State :=
  match getProvider (manager s) with
  | None => (Threw "No AI provider configured", s)
  | Some provider =>
      let '(messages, s) := prepareMessages userMessage options s in
      let MAX_ITERATIONS := maxIterationsFor options (isContinuationMarker userMessage) in
      match loop (Z.to_nat MAX_ITERATIONS) provider options MAX_ITERATIONS
                 (mkLoopVars messages true None [] [] 0) s with
      | (Ok v, s) => (finish MAX_ITERATIONS v, s)
      | (Threw message, s) => (Threw message, s)
      end
  end.

End Orchestrator.

(** ** Stub providers and tools *)

Module Stubs.

(** The world of the stubs: the number of provider calls made so far. *)
Definition Calls : Type := nat.

(** A provider that answers its [n]-th call with [script n]. *)
Definition scripted (script : nat → Result Response) : @AIProvider Calls :=
  mkAIProvider (fun _ _ _ n => (script n, S n)).

(** [echo(x) = x] *)
Definition echo : jsval → Calls → Outcome * Calls := fun x n => (Returns x, n).

(** A handler that always throws an error with the given message. *)
Definition failing (message : string) : jsval → Calls → Outcome * Calls :=
  fun _ n => (Throws message, n).

Definition noStringify : jsval → option string := fun _ => None.

Definition defaults : @Options Calls :=
  mkOptions None None None None false None None None false.

Definition withMaxIterations (n : Z) : @Options Calls :=
  mkOptions None None None (Some n) false None None None false.

Definition start (m : @AIManager Calls) : @State Calls := mkState m [] 0%nat [].

Definition callTool (id name : string) (arguments : jsval) : Response :=
  mkResponse "" [mkToolCall id name arguments] JNull.

Definition plainText (text : string) : Response := mkResponse text [] JNull.

(** Provider P of the end-to-end scenario: a call of [echo] on "hi", then
    the text "done". *)
Definition providerP : @AIProvider Calls :=
  scripted (fun n => match n with
                     | O => Ok (callTool "call_0" "echo" (JStr "hi"))
                     | _ => Ok (plainText "done")
                     end).

Definition managerP : @AIManager Calls :=
  registerTool "echo" "returns its argument" JNull echo "general"
    (registerProvider "P" providerP newAIManager).

(** A provider whose every response is the same call of [echo]. *)
Definition alwaysCalling : @AIProvider Calls :=
  scripted (fun _ => Ok (callTool "call_0" "echo" (JStr "hi"))).

Definition managerLooping : @AIManager Calls :=
  registerTool "echo" "returns its argument" JNull echo "general"
    (registerProvider "P" alwaysCalling newAIManager).

(** A provider that first asks for a tool nobody has registered, then
    answers "done". *)
Definition askingUnknown : @AIProvider Calls :=
  scripted (fun n => match n with
                     | O => Ok (callTool "call_0" "missing" JNull)
                     | _ => Ok (plainText "done")
                     end).

Definition managerUnknown : @AIManager Calls :=
  registerTool "echo" "returns its argument" JNull echo "general"
    (registerProvider "P" askingUnknown newAIManager).

(** A provider whose every response is a call of [explode], and one that
    asks for it once and then answers "done". *)
Definition alwaysExploding : @AIProvider Calls :=
  scripted (fun _ => Ok (callTool "call_0" "explode" JNull)).

Definition explodingOnce : @AIProvider Calls :=
  scripted (fun n => match n with
                     | O => Ok (callTool "call_0" "explode" JNull)
                     | _ => Ok (plainText "done")
                     end).

(** [explode] is a tool whose handler throws an error with message "boom". *)
Definition managerExploding (provider : @AIProvider Calls) : @AIManager Calls :=
  registerTool "explode" "always throws" JNull (failing "boom") "general"
    (registerProvider "P" provider newAIManager).

(** A [code_summary] handler that returns [summary], and a provider that
    answers "done" at once. *)
Definition summarizing (summary : jsval) : jsval → Calls → Outcome * Calls :=
  fun _ n => (Returns summary, n).

Definition answering : @AIProvider Calls := scripted (fun _ => Ok (plainText "done")).

Definition managerSummarizing (summary : jsval) : @AIManager Calls :=
  registerTool "code_summary" "summarizes the code" JNull (summarizing summary) "analysis"
    (registerProvider "P" answering newAIManager).

End Stubs.

(** ** Predicates on runs of the orchestrator *)

(** A message with its id left out. *)
Definition eraseId (m : Message) : Message := set_id IdAbsent m.

(** The view with the system prompt in front, as [sendMessage] sends it. *)
Definition withSystemPrompt (prompt : option string) (view : list Message)
  : list Message :=
  if truthy_ostr prompt && negb (bool_decide (role <$> head view = Some system))
  then newMessage system (Text (default "" prompt)) :: view
  else view.

(** The outbound values after the latest user text message was given the
    prompt [augmented]. *)
Definition augmentedValues (augmented : string → string) (values : list Message)
  : list Message :=
  match findLatestUserTextMessageIndex values with
  | Some targetIndex =>
      match values !! targetIndex with
      | Some target =>
          match content target with
          | Text originalContent =>
              <[targetIndex := set_content (Text (augmented originalContent)) target]> values
          | Blocks _ => values
          end
      | None => values
      end
  | None => values
  end.

Section Runs.

Context {World : Type}.
Variable JSON_stringify : jsval → option string.

Abbreviation State := (@State World).
Abbreviation UniversalTool := (@UniversalTool World).
Abbreviation AIProvider := (@AIProvider World).
Abbreviation Options := (@Options World).

(** The entry [executeToolCalls] records for a call, given what the handler
    of the tool did. *)
Definition recorded (call : ToolCall) (outcome : option Outcome) : ToolOutcome :=
  match outcome with
  | Some (Returns result) => mkToolOutcome (call_id call) result false
  | Some (Throws message) =>
      mkToolOutcome (call_id call) (JStr ("Error: " +:+ message)) true
  | None => mkToolOutcome (call_id call) (JStr ("Unknown tool: " +:+ call_name call)) true
  end.

(** [result] is what is recorded for [call]: the unknown-tool entry when no
    tool has its name, and else the outcome of one call of its handler on the
    arguments of the call. *)
Definition recordedFor (availableTools : list UniversalTool) (call : ToolCall)
    (result : ToolOutcome) : Prop :=
  match findTool availableTools (call_name call) with
  | Some tool =>
      ∃ w, result = recorded call (Some (handler tool (call_arguments call) w).1)
  | None => result = recorded call None
  end.

Definition isKnown (availableTools : list UniversalTool) (call : ToolCall) : bool :=
  bool_decide (is_Some (findTool availableTools (call_name call))).

Definition handlerEvents (availableTools : list UniversalTool)
    (toolCalls : list ToolCall) : list Event :=
  map (fun call => CallHandler (call_name call) (call_arguments call))
      (List.filter (isKnown availableTools) toolCalls).

(** The message stored for the final answer of the provider. *)
Definition finalAssistantMessage (response : Response) : Message :=
  newMessage assistant (Text (r_content response)).

(** The rounds of the loop of [sendMessage], as seen from outside: with
    [rounds] round trips left, the id counter at [counter] and the outbound
    list holding [outbound], the loop makes the calls [events] and appends
    the messages [appended] to the history. *)
Inductive Turns (availableTools : list UniversalTool)
  : nat → Z → list Message → list Event → list Message → Prop :=
| turns_paused counter outbound :
    Turns availableTools 0 counter outbound [] []
| turns_rejected rounds counter outbound :
    Turns availableTools (S rounds) counter outbound [CallAPI outbound] []
| turns_answered rounds counter outbound response :
    r_toolCalls response = [] →
    Turns availableTools (S rounds) counter outbound [CallAPI outbound]
          (if truthy_str (r_content response)
           then [set_id (IdNum (counter + 1)) (finalAssistantMessage response)]
           else [])
| turns_called rounds counter outbound response results events appended :
    r_toolCalls response ≠ [] →
    Forall2 (recordedFor availableTools) (r_toolCalls response) results →
    Turns availableTools rounds (counter + 2)
          (outbound ++ [set_id (IdNum (counter + 1)) (assistantToolMessage response);
                        set_id (IdNum (counter + 2)) (toolResultMessageOf results)])
          events appended →
    Turns availableTools (S rounds) counter outbound
          (CallAPI outbound :: handlerEvents availableTools (r_toolCalls response) ++ events)
          (set_id (IdNum (counter + 1)) (assistantToolMessage response)
           :: set_id (IdNum (counter + 2)) (toolResultMessageOf results)
           :: appended).

(** How a run of some rounds changes the state: the heap and the history
    grow by the messages [appended], the id counter by their number, the
    trace by [events]; providers, tools and the system prompt stay. *)
Definition grows (s s' : State) (events : list Event) (appended : list Message)
  : Prop :=
  heap s' = heap s ++ appended ∧
  conversationHistory (manager s')
  = conversationHistory (manager s) ++ seq (length (heap s)) (length appended) ∧
  messageIdCounter (manager s')
  = messageIdCounter (manager s) + Z.of_nat (length appended) ∧
  trace s' = trace s ++ events ∧
  providers (manager s') = providers (manager s) ∧
  currentProvider (manager s') = currentProvider (manager s) ∧
  tools (manager s') = tools (manager s) ∧
  systemPrompt (manager s') = systemPrompt (manager s).

(** What one round does, by the answer of the provider. *)
Inductive RoundCase (options : Options) (v : LoopVars) (s : State)
  : Result LoopVars → State → Prop :=
| round_rejected message s' :
    grows s s' [CallAPI (map (deref (heap s)) (messages v))] [] →
    RoundCase options v s (Threw message) s'
| round_answered response v' s' :
    r_toolCalls response = [] →
    grows s s' [CallAPI (map (deref (heap s)) (messages v))]
          (if truthy_str (r_content response)
           then [set_id (IdNum (messageIdCounter (manager s) + 1))
                        (finalAssistantMessage response)]
           else []) →
    messages v' = messages v → continueProcessing v' = false →
    iterations v' = iterations v + 1 →
    (∃ r, finalResponse v' = Some r ∧ x_content r = r_content response ∧
          needsContinuation r = false) →
    lv_allToolCalls v' = lv_allToolCalls v →
    lv_allToolResults v' = lv_allToolResults v →
    RoundCase options v s (Ok v') s'
| round_called response results v' s' :
    r_toolCalls response ≠ [] →
    Forall2 (recordedFor (tools (manager s))) (r_toolCalls response) results →
    grows s s'
          (CallAPI (map (deref (heap s)) (messages v))
           :: handlerEvents (tools (manager s)) (r_toolCalls response))
          [set_id (IdNum (messageIdCounter (manager s) + 1)) (assistantToolMessage response);
           set_id (IdNum (messageIdCounter (manager s) + 2)) (toolResultMessageOf results)] →
    messages v' = messages v ++ [length (heap s); S (length (heap s))] →
    continueProcessing v' = true →
    iterations v' = iterations v + 1 →
    finalResponse v'
    = Some (responseResult response (Some (IdNum (messageIdCounter (manager s) + 1)))
                                    (Some (IdNum (messageIdCounter (manager s) + 2)))) →
    lv_allToolCalls v'
    = lv_allToolCalls v ++ map (fun call => (call, IdNum (messageIdCounter (manager s) + 1)))
                               (r_toolCalls response) →
    lv_allToolResults v'
    = lv_allToolResults v ++ map (fun result => (result, IdNum (messageIdCounter (manager s) + 2)))
                                 results →
    RoundCase options v s (Ok v') s'.

(** What the loop leaves when it returns. *)
Definition loopExit (MAX : Z) (rounds : nat) (events : list Event) (v v' : LoopVars)
  : Prop :=
  (continueProcessing v' = true →
     iterations v' = iterations v + Z.of_nat rounds ∧
     length (providerCalls events) = rounds) ∧
  (continueProcessing v' = false → is_Some (finalResponse v')) ∧
  (is_Some (finalResponse v) ∨ (0 < rounds)%nat → is_Some (finalResponse v')).

(** The history holds locations of the heap. *)
Definition wellFormed (s : State) : Prop :=
  valid_locs (heap s) (conversationHistory (manager s)).

(** [s'] differs from [s] in ids given to stored messages and in the id
    counter only. *)
Definition sameButIds (s s' : State) : Prop :=
  map eraseId (heap s') = map eraseId (heap s) ∧
  messageIdCounter (manager s) ≤ messageIdCounter (manager s') ∧
  conversationHistory (manager s') = conversationHistory (manager s) ∧
  providers (manager s') = providers (manager s) ∧
  currentProvider (manager s') = currentProvider (manager s) ∧
  tools (manager s') = tools (manager s) ∧
  systemPrompt (manager s') = systemPrompt (manager s) ∧
  world s' = world s ∧ trace s' = trace s.

(** The user message [beginTurn] appends, if any. *)
Definition userMessageAdded (userMessage : string) (options : Options) (counter : Z)
  : list Message :=
  if negb (isContinuationMarker userMessage) && negb (preAddedUserMessage options)
  then [set_id (IdNum (counter + 1)) (newMessage user (Text userMessage))]
  else [].

(** What the [code_summary] tool does when called in state [s]; [None] when
    there is no such tool. *)
Definition codeSummaryOutcome (s : State) : option Outcome :=
  (fun tool => (handler tool JUndefined (world s)).1)
    <$> findTool (tools (manager s)) "code_summary".

Definition codeSummaryEvents (s : State) : list Event :=
  match findTool (tools (manager s)) "code_summary" with
  | Some _ => [CallHandler "code_summary" JUndefined]
  | None => []
  end.

(** Every response of the provider carries a tool call. *)
Definition alwaysCallsTools (provider : AIProvider) : Prop :=
  ∀ outbound availableTools options w,
    ∃ response w', callAPI provider outbound availableTools options w = (Ok response, w') ∧
                   r_toolCalls response ≠ [].

(** The provider answers every call. *)
Definition neverRejects (provider : AIProvider) : Prop :=
  ∀ outbound availableTools options w,
    ∃ response w', callAPI provider outbound availableTools options w = (Ok response, w').

(** The outbound list [sendMessage] builds in state [s]. *)
Definition outboundValues (userMessage : string) (options : Options) (s : State)
  : list Message :=
  let s1 := beginTurn userMessage options s in
  let view := withSystemPrompt (systemPrompt (manager s1))
                (viewValues (opt_minimizeTokens options)
                   (map (deref (heap s1))
                        (historyWindow (heap s1) (default 0 (opt_limitMessages options))
                                       (conversationHistory (manager s1))))) in
  if negb (isContinuationMarker userMessage)
  then augmentedValues
         (augmentedPromptOf JSON_stringify
            (codeSummaryOutcome (outboundMessages options s1).2)) view
  else view.

End Runs.

(** One round of the loop in which the provider asked for tools: the
    outbound list it was called with, the id counter before the round, its
    response and the entries [executeToolCalls] recorded. *)
Record Turn : Type := mkTurn {
  turn_outbound : list Message;
  turn_counter : Z;
  turn_response : Response;
  turn_results : list ToolOutcome }.

(** How the loop ended: budget used up, provider error, or an answer
    without tool calls. *)
Inductive Ending : Type :=
| Paused
| Rejected
| Answered (response : Response).

(** The assistant message stored for a turn. *)
Definition turnAssistant (t : Turn) : Message :=
  set_id (IdNum (turn_counter t + 1)) (assistantToolMessage (turn_response t)).

(** The tool-result message stored for a turn. *)
Definition turnToolResult (t : Turn) : Message :=
  set_id (IdNum (turn_counter t + 2)) (toolResultMessageOf (turn_results t)).

Definition turnMessages (t : Turn) : list Message :=
  [turnAssistant t; turnToolResult t].

Definition isToolResultPart (part : Block) : bool :=
  match part with
  | ToolResult _ _ _ _ => true
  | _ => false
  end.

Definition toolResultIds (parts : list Block) : list string :=
  omap (fun part => match part with
                    | ToolResult tool_use_id _ _ _ => Some tool_use_id
                    | _ => None
                    end) parts.

(** Every assistant message with tool-use parts is directly followed by a
    user message made of tool results that carry, one for one and in order,
    the ids of those tool-use parts. *)
Fixpoint toolTurnsPaired (history : list Message) : bool :=
  match history with
  | [] => true
  | m :: rest =>
      if isToolInteraction m then
        match rest with
        | r :: rest' =>
            bool_decide (role r = user) &&
            forallb isToolResultPart (partsOf r) &&
            bool_decide (toolResultIds (partsOf r) = toolUseIds (partsOf m)) &&
            toolTurnsPaired rest'
        | [] => false
        end
      else toolTurnsPaired rest
  end.

Section RunShape.

Context {World : Type}.

Abbreviation UniversalTool := (@UniversalTool World).

(** The events of a turn: the provider call, then the handlers of the known
    tools in the order of the calls. *)
Definition turnEvents (availableTools : list UniversalTool) (t : Turn) : list Event :=
  CallAPI (turn_outbound t)
  :: handlerEvents availableTools (r_toolCalls (turn_response t)).

(** [turns] followed by [ending] is a run of the loop with [rounds] round
    trips allowed, from the id counter [counter] and the outbound list
    [outbound]: each turn starts from the outbound list the turn before left,
    extended by its two messages. *)
Fixpoint chain (availableTools : list UniversalTool) (rounds : nat) (counter : Z)
    (outbound : list Message) (turns : list Turn) (ending : Ending) : Prop :=
  match turns with
  | [] =>
      match ending with
      | Paused => rounds = 0%nat
      | Rejected => (0 < rounds)%nat
      | Answered response => (0 < rounds)%nat ∧ r_toolCalls response = []
      end
  | t :: rest =>
      (0 < rounds)%nat ∧ turn_outbound t = outbound ∧ turn_counter t = counter ∧
      r_toolCalls (turn_response t) ≠ [] ∧
      Forall2 (recordedFor availableTools) (r_toolCalls (turn_response t))
              (turn_results t) ∧
      chain availableTools (pred rounds) (counter + 2) (outbound ++ turnMessages t)
            rest ending
  end.

(** The events of a run. *)
Definition runEvents (availableTools : list UniversalTool) (outbound : list Message)
    (turns : list Turn) (ending : Ending) : list Event :=
  flat_map (turnEvents availableTools) turns
  ++ match ending with
     | Paused => []
     | Rejected | Answered _ => [CallAPI (outbound ++ flat_map turnMessages turns)]
     end.

(** The messages a run appends to the history. *)
Definition runMessages (counter : Z) (turns : list Turn) (ending : Ending)
  : list Message :=
  flat_map turnMessages turns
  ++ match ending with
     | Answered response =>
         if truthy_str (r_content response)
         then [set_id (IdNum (counter + 2 * Z.of_nat (length turns) + 1))
                      (finalAssistantMessage response)]
         else []
     | Paused | Rejected => []
     end.

End RunShape.

Section StoredValues.

Context {World : Type}.
Variable JSON_stringify : jsval → option string.

Abbreviation State := (@State World).
Abbreviation UniversalTool := (@UniversalTool World).
Abbreviation AIProvider := (@AIProvider World).
Abbreviation Options := (@Options World).

(** The values of the history of state [s]. *)
Definition historyValues (s : State) : list Message :=
  map (deref (heap s)) (conversationHistory (manager s)).

End StoredValues.

(** ** Provider adapters: parsing a response *)

(** Errors of the runtime are identified by their name. *)
Definition TypeError : string := "TypeError".

(** [Result] as a monad: a thrown error ends the computation. *)
#[global] Instance Result_ret : MRet Result := fun _ a => Ok a.

#[global] Instance Result_bind : MBind Result := fun _ _ f r =>
  match r with
  | Ok a => f a
  | Threw message => Threw message
  end.

(** A loop whose body may throw. *)
Fixpoint foldM {A B : Type} (f : B → A → Result B) (l : list A) (b : B) : Result B :=
  match l with
  | [] => Ok b
  | x :: rest => b' ← f b x; foldM f rest b'
  end.

(** The value of the first binding of [key]. *)
Fixpoint js_field (key : string) (fields : list (string * jsval)) : option jsval :=
  match fields with
  | [] => None
  | (k, v) :: rest => if String.eqb k key then Some v else js_field key rest
  end.

(** [v.key] for a [v] other than [undefined] and [null], and [v?.key] for
    every [v]; [key] is one of the property names the adapters read, none of
    which a prototype defines. *)
Definition js_prop (v : jsval) (key : string) : jsval :=
  match v with
  | JObj fields => default JUndefined (js_field key fields)
  | _ => JUndefined
  end.

(** [v.key] *)
Definition js_get (v : jsval) (key : string) : Result jsval :=
  match v with
  | JUndefined | JNull => Threw TypeError
  | _ => Ok (js_prop v key)
  end.

(** [v[i]] *)
Definition js_at (v : jsval) (i : nat) : Result jsval :=
  match v with
  | JUndefined | JNull => Threw TypeError
  | JArr items => Ok (default JUndefined (items !! i))
  | JStr s => Ok match String.get i s with
                 | Some c => JStr (String c EmptyString)
                 | None => JUndefined
                 end
  | JObj fields => Ok (default JUndefined (js_field (string_of_nat i) fields))
  | JBool _ | JNum _ => Ok JUndefined
  end.

(** The values [for (const x of v)] visits. *)
Definition js_iterate (v : jsval) : Result (list jsval) :=
  match v with
  | JArr items => Ok items
  | JStr s => Ok (map (fun c => JStr (String c EmptyString)) (list_ascii_of_string s))
  | _ => Threw TypeError
  end.

(** [v || d] *)
Definition js_or (v d : jsval) : jsval := if truthy v then v else d.

(** [v === s] for a string literal [s] *)
Definition is_string (v : jsval) (s : string) : bool :=
  match v with
  | JStr x => String.eqb x s
  | _ => false
  end.

(** [s.trim()] *)
Definition trim (s : string) : string := trimEnd (skip_whitespace s).

(** [s.replace(pattern, '')] for a string [pattern] *)
Definition removeFirst (pattern s : string) : string :=
  match String.index 0 pattern s with
  | Some i =>
      substring 0 i s
      +:+ substring (i + String.length pattern)
                    (String.length s - (i + String.length pattern)) s
  | None => s
  end.

(** An element of [toolCalls] as an adapter builds it. *)
Record ParsedCall : Type := mkParsedCall {
  pc_id : jsval;
  pc_name : jsval;
  pc_arguments : jsval }.

(** The object [parseResponse] returns. *)
Record Parsed : Type := mkParsed {
  p_content : jsval;
  p_toolCalls : list ParsedCall;
  p_usage : jsval;
  p_raw : jsval }.

(** [result.content += v] *)
Definition appendContent (v : jsval) (result : Parsed) : Parsed :=
  mkParsed (JStr (js_String (p_content result) +:+ js_String v))
           (p_toolCalls result) (p_usage result) (p_raw result).

(** [result.toolCalls.push(call)] *)
Definition pushToolCall (call : ParsedCall) (result : Parsed) : Parsed :=
  mkParsed (p_content result) (p_toolCalls result ++ [call]) (p_usage result)
           (p_raw result).

(** The name of a role, as the field [role] holds it. *)
Definition roleName (r : Role) : string :=
  match r with
  | system => "system"
  | user => "user"
  | assistant => "assistant"
  end.

(** A string, or [undefined] for [None]. *)
Definition js_ostring (o : option string) : jsval :=
  match o with
  | Some s => JStr s
  | None => JUndefined
  end.

(** [String(parts)] for an array of parts: each part is an object. *)
Definition partsToString (parts : list Block) : string :=
  String.concat "," (map (fun _ => "[object Object]") parts).

(** The loop over the parts of a user message of the OpenAI and Ollama
    adapters: a message of role 'tool' for each tool result. *)
Definition toolRoleMessages (parts : list Block) : list jsval :=
  omap (fun part =>
          match part with
          | ToolResult tool_use_id content _ _ =>
              Some (JObj [("role", JStr "tool"); ("content", JStr content);
                          ("tool_call_id", JStr tool_use_id)])
          | _ => None
          end) parts.

(** The assistant message the OpenAI and Ollama adapters build from
    [textContent] and [toolCalls]. *)
Definition assistantRoleMessage (textContent : string) (toolCalls : list jsval) : jsval :=
  JObj ([("role", JStr "assistant");
         ("content", if truthy_str textContent then JStr textContent else JNull)]
        ++ match toolCalls with
           | [] => []
           | _ :: _ => [("tool_calls", JArr toolCalls)]
           end).

(** [AIProvider.estimateTokens(text)]: [Math.ceil(text.length / 4)] *)
Definition estimateTextTokens (text : string) : Z :=
  let n := Z.of_nat (String.length text) in
  n / 4 + (if n mod 4 =? 0 then 0 else 1).

Module ClaudeProvider.

(** The body of the loop over [response.content]. *)
Definition contentStep (result : Parsed) (content : jsval) : Result Parsed :=
  type ← js_get content "type";
  if is_string type "text" then
    text ← js_get content "text";
    mret (appendContent text result)
  else if is_string type "tool_use" then
    id ← js_get content "id";
    name ← js_get content "name";
    input ← js_get content "input";
    mret (pushToolCall (mkParsedCall id name input) result)
  else mret result.

Definition parseResponse (response : jsval) : Result Parsed :=
  usage ← js_get response "usage";
  let result := mkParsed (JStr "") [] (js_or usage (JObj [])) response in
  contents ← js_get response "content";
  items ← js_iterate contents;
  foldM contentStep items result.

End ClaudeProvider.

Module OpenAIProvider.

Section Runtime.

(** [JSON.parse(v)] *)
Variable JSON_parse : jsval → Result jsval.

(** The function mapped over [message.tool_calls]. *)
Definition toolCallOf (tc : jsval) : Result ParsedCall :=
  id ← js_get tc "id";
  fn ← js_get tc "function";
  name ← js_get fn "name";
  arguments ← js_get fn "arguments";
  parsed ← JSON_parse arguments;
  mret (mkParsedCall id name parsed).

Definition parseResponse (response : jsval) : Result Parsed :=
  choices ← js_get response "choices";
  first ← js_at choices 0;
  message ← js_get first "message";
  content ← js_get message "content";
  usage ← js_get response "usage";
  let usage :=
    if truthy usage
    then JObj [("input_tokens", js_prop usage "prompt_tokens");
               ("output_tokens", js_prop usage "completion_tokens");
               ("total_tokens", js_prop usage "total_tokens")]
    else JObj [] in
  tool_calls ← js_get message "tool_calls";
  toolCalls ← (if truthy tool_calls then
                 match tool_calls with
                 | JArr items => mapM toolCallOf items
                 | _ => Threw TypeError
                 end
               else mret []);
  mret (mkParsed (js_or content (JStr "")) toolCalls usage response).

End Runtime.

Section Requests.

(** [JSON.stringify(v)]; [None] is [undefined]. *)
Variable JSON_stringify : jsval → option string.

(** [JSON.stringify(parts)] for the parts of a message. *)
Variable stringifyParts : list Block → string.

(** The body of the loop over the parts of an assistant message. *)
Definition partStep (acc : string * list jsval) (part : Block) : string * list jsval :=
  let '(textContent, toolCalls) := acc in
  match part with
  | TextBlock text _ => (text, toolCalls)
  | ToolUse id name input =>
      (textContent,
       toolCalls ++ [JObj [("id", JStr id); ("type", JStr "function");
                           ("function", JObj [("name", JStr name);
                                              ("arguments",
                                               js_ostring (JSON_stringify input))])]])
  | ToolResult _ _ _ _ => acc
  end.

(** The body of the loop of [formatMessages]: what is pushed for [msg]. *)
Definition formatMessage (isO1Model : bool) (msg : Message) : list jsval :=
  match role msg, content msg with
  | user, Blocks parts => toolRoleMessages parts
  | assistant, Blocks parts =>
      let '(textContent, toolCalls) := fold_left partStep parts ("", []) in
      [assistantRoleMessage textContent toolCalls]
  | system, c =>
      if isO1Model then
        [JObj [("role", JStr "user");
               ("content", JStr ("System instructions: "
                                 +:+ match c with
                                     | Text s => s
                                     | Blocks parts => partsToString parts
                                     end))]]
      else
        [JObj [("role", JStr "system");
               ("content", JStr match c with
                                | Text s => s
                                | Blocks parts => stringifyParts parts
                                end)]]
  | r, c =>
      [JObj [("role", JStr (roleName r));
             ("content", JStr match c with
                              | Text s => s
                              | Blocks parts => stringifyParts parts
                              end)]]
  end.

Definition formatMessages (messages : list Message) (model : option string)
  : list jsval :=
  let isO1Model := match model with
                   | Some m => truthy_str m && String.prefix "o1" m
                   | None => false
                   end in
  fold_left (fun formatted msg => formatted ++ formatMessage isO1Model msg) messages [].

End Requests.

End OpenAIProvider.

Module GeminiProvider.

Section Runtime.

(** The [k]-th id [crypto.randomUUID()] returns during the call. *)
Variable randomUUID : nat → string.

(** The body of the loop over [candidate.content.parts]. *)
Definition partStep (result : Parsed) (part : jsval) : Result Parsed :=
  text ← js_get part "text";
  if truthy text then mret (appendContent text result)
  else
    let functionCall := js_prop part "functionCall" in
    if truthy functionCall then
      mret (pushToolCall
              (mkParsedCall (JStr (randomUUID (length (p_toolCalls result))))
                            (js_prop functionCall "name")
                            (js_prop functionCall "args"))
              result)
    else mret result.

Definition parseResponse (response : jsval) : Result Parsed :=
  let result := mkParsed (JStr "") [] (JObj []) response in
  candidates ← js_get response "candidates";
  first ← (if truthy candidates then js_at candidates 0 else mret candidates);
  result ← (if truthy first then
              let candidate := first in
              let content := js_prop candidate "content" in
              if truthy content && truthy (js_prop content "parts") then
                parts ← js_iterate (js_prop content "parts");
                foldM partStep parts result
              else mret result
            else mret result);
  let usageMetadata := js_prop response "usageMetadata" in
  mret (if truthy usageMetadata
        then mkParsed (p_content result) (p_toolCalls result)
               (JObj [("input_tokens", js_prop usageMetadata "promptTokenCount");
                      ("output_tokens", js_prop usageMetadata "candidatesTokenCount");
                      ("total_tokens", js_prop usageMetadata "totalTokenCount")])
               (p_raw result)
        else result).

End Runtime.

(** The function mapped over the parts of a user message. *)
Definition userPart (c : Block) : jsval :=
  match c with
  | ToolResult _ content _ _ =>
      JObj [("functionResponse",
             JObj [("name", JStr "unknown");
                   ("response", JObj [("content", JStr content)])])]
  | TextBlock _ _ | ToolUse _ _ _ => JObj [("text", JUndefined)]
  end.

(** The loop over the parts of an assistant message. *)
Definition modelParts (parts : list Block) : list jsval :=
  omap (fun c =>
          match c with
          | TextBlock text _ => Some (JObj [("text", JStr text)])
          | ToolUse _ name input =>
              Some (JObj [("functionCall", JObj [("name", JStr name); ("args", input)])])
          | ToolResult _ _ _ _ => None
          end) parts.

(** The body of the loop of [formatMessages]: what is pushed for [msg]. *)
Definition formatMessage (msg : Message) : jsval :=
  match role msg, content msg with
  | user, Blocks parts =>
      JObj [("role", JStr "user"); ("parts", JArr (map userPart parts))]
  | user, Text s =>
      JObj [("role", JStr "user"); ("parts", JArr [JObj [("text", JStr s)]])]
  | assistant, Blocks parts =>
      JObj [("role", JStr "model"); ("parts", JArr (modelParts parts))]
  | assistant, Text s =>
      JObj [("role", JStr "model"); ("parts", JArr [JObj [("text", JStr s)]])]
  | system, c =>
      JObj [("role", JStr "user");
            ("parts", JArr [JObj [("text", JStr ("System: "
                                               +:+ match c with
                                                   | Text s => s
                                                   | Blocks parts => partsToString parts
                                                   end))]])]
  end.

Definition formatMessages (messages : list Message) : list jsval :=
  fold_left (fun contents msg => contents ++ [formatMessage msg]) messages [].

End GeminiProvider.

Module OllamaProvider.

(** [s.match(/<tools>(.*?)close/s)]: the match and its group.  The match
    starts at the first "<tools>" and ends with the nearest [close] behind
    it. *)
Definition matchTools (close s : string) : option (string * string) :=
  p ← String.index 0 "<tools>" s;
  q ← String.index (p + 7) close s;
  Some (substring p (q + String.length close - p) s,
        substring (p + 7) (q - (p + 7)) s).

Section Runtime.

(** [JSON.parse(v)] *)
Variable JSON_parse : jsval → Result jsval.

(** The [k]-th id [crypto.randomUUID()] returns during the call. *)
Variable randomUUID : nat → string.

(** [a + b] *)
Variable js_plus : jsval → jsval → jsval.

(** [id || crypto.randomUUID()], with the number of ids drawn. *)
Definition idOr (id : jsval) (drawn : nat) : jsval * nat :=
  if truthy id then (id, drawn) else (JStr (randomUUID drawn), S drawn).

(** The function mapped over [response.message.tool_calls]. *)
Definition toolCallOf (tc : jsval) (drawn : nat) : Result (ParsedCall * nat) :=
  id ← js_get tc "id";
  let '(id, drawn) := idOr id drawn in
  let fn := js_prop tc "function" in
  let name := js_or (js_prop fn "name") (js_prop tc "name") in
  arguments ← (if truthy (js_prop fn "arguments") then
                 match js_prop fn "arguments" with
                 | JStr _ => JSON_parse (js_prop fn "arguments")
                 | _ => mret (js_prop fn "arguments")
                 end
               else mret (js_or (js_prop tc "arguments") (JObj [])));
  mret (mkParsedCall id name arguments, drawn).

(** The function mapped over the tools found in the content. *)
Definition toolOf (tool : jsval) (drawn : nat) : Result (ParsedCall * nat) :=
  id ← js_get tool "id";
  let '(id, drawn) := idOr id drawn in
  mret (mkParsedCall id
          (js_or (js_prop tool "name") (js_or (js_prop tool "function") (JStr "unknown")))
          (js_or (js_prop tool "arguments")
                 (js_or (js_prop tool "parameters")
                        (js_or (js_prop tool "input") (JObj [])))),
        drawn).

(** [items.map(f)] for an [f] that draws ids. *)
Fixpoint mapCalls (f : jsval → nat → Result (ParsedCall * nat)) (items : list jsval)
    (drawn : nat) : Result (list ParsedCall) :=
  match items with
  | [] => mret []
  | item :: rest =>
      '(call, drawn) ← f item drawn;
      calls ← mapCalls f rest drawn;
      mret (call :: calls)
  end.

(** The tool calls written into the text [content]: the new content and the
    calls, or the content as it is when there is no match or the [try] block
    fails. *)
Definition toolsInContent (content : string) : jsval * list ParsedCall :=
  let toolsMatch := match matchTools "</tool_call>" content with
                    | Some found => Some found
                    | None => matchTools "</tools>" content
                    end in
  match toolsMatch with
  | Some (whole, group) =>
      let attempt :=
        toolsJson ← JSON_parse (JStr (trim group));
        let tools := match toolsJson with
                     | JArr items => items
                     | _ => [toolsJson]
                     end in
        mapCalls toolOf tools 0 in
      match attempt with
      | Ok calls => (JStr (trim (removeFirst whole content)), calls)
      | Threw _ => (JStr content, [])
      end
  | None => (JStr content, [])
  end.

Definition parseResponse (response : jsval) : Result Parsed :=
  message ← js_get response "message";
  '(content, toolCalls) ←
    (if truthy message then
       let content := js_or (js_prop message "content") (JStr "") in
       match js_prop message "tool_calls" with
       | JArr items =>
           calls ← mapCalls toolCallOf items 0;
           mret (content, calls)
       | _ =>
           if truthy content then
             match content with
             | JStr text => mret (toolsInContent text)
             | _ => Threw TypeError
             end
           else mret (content, [])
       end
     else mret (JStr "", []));
  let prompt_eval_count := js_prop response "prompt_eval_count" in
  let eval_count := js_prop response "eval_count" in
  mret (mkParsed content toolCalls
          (if truthy prompt_eval_count || truthy eval_count
           then JObj [("input_tokens", js_or prompt_eval_count (JNum 0));
                      ("output_tokens", js_or eval_count (JNum 0));
                      ("total_tokens", js_plus (js_or prompt_eval_count (JNum 0))
                                               (js_or eval_count (JNum 0)))]
           else JObj [])
          response).

End Runtime.

Section Requests.

(** [JSON.parse(v)] *)
Variable JSON_parse : jsval → Result jsval.

(** [JSON.stringify(parts)] for the parts of a message. *)
Variable stringifyParts : list Block → string.

(** The body of the loop over the parts of an assistant message. *)
Definition partStep (acc : string * list jsval) (part : Block)
  : Result (string * list jsval) :=
  let '(textContent, toolCalls) := acc in
  match part with
  | TextBlock text _ => mret (text, toolCalls)
  | ToolUse id name input =>
      args ← match input with
             | JStr _ => JSON_parse input
             | _ => mret input
             end;
      mret (textContent,
            toolCalls ++ [JObj [("id", JStr id); ("type", JStr "function");
                                ("function", JObj [("name", JStr name);
                                                   ("arguments", args)])]])
  | ToolResult _ _ _ _ => mret acc
  end.

(** The body of the loop of [formatMessages]: what is pushed for [msg]. *)
Definition formatMessage (msg : Message) : Result (list jsval) :=
  match role msg, content msg with
  | user, Blocks parts => mret (toolRoleMessages parts)
  | assistant, Blocks parts =>
      '(textContent, toolCalls) ← foldM partStep parts ("", []);
      mret [assistantRoleMessage textContent toolCalls]
  | r, c =>
      mret [JObj [("role", JStr (roleName r));
                  ("content", JStr match c with
                                   | Text s => s
                                   | Blocks parts => stringifyParts parts
                                   end)]]
  end.

Definition formatMessages (messages : list Message) : Result (list jsval) :=
  foldM (fun formatted msg => pushed ← formatMessage msg; mret (formatted ++ pushed))
        messages [].

End Requests.

End OllamaProvider.

(** A response the four adapters are given. *)
Definition emptyObject : jsval := JObj [].

(** What [parseResponse] should make of a response without content: no
    text, no tool calls. *)
Definition isEmptyResult (result : Result Parsed) : Prop :=
  ∃ usage raw, result = Ok (mkParsed (JStr "") [] usage raw).

(** ** Operations on the history *)

(** The ids [n] successive increments of the counter hand out. *)
Fixpoint freshIds (counter : Z) (n : nat) : list Z :=
  match n with
  | O => []
  | S n => (counter + 1) :: freshIds (counter + 1) n
  end.

Section Operations.

Context {World : Type}.
Variable JSON_stringify : jsval → option string.

Abbreviation State := (@State World).
Abbreviation Options := (@Options World).

(** The operations of the orchestrator that read or change the history. *)
Inductive Operation : Type :=
| AddMessage (r : Role) (c : Content)
| SendMessage (userMessage : string) (options : Options)
| GetHistoryView (minimize : bool) (limit : Z)
| GetHistory
| ClearHistory.

(** What an operation leaves. *)
Definition perform (op : Operation) (s : State) : State :=
  match op with
  | AddMessage r c => (addMessage r c s).2
  | SendMessage userMessage options => (sendMessage JSON_stringify userMessage options s).2
  | GetHistoryView minimize limit =>
      set_heap (getHistoryView (conversationHistory (manager s)) minimize limit (heap s)).2 s
  | GetHistory => s
  | ClearHistory => set_manager (clearHistory (manager s)) s
  end.

Definition isClear (op : Operation) : bool :=
  match op with
  | ClearHistory => true
  | _ => false
  end.

(** The stored messages carry numeric ids, each smaller than every later
    one and none above the id counter. *)
Definition idsInOrder (s : State) : Prop :=
  ∃ ns : list Z,
    map _id (historyValues s) = map IdNum ns ∧
    StronglySorted Z.lt ns ∧
    Forall (fun n => n ≤ messageIdCounter (manager s)) ns.

(** The messages [getHistoryView] returns in state [s]. *)
Definition viewOfState (minimize : bool) (limit : Z) (s : State) : list Message :=
  let view := getHistoryView (conversationHistory (manager s)) minimize limit (heap s) in
  map (deref view.2) view.1.

End Operations.

(** ** Notions used in the further properties *)

(** A message the minimized view takes over as it is: its content is a
    string, or it is a user or system message whose parts do not start with
    a tool result. *)
Definition isPlainMessage (m : Message) : bool :=
  negb (isAssistantBlocks m) && negb (isToolResultFirst m).

(** The number of user messages with string content. *)
Definition countUserTexts (messages : list Message) : nat :=
  length (List.filter isUserText messages).

Section CountedIds.

Context {World : Type}.

(** The stored message [m] has a numeric id not above the counter. *)
Definition hasCountedId (s : @State World) (m : Message) : Prop :=
  ∃ n, _id m = IdNum n ∧ n ≤ messageIdCounter (manager s).

End CountedIds.

(** A history as a saved chat restores it: ids missing, out of order and
    given as strings. *)
Definition restoredHistory : Heap :=
  [ mkMessage (IdNum 5) user (Text "first") None None None None;
    mkMessage IdAbsent assistant (Text "second") None None None None;
    mkMessage (IdStr "3") user (Text "third") None None None None ].

Definition restored : @State Stubs.Calls :=
  mkState (set_history [0; 1; 2]%nat Stubs.managerP) restoredHistory 0%nat [].

(** The names a batch summary lists for the metas whose error flag is
    [failed]: the truthy ones, in order. *)
Definition summaryNames (failed : bool) (metas : list ToolMeta) : list string :=
  flat_map (fun meta => if bool_decide (default false (tm_isError meta) = failed)
                                 && truthy_ostr (tm_name meta)
                        then [default "" (tm_name meta)] else [])
           metas.

Definition countFailed (failed : bool) (metas : list ToolMeta) : nat :=
  length (List.filter (fun meta => bool_decide (default false (tm_isError meta) = failed))
                      metas).

(** The tool calls of a turn as the result of [sendMessage] lists them, each
    with the id of the assistant message of the turn. *)
Definition turnCalls (t : Turn) : list (ToolCall * MsgId) :=
  map (fun call => (call, IdNum (turn_counter t + 1))) (r_toolCalls (turn_response t)).

(** The entries recorded in a turn, each with the id of the tool-result
    message of the turn. *)
Definition turnResults (t : Turn) : list (ToolOutcome * MsgId) :=
  map (fun result => (result, IdNum (turn_counter t + 2))) (turn_results t).

(** The response the loop holds after a turn. *)
Definition turnResponse (t : Turn) : ExchangeResult :=
  responseResult (turn_response t) (Some (IdNum (turn_counter t + 1)))
                 (Some (IdNum (turn_counter t + 2))).

(** The response the loop holds after the final answer, stored under the id
    after [counter] when it has text. *)
Definition answerResponse (counter : Z) (response : Response) : ExchangeResult :=
  responseResult response
    (if truthy_str (r_content response) then Some (IdNum (counter + 1)) else None) None.

Section LoopOutcomes.

Context {World : Type}.

Abbreviation State := (@State World).
Abbreviation UniversalTool := (@UniversalTool World).
Abbreviation AIProvider := (@AIProvider World).
Abbreviation Options := (@Options World).

(** How the variables of the loop stand when it is left after [turns] and
    [ending], having been entered with [v]. *)
Definition loopOutcome (provider : AIProvider) (options : Options)
    (availableTools : list UniversalTool) (rounds : nat) (counter : Z)
    (outbound : list Message) (v : LoopVars) (turns : list Turn) (ending : Ending)
    (result : Result LoopVars) : Prop :=
  let aggregated (v' : LoopVars) :=
    lv_allToolCalls v' = lv_allToolCalls v ++ flat_map turnCalls turns ∧
    lv_allToolResults v' = lv_allToolResults v ++ flat_map turnResults turns in
  match ending, result with
  | Rejected, Threw message =>
      ∃ w w', callAPI provider (outbound ++ flat_map turnMessages turns) availableTools
                      (providerOptionsOf options) w = (Threw message, w')
  | Answered response, Ok v' =>
      continueProcessing v' = false ∧
      finalResponse v'
      = Some (answerResponse (counter + 2 * Z.of_nat (length turns)) response) ∧
      aggregated v'
  | Paused, Ok v' =>
      continueProcessing v' = true ∧
      iterations v' = iterations v + Z.of_nat rounds ∧
      finalResponse v' = match last turns with
                         | Some t => Some (turnResponse t)
                         | None => finalResponse v
                         end ∧
      aggregated v'
  | _, _ => False
  end.

End LoopOutcomes.

(** The result [sendMessage] returns after the final answer [response],
    given after [turns]. *)
Definition answeredResult (counter : Z) (turns : list Turn) (response : Response)
  : ExchangeResult :=
  mkExchangeResult (r_content response) (r_toolCalls response) (r_usage response)
    (if truthy_str (r_content response)
     then Some (IdNum (counter + 2 * Z.of_nat (length turns) + 1)) else None)
    None false None None
    (flat_map turnCalls turns) (flat_map turnResults turns).

(** The result [sendMessage] returns when the budget ends after [turns]. *)
Definition pausedResult (MAX : Z) (turns : list Turn) : ExchangeResult :=
  let r := match last turns with
           | Some t => turnResponse t
           | None => mkExchangeResult "" [] JUndefined None None false None None [] []
           end in
  mkExchangeResult
    (if truthy_str (x_content r) then x_content r else limitNotice MAX)
    (x_toolCalls r) (x_usage r) (assistantMessageId r) (toolResultMessageId r)
    true (Some (Z.max 0 MAX)) (Some MAX)
    (flat_map turnCalls turns) (flat_map turnResults turns).

Section SendMessageRun.

Context {World : Type}.
Variable JSON_stringify : jsval → option string.

Abbreviation State := (@State World).
Abbreviation UniversalTool := (@UniversalTool World).
Abbreviation AIProvider := (@AIProvider World).
Abbreviation Options := (@Options World).

(** What [sendMessage] returns, by how the loop ended. *)
Definition resultOf (provider : AIProvider) (options : Options)
    (availableTools : list UniversalTool) (MAX counter : Z) (outbound : list Message)
    (turns : list Turn) (ending : Ending) (result : Result ExchangeResult) : Prop :=
  match ending with
  | Rejected =>
      ∃ message w w',
        result = Threw message ∧
        callAPI provider (outbound ++ flat_map turnMessages turns) availableTools
                (providerOptionsOf options) w = (Threw message, w')
  | Answered response => result = Ok (answeredResult counter turns response)
  | Paused => result = Ok (pausedResult MAX turns)
  end.

(** The handler calls [sendMessage] makes before the loop. *)
Definition summaryEvents (userMessage : string) (options : Options) (s : State)
  : list Event :=
  if negb (isContinuationMarker userMessage)
     && bool_decide (is_Some (findLatestUserTextMessageIndex
                                (outboundValues JSON_stringify userMessage options s)))
  then codeSummaryEvents s else [].

End SendMessageRun.

(** A provider that rejects every call with [message]. *)
Definition rejecting (message : string) : @AIProvider Stubs.Calls :=
  Stubs.scripted (fun _ => Threw message).

Definition managerRejecting (message : string) : @AIManager Stubs.Calls :=
  registerTool "echo" "returns its argument" JNull Stubs.echo "general"
    (registerProvider "P" (rejecting message) newAIManager).

(** [v] is [undefined] or [null]. *)
Definition nullish (v : jsval) : bool :=
  match v with
  | JUndefined | JNull => true
  | _ => false
  end.

(** The text of the parts of a Claude response: the [text] of the parts of
    type "text", in order. *)
Fixpoint textOfParts (items : list jsval) : string :=
  match items with
  | [] => ""
  | item :: rest =>
      if is_string (js_prop item "type") "text"
      then js_String (js_prop item "text") +:+ textOfParts rest
      else textOfParts rest
  end.

(** The tool calls of the parts of a Claude response: one for each part of
    type "tool_use", in order. *)
Definition toolUsesOfParts (items : list jsval) : list ParsedCall :=
  omap (fun item =>
          if is_string (js_prop item "type") "tool_use"
          then Some (mkParsedCall (js_prop item "id") (js_prop item "name")
                                  (js_prop item "input"))
          else None) items.

(** The text of the parts of a Gemini candidate: the [text] of the parts
    that have one, in order. *)
Fixpoint textOfGeminiParts (parts : list jsval) : string :=
  match parts with
  | [] => ""
  | part :: rest =>
      if truthy (js_prop part "text")
      then js_String (js_prop part "text") +:+ textOfGeminiParts rest
      else textOfGeminiParts rest
  end.

(** The function calls of the parts of a Gemini candidate: those of the
    parts without text. *)
Definition functionCallsOfParts (parts : list jsval) : list jsval :=
  omap (fun part =>
          if negb (truthy (js_prop part "text")) && truthy (js_prop part "functionCall")
          then Some (js_prop part "functionCall")
          else None) parts.

(** The tool calls made of function calls, the [k]-th one under the id
    drawn after [drawn + k] others. *)
Fixpoint numberedCalls (randomUUID : nat → string) (drawn : nat)
    (functionCalls : list jsval) : list ParsedCall :=
  match functionCalls with
  | [] => []
  | functionCall :: rest =>
      mkParsedCall (JStr (randomUUID drawn)) (js_prop functionCall "name")
                   (js_prop functionCall "args")
      :: numberedCalls randomUUID (S drawn) rest
  end.

(** The usage a Gemini response reports. *)
Definition geminiUsage (response : jsval) : jsval :=
  let usageMetadata := js_prop response "usageMetadata" in
  if truthy usageMetadata
  then JObj [("input_tokens", js_prop usageMetadata "promptTokenCount");
             ("output_tokens", js_prop usageMetadata "candidatesTokenCount");
             ("total_tokens", js_prop usageMetadata "totalTokenCount")]
  else JObj [].

(** The usage an Ollama response reports. *)
Definition ollamaUsage (js_plus : jsval → jsval → jsval) (response : jsval) : jsval :=
  let prompt_eval_count := js_prop response "prompt_eval_count" in
  let eval_count := js_prop response "eval_count" in
  if truthy prompt_eval_count || truthy eval_count
  then JObj [("input_tokens", js_or prompt_eval_count (JNum 0));
             ("output_tokens", js_or eval_count (JNum 0));
             ("total_tokens", js_plus (js_or prompt_eval_count (JNum 0))
                                      (js_or eval_count (JNum 0)))]
  else JObj [].

(** The parts of a Claude response with two text parts around a part of
    another type and a tool use. *)
Definition claudeParts : list jsval :=
  [JObj [("type", JStr "text"); ("text", JStr "Let me ")];
   JObj [("type", JStr "thinking")];
   JObj [("type", JStr "tool_use"); ("id", JStr "t1"); ("name", JStr "echo");
         ("input", JStr "hi")];
   JObj [("type", JStr "text"); ("text", JStr "check.")]].

(** [tc.function.arguments] *)
Definition argumentsOf (tc : jsval) : jsval :=
  js_prop (js_prop tc "function") "arguments".

(** A tool call of an OpenAI response that has a [function]. *)
Definition hasFunction (tc : jsval) : bool :=
  negb (nullish tc) && negb (nullish (js_prop tc "function")).

(** The call made of a tool call of an OpenAI response and its parsed
    arguments. *)
Definition parsedCallOf (tc parsed : jsval) : ParsedCall :=
  mkParsedCall (js_prop tc "id") (js_prop (js_prop tc "function") "name") parsed.

(** The usage an OpenAI response reports. *)
Definition openAIUsage (response : jsval) : jsval :=
  let usage := js_prop response "usage" in
  if truthy usage
  then JObj [("input_tokens", js_prop usage "prompt_tokens");
             ("output_tokens", js_prop usage "completion_tokens");
             ("total_tokens", js_prop usage "total_tokens")]
  else JObj [].

(** A [JSON.parse] that knows the text of the empty object only. *)
Definition parseEmptyObject (v : jsval) : Result jsval :=
  match v with
  | JStr "{}" => Ok (JObj [])
  | _ => Threw "SyntaxError"
  end.

(** An OpenAI tool call with the arguments [arguments]. *)
Definition openAICall (id arguments : string) : jsval :=
  JObj [("id", JStr id);
        ("function", JObj [("name", JStr "echo"); ("arguments", JStr arguments)])].

(** An OpenAI response with the text [text] and the tool calls
    [tool_calls]. *)
Definition openAIResponse (text : string) (tool_calls : list jsval)
  : list (string * jsval) :=
  [("choices", JArr [JObj [("message", JObj [("content", JStr text);
                                             ("tool_calls", JArr tool_calls)])]])].

(** The parts of a Gemini candidate: a text, a function call, and a part
    with both. *)
Definition geminiParts : list jsval :=
  [JObj [("text", JStr "On it.")];
   JObj [("functionCall", JObj [("name", JStr "echo"); ("args", JStr "hi")])];
   JObj [("text", JStr " Done."); ("functionCall", JObj [("name", JStr "lost")])]].

Definition geminiResponse : list (string * jsval) :=
  [("candidates", JArr [JObj [("content", JObj [("parts", JArr geminiParts)])]])].

(** What the Ollama adapter finds in the text of a message: the first
    "<tools>" closed by "</tool_call>" or, when there is none, by
    "</tools>". *)
Definition toolsMatch (text : string) : option (string * string) :=
  match OllamaProvider.matchTools "</tool_call>" text with
  | Some found => Some found
  | None => OllamaProvider.matchTools "</tools>" text
  end.

(** An Ollama response with the text [text]. *)
Definition ollamaResponse (text : string) : list (string * jsval) :=
  [("message", JObj [("role", JStr "assistant"); ("content", JStr text)])].

(** The tool call the OpenAI adapter sends for [call]. *)
Definition openAIToolCall (JSON_stringify : jsval → option string) (call : ToolCall)
  : jsval :=
  JObj [("id", JStr (call_id call)); ("type", JStr "function");
        ("function", JObj [("name", JStr (call_name call));
                           ("arguments",
                            js_ostring (JSON_stringify (call_arguments call)))])].

(** The message of role 'tool' sent for a recorded entry. *)
Definition toolRoleMessage (result : ToolOutcome) : jsval :=
  JObj [("role", JStr "tool"); ("content", JStr (js_String (out_result result)));
        ("tool_call_id", JStr (out_id result))].

(** The part the Gemini adapter sends for [call]. *)
Definition functionCallPart (call : ToolCall) : jsval :=
  JObj [("functionCall", JObj [("name", JStr (call_name call));
                               ("args", call_arguments call)])].

(** The part the Gemini adapter sends for a recorded entry. *)
Definition functionResponsePart (result : ToolOutcome) : jsval :=
  JObj [("functionResponse",
         JObj [("name", JStr "unknown");
               ("response", JObj [("content", JStr (js_String (out_result result)))])])].

Definition isTextPart (part : Block) : bool :=
  match part with
  | TextBlock _ _ => true
  | _ => false
  end.

(** The string inputs of the tool uses of [msg], which the Ollama adapter
    passes to [JSON.parse]. *)
Definition stringInputs (msg : Message) : list string :=
  match role msg, content msg with
  | assistant, Blocks parts =>
      omap (fun part => match part with
                        | ToolUse _ _ (JStr s) => Some s
                        | _ => None
                        end) parts
  | _, _ => []
  end.

(** A turn of the stub orchestrator: a call of [echo] on "hi". *)
Definition echoTurn : Turn :=
  mkTurn [] 1 (Stubs.callTool "call_0" "echo" (JStr "hi"))
         [mkToolOutcome "call_0" (JStr "hi") false].

Section TokenEstimate.

Context {World : Type}.

(** [JSON.stringify(parts)] for the parts of a message. *)
Variable stringifyParts : list Block → string.

(** [typeof msg.content === 'string' ? msg.content : JSON.stringify(msg.content)] *)
Definition contentText (c : Content) : string :=
  match c with
  | Text text => text
  | Blocks parts => stringifyParts parts
  end.

(** [AIManager.estimateTokens()]; without a provider the call of
    [provider.estimateTokens] is a [TypeError]. *)
Definition estimateTokens (s : @State World) : Result Z :=
  let provider := getProvider (manager s) in
  foldM (fun total l =>
           let msg := deref (heap s) l in
           let content := contentText (content msg) in
           match provider with
           | Some _ => mret (total + estimateTextTokens content)
           | None => Threw TypeError
           end)
        (conversationHistory (manager s)) 0.

End TokenEstimate.

(** The sum of a list of numbers. *)
Definition sumOf (l : list Z) : Z := fold_right Z.add 0 l.

(** The stub orchestrator with a system prompt. *)
Definition managerPrompted : @AIManager Stubs.Calls :=
  setSystemPrompt (Some "Be brief.") Stubs.managerP.

(** * Properties *)

(** ** The heap *)

Lemma deref_alloc_old (h ext : Heap) (l : loc) :
  (l < length h)%nat → deref (h ++ ext) l = deref h l.
Proof. intros Hl. unfold deref. by apply lookup_total_app_l. Qed.

Lemma deref_alloc_new (h : Heap) (m : Message) : deref (h ++ [m]) (length h) = m.
Proof. unfold deref. by apply list_lookup_total_middle. Qed.

Lemma deref_store_eq (h : Heap) (l : loc) (m : Message) :
  (l < length h)%nat → deref (store l m h) l = m.
Proof. intros Hl. unfold deref, store. by apply list_lookup_total_insert_eq. Qed.

Lemma deref_store_ne (h : Heap) (l l' : loc) (m : Message) :
  l ≠ l' → deref (store l m h) l' = deref h l'.
Proof. intros Hl. unfold deref, store. by apply list_lookup_total_insert_ne. Qed.

Lemma length_store (h : Heap) (l : loc) (m : Message) :
  length (store l m h) = length h.
Proof. unfold store. apply length_insert. Qed.

Lemma preserves_refl (h : Heap) : preserves h h.
Proof. unfold preserves. apply firstn_all. Qed.

Lemma preserves_length (h h' : Heap) : preserves h h' → (length h ≤ length h')%nat.
Proof.
  unfold preserves. intros Hp.
  destruct (decide (length h ≤ length h')%nat) as [|Hn]; [done|].
  rewrite take_ge in Hp by lia. subst h'. lia.
Qed.

Lemma preserves_alloc (h h' : Heap) (m : Message) :
  preserves h h' → preserves h (h' ++ [m]).
Proof.
  intros Hp. pose proof (preserves_length _ _ Hp). unfold preserves in *.
  rewrite take_app_le by lia. done.
Qed.

Lemma preserves_store (h h' : Heap) (l : loc) (m : Message) :
  preserves h h' → (length h ≤ l)%nat → preserves h (store l m h').
Proof.
  unfold preserves, store. intros Hp Hl. by rewrite take_insert_ge.
Qed.

Lemma preserves_deref (h h' : Heap) (l : loc) :
  preserves h h' → (l < length h)%nat → deref h' l = deref h l.
Proof.
  unfold preserves. intros Hp Hl.
  rewrite <- (take_drop (length h) h'), Hp. by apply deref_alloc_old.
Qed.

Lemma preserves_trans (h1 h2 h3 : Heap) :
  preserves h1 h2 → preserves h2 h3 → preserves h1 h3.
Proof.
  intros H12 H23. pose proof (preserves_length _ _ H12).
  unfold preserves in *.
  rewrite <- H23 in H12. rewrite take_take in H12.
  by replace (length h1 `min` length h2)%nat with (length h1) in H12 by lia.
Qed.

Lemma preserves_map_deref (h h' : Heap) (ls : list loc) :
  preserves h h' → valid_locs h ls → map (deref h') ls = map (deref h) ls.
Proof.
  intros Hp Hv. induction Hv as [|l ls Hl _ IH]; simpl; [done|].
  rewrite IH. f_equal. by apply preserves_deref.
Qed.

(** ** The projection computes [viewValues] and writes to new objects only *)

Lemma viewInv_alloc (h0 : Heap) abridged h values (m : Message) :
  viewInv h0 (abridged, h) values → viewInv h0 (abridged, h ++ [m]) values.
Proof.
  intros (Hp & Hr & Hn & Hv). unfold viewInv in *; simpl in *.
  split_and!; [by apply preserves_alloc| |done|].
  - eapply Forall_impl; [exact Hr|]. intros l Hx. simpl in *. rewrite length_app. simpl. lia.
  - rewrite <- Hv. apply map_ext_in. intros l Hl.
    apply deref_alloc_old. rewrite Forall_forall in Hr.
    apply list_elem_of_In in Hl. specialize (Hr l Hl). simpl in Hr. lia.
Qed.

Lemma viewInv_store_other (h0 : Heap) abridged h values (p : loc) (m : Message) :
  viewInv h0 (abridged, h) values → p ∉ abridged → (length h0 ≤ p)%nat →
  viewInv h0 (abridged, store p m h) values.
Proof.
  intros (Hp & Hr & Hn & Hv) Hnot Hge. unfold viewInv in *; simpl in *.
  split_and!; [by apply preserves_store| |done|].
  - eapply Forall_impl; [exact Hr|]. intros l Hx. simpl in *. rewrite length_store. lia.
  - rewrite <- Hv. apply map_ext_in. intros l Hl.
    apply deref_store_ne. intros ->. apply Hnot. by apply list_elem_of_In.
Qed.

Lemma viewInv_push_at (h0 : Heap) abridged h values (t : loc) (m : Message) :
  viewInv h0 (abridged, h) values →
  t ∉ abridged → (length h0 ≤ t < length h)%nat →
  viewInv h0 (abridged ++ [t], store t m h) (values ++ [m]).
Proof.
  intros Hi Hnot Ht.
  destruct (viewInv_store_other h0 abridged h values t m Hi Hnot (proj1 Ht))
    as (Hp & Hr & Hn & Hv).
  unfold viewInv in *; simpl in *.
  split_and!; [done| | |].
  - apply Forall_app. split; [done|]. apply Forall_singleton.
    rewrite length_store. lia.
  - apply NoDup_app. split_and!; [done| |apply NoDup_singleton].
    intros x Hx Hx'. apply list_elem_of_singleton in Hx'. by subst.
  - rewrite map_app, Hv. simpl. by rewrite deref_store_eq by lia.
Qed.

Lemma viewInv_push (h0 : Heap) abridged h values (m : Message) :
  viewInv h0 (abridged, h) values →
  viewInv h0 (abridged ++ [length h], h ++ [m]) (values ++ [m]).
Proof.
  intros Hi.
  assert (Hfresh : length h ∉ abridged).
  { destruct Hi as (_ & Hr & _). simpl in Hr. rewrite Forall_forall in Hr.
    intros Hin. specialize (Hr _ Hin). simpl in Hr. lia. }
  assert (Hge : (length h0 ≤ length h)%nat).
  { destruct Hi as (Hp & _). by apply preserves_length. }
  pose proof (viewInv_alloc h0 abridged h values m Hi) as Hi'.
  pose proof (viewInv_push_at h0 abridged (h ++ [m]) values (length h) m Hi' Hfresh) as Hi''.
  unfold store in Hi''.
  rewrite list_insert_id in Hi''.
  - apply Hi''. rewrite length_app. simpl. lia.
  - by apply list_lookup_middle.
Qed.

Lemma viewInv_last (h0 : Heap) abridged h values :
  viewInv h0 (abridged, h) values → last values = deref h <$> last abridged.
Proof.
  intros (_ & _ & _ & Hv). simpl in Hv. subst values.
  destruct abridged as [|x abridged _] using rev_ind; [done|].
  rewrite map_app. simpl. by rewrite !last_snoc.
Qed.

Lemma viewInv_replace_last (h0 : Heap) abridged h values (p : loc) (m : Message) :
  viewInv h0 (abridged, h) values → last abridged = Some p →
  viewInv h0 (abridged, store p m h) (removelast values ++ [m]).
Proof.
  intros (Hp & Hr & Hn & Hv) Hlast. apply last_Some in Hlast as [pre ->].
  unfold viewInv in *; simpl in *.
  apply Forall_app in Hr as [Hr1 Hr2]. rewrite Forall_singleton in Hr2.
  apply NoDup_app in Hn as (Hn1 & Hn2 & _).
  split_and!.
  - apply preserves_store; [done|lia].
  - apply Forall_app. split.
    + eapply Forall_impl; [exact Hr1|]. intros l Hx. simpl in *. rewrite length_store. lia.
    + apply Forall_singleton. rewrite length_store. lia.
  - apply NoDup_app. split_and!; [done|done|apply NoDup_singleton].
  - subst values. rewrite !map_app. simpl. rewrite removelast_last.
    rewrite deref_store_eq by lia. f_equal.
    apply map_ext_in. intros l Hl. apply deref_store_ne.
    intros ->. apply (Hn2 l); [by apply list_elem_of_In|].
    by apply list_elem_of_singleton.
Qed.

Lemma viewStep_sim (h0 : Heap) toolInfo lastIdx lastIds abridged h values i l :
  viewInv h0 (abridged, h) values → (l < length h0)%nat →
  viewInv h0 (viewStep toolInfo lastIdx lastIds (abridged, h) (i, l))
             (viewStepValues toolInfo lastIdx lastIds values (i, deref h0 l)).
Proof.
  intros Hi Hl.
  assert (Hd : deref h l = deref h0 l).
  { destruct Hi as (Hp & _). by apply preserves_deref. }
  assert (Hfresh : length h ∉ abridged).
  { destruct Hi as (_ & Hr & _). simpl in Hr. rewrite Forall_forall in Hr.
    intros Hin. specialize (Hr _ Hin). simpl in Hr. lia. }
  assert (Hge : (length h0 ≤ length h)%nat).
  { destruct Hi as (Hp & _). by apply preserves_length. }
  unfold viewStep, viewStepValues, cloneMessage, alloc. rewrite Hd.
  set (msg := deref h0 l).
  case_bool_decide; [by apply viewInv_push|].
  destruct (role msg) eqn:Hrole, (content msg) as [s|parts] eqn:Hcontent;
    try (destruct (isToolResultFirst msg);
         [destruct (isLastToolResult lastIds msg)|];
         solve [by apply viewInv_push | done]).
  destruct (transformedMessage toolInfo msg parts) as [transformed summaryOnly].
  pose proof (viewInv_alloc h0 abridged h values msg Hi) as Hi1.
  assert (Hlen1 : (length h0 ≤ length h < length (h ++ [msg]))%nat).
  { rewrite length_app. simpl. lia. }
  pose proof (viewInv_store_other h0 abridged _ values (length h) transformed
                Hi1 Hfresh Hge) as Hi2.
  assert (Hpush :
    viewInv h0
      match finishTransformed transformed with
      | Some final => (abridged ++ [length h],
                       store (length h) final (store (length h) transformed (h ++ [msg])))
      | None => (abridged, store (length h) transformed (h ++ [msg]))
      end
      match finishTransformed transformed with
      | Some final => values ++ [final]
      | None => values
      end).
  { destruct (finishTransformed transformed) as [final|]; [|done].
    apply viewInv_push_at; [done|done|]. rewrite length_store. lia. }
  pose proof (viewInv_last _ _ _ _ Hi2) as Hlast.
  destruct summaryOnly as [summaryMeta|]; [|done].
  destruct (last abridged) as [p|] eqn:Hp; simpl in Hlast; rewrite Hlast; [|done].
  destruct (isSummaryOnly _); [|done].
  by apply viewInv_replace_last.
Qed.

Lemma viewInv_start (h : Heap) : viewInv h ([], h) [].
Proof.
  unfold viewInv; simpl. split_and!; [apply preserves_refl|done|apply NoDup_nil_2|done].
Qed.

Lemma viewFold_sim (h0 : Heap) toolInfo lastIdx lastIds (entries : list (nat * loc)) :
  Forall (fun e => (e.2 < length h0)%nat) entries →
  ∀ state values, viewInv h0 state values →
  viewInv h0 (fold_left (viewStep toolInfo lastIdx lastIds) entries state)
             (fold_left (viewStepValues toolInfo lastIdx lastIds)
                        (map (fun e => (e.1, deref h0 e.2)) entries) values).
Proof.
  induction 1 as [|[i l] entries Hl _ IH]; intros [abridged h] values Hi; simpl; [done|].
  apply IH. by apply viewStep_sim.
Qed.

Lemma cloneFold_sim (h0 : Heap) (history : list loc) :
  valid_locs h0 history →
  ∀ state values, viewInv h0 state values →
  viewInv h0
    (fold_left (fun '(view, h) l => let '(c, h') := cloneMessage l h in (view ++ [c], h'))
               history state)
    (values ++ map (deref h0) history).
Proof.
  induction 1 as [|l history Hl _ IH]; intros [view h] values Hi; simpl.
  - by rewrite app_nil_r.
  - replace (values ++ deref h0 l :: map (deref h0) history)
      with ((values ++ [deref h0 l]) ++ map (deref h0) history)
      by (by rewrite <- app_assoc).
    apply IH. unfold cloneMessage, alloc.
    replace (deref h l) with (deref h0 l).
    + by apply viewInv_push.
    + symmetry. destruct Hi as (Hp & _). by apply preserves_deref.
Qed.

Lemma indexed_map {A B} (f : A → B) (l : list A) :
  indexed (map f l) = map (fun e => (e.1, f e.2)) (indexed l).
Proof.
  unfold indexed. rewrite length_map. generalize 0%nat.
  induction l as [|x l IH]; intros k; simpl; [done|]. by rewrite IH.
Qed.

Lemma indexed_snd_Forall {A} (P : A → Prop) (l : list A) :
  Forall P l → Forall (fun e => P e.2) (indexed l).
Proof.
  unfold indexed. intros Hf. generalize 0%nat.
  induction Hf as [|x l Hx _ IH]; intros k; simpl; constructor; [done|apply IH].
Qed.

Lemma valid_locs_drop (h : Heap) (n : nat) (ls : list loc) :
  valid_locs h ls → valid_locs h (drop n ls).
Proof. apply Forall_drop. Qed.

Lemma historyWindow_valid (h : Heap) (limit : Z) (ch : list loc) :
  valid_locs h ch → valid_locs h (historyWindow h limit ch).
Proof.
  intros Hv. unfold historyWindow, sliceHistoryByUserMessages.
  repeat (case_match; try done; try by apply valid_locs_drop).
Qed.

(** The view returned by [getHistoryView] holds exactly [viewValues] of the
    values of the window, in objects created by the call. *)
Lemma getHistoryView_sim (ch : list loc) (minimize : bool) (limit : Z) (h : Heap) :
  valid_locs h ch →
  viewInv h (getHistoryView ch minimize limit h)
          (viewValues minimize (map (deref h) (historyWindow h limit ch))).
Proof.
  intros Hv. apply (historyWindow_valid h limit) in Hv.
  unfold getHistoryView, viewValues.
  destruct minimize; simpl.
  - rewrite indexed_map. apply viewFold_sim; [|apply viewInv_start].
    by apply (indexed_snd_Forall (fun l => (l < length h)%nat)).
  - apply (cloneFold_sim h _ Hv ([], h) []). apply viewInv_start.
Qed.

Lemma map_deref_pointwise (h h' : Heap) (ls : list loc) :
  map (deref h') ls = map (deref h) ls → ∀ l, l ∈ ls → deref h' l = deref h l.
Proof.
  induction ls as [|x ls IH]; simpl; intros Heq l Hl.
  - by apply elem_of_nil in Hl.
  - injection Heq as Hx Hrest. apply elem_of_cons in Hl as [->|Hl]; [done|by apply IH].
Qed.

Lemma historyWindow_sublist (h : Heap) (limit : Z) (ch : list loc) :
  ∀ l, l ∈ historyWindow h limit ch → l ∈ ch.
Proof.
  intros l. unfold historyWindow, sliceHistoryByUserMessages.
  repeat (case_match; try done); intros Hl; by eapply subseteq_drop.
Qed.

(** The window and its values depend on the values of the history only. *)
Lemma historyWindow_values (h h' : Heap) (limit : Z) (ch : list loc) :
  map (deref h') ch = map (deref h) ch →
  historyWindow h' limit ch = historyWindow h limit ch ∧
  map (deref h') (historyWindow h' limit ch) = map (deref h) (historyWindow h limit ch).
Proof.
  intros Heq.
  assert (Hw : historyWindow h' limit ch = historyWindow h limit ch).
  { unfold historyWindow, sliceHistoryByUserMessages. by rewrite Heq. }
  split; [done|]. rewrite Hw. apply map_ext_in. intros l Hl.
  apply (map_deref_pointwise h h' ch Heq).
  apply (historyWindow_sublist h limit). by apply list_elem_of_In.
Qed.

(** The values of the view are a function of the values of the history. *)
Lemma getHistoryView_values (ch : list loc) (minimize : bool) (limit : Z) (h h' : Heap) :
  valid_locs h ch → valid_locs h' ch →
  map (deref h') ch = map (deref h) ch →
  map (deref (getHistoryView ch minimize limit h').2) (getHistoryView ch minimize limit h').1
  = map (deref (getHistoryView ch minimize limit h).2) (getHistoryView ch minimize limit h).1.
Proof.
  intros Hv Hv' Heq.
  destruct (getHistoryView_sim ch minimize limit h Hv) as (_ & _ & _ & ->).
  destruct (getHistoryView_sim ch minimize limit h' Hv') as (_ & _ & _ & ->).
  by destruct (historyWindow_values h h' limit ch Heq) as [_ ->].
Qed.

Lemma valid_locs_preserves (h h' : Heap) (ls : list loc) :
  preserves h h' → valid_locs h ls → valid_locs h' ls.
Proof.
  intros Hp Hv. eapply Forall_impl; [exact Hv|]. intros l Hl. simpl in Hl.
  pose proof (preserves_length _ _ Hp). lia.
Qed.

(** C5. [getHistoryView(true, limit)] leaves every message of
    [conversationHistory] as it was, since it writes only to objects it has
    created; a second call on the unchanged history returns a view deep-equal
    to the first and leaves the first view untouched; and the view is a
    function of the values held by the history alone, whatever else the heap
    holds from earlier projections. *)
Theorem getHistoryView_idempotent (ch : list loc) (limit : Z) (h : Heap) :
  valid_locs h ch →
  let first := getHistoryView ch true limit h in
  let second := getHistoryView ch true limit first.2 in
  preserves h first.2 ∧
  map (deref first.2) ch = map (deref h) ch ∧
  map (deref second.2) ch = map (deref h) ch ∧
  map (deref second.2) second.1 = map (deref first.2) first.1 ∧
  map (deref second.2) first.1 = map (deref first.2) first.1 ∧
  map (deref first.2) first.1
  = viewValues true (map (deref h) (historyWindow h limit ch)) ∧
  (∀ h' : Heap, valid_locs h' ch → map (deref h') ch = map (deref h) ch →
     map (deref (getHistoryView ch true limit h').2) (getHistoryView ch true limit h').1
     = map (deref first.2) first.1).
Proof.
  intros Hv first second.
  pose proof (getHistoryView_sim ch true limit h Hv) as (Hp1 & Hr1 & Hn1 & Hv1).
  fold first in Hp1, Hr1, Hn1, Hv1.
  assert (Hvalid1 : valid_locs first.2 ch) by (by eapply valid_locs_preserves).
  assert (Heq1 : map (deref first.2) ch = map (deref h) ch)
    by (by apply preserves_map_deref).
  pose proof (getHistoryView_sim ch true limit first.2 Hvalid1) as (Hp2 & Hr2 & Hn2 & Hv2).
  fold second in Hp2, Hr2, Hn2, Hv2.
  split_and!; [done|done| | | |done|].
  - rewrite <- Heq1. by apply preserves_map_deref.
  - unfold second, first. by apply getHistoryView_values.
  - apply preserves_map_deref; [done|].
    eapply Forall_impl; [exact Hr1|]. intros l Hl. simpl in Hl. lia.
  - intros h' Hv' Heq. unfold first. by apply getHistoryView_values.
Qed.

(** ** Shape of one round of the projection *)

Lemma viewStepValues_cases toolInfo lastIdx lastIds abridged i msg :
  viewStepCase toolInfo lastIdx lastIds abridged i msg
    (viewStepValues toolInfo lastIdx lastIds abridged (i, msg)).
Proof.
  unfold viewStepValues.
  case_bool_decide as Hi; [by apply step_last|].
  destruct (role msg) eqn:Hrole, (content msg) as [s|parts] eqn:Hcontent;
    try (destruct (isToolResultFirst msg) eqn:Hfirst;
         [destruct (isLastToolResult lastIds msg) eqn:Hlast|];
         first [ apply step_plain; [done|by unfold isAssistantBlocks; rewrite Hrole, ?Hcontent|by auto]
               | apply step_omit; [done|by unfold isAssistantBlocks; rewrite Hrole, ?Hcontent|done|done] ]).
  destruct (transformedMessage toolInfo msg parts) as [transformed summaryOnly] eqn:Ht.
  destruct summaryOnly as [summaryMeta|].
  - destruct (last abridged) as [prev|] eqn:Hprev.
    + destruct (isSummaryOnly prev) eqn:Hso.
      * by eapply step_merged.
      * eapply step_transformed; [done..|]. intros prev' _ Hl. rewrite Hprev in Hl. by injection Hl as <-.
    + eapply step_transformed; [done..|]. intros prev' _ Hl. by rewrite Hprev in Hl.
  - eapply step_transformed; [done..|]. intros prev' [? [=]].
Qed.

(** ** Batches and summaries *)

Lemma countToolMeta_fold_count (metas : list ToolMeta) (s : SummaryInfo) :
  summaryCount (Some (fold_left countToolMeta metas s))
  = (summaryCount (Some s) + length metas)%nat.
Proof.
  revert s. induction metas as [|meta metas IH]; intros s; simpl; [lia|].
  simpl in IH. rewrite IH. unfold countToolMeta.
  destruct (default false (tm_isError meta)); simpl; lia.
Qed.

Lemma buildToolBatchSummary_count (metas : list ToolMeta) :
  summaryCount (Some (buildToolBatchSummary metas)) = length metas.
Proof. unfold buildToolBatchSummary. by rewrite countToolMeta_fold_count. Qed.

Lemma buildToolSummaryText_nonempty (s : SummaryInfo) :
  (0 < summaryCount (Some s))%nat → buildToolSummaryText s ≠ [].
Proof.
  unfold buildToolSummaryText. simpl. intros Hc.
  destruct (successCount s) as [|[|n]], (failureCount s) as [|[|k]]; simpl; try done; lia.
Qed.

Lemma addSummary_count (a b : SummaryInfo) :
  summaryCount (Some (addSummary a b))
  = (summaryCount (Some a) + summaryCount (Some b))%nat.
Proof. simpl. lia. Qed.

Lemma appendBatch_inv (k : nat) (t : Transforming) :
  transformingInv k t →
  transformingInv k (appendBatch t) ∧ pendingToolBatch (appendBatch t) = [].
Proof.
  intros Hi. pose proof Hi as (Hc & Hk & Ht & Hs). unfold appendBatch.
  destruct (pendingToolBatch t) as [|meta batch] eqn:Hb; [done|].
  split; [|done]. unfold transformingInv. simpl.
  pose proof (buildToolBatchSummary_count (meta :: batch)) as Hcount.
  simpl in Hcount, Hk.
  split_and!; [done| |done|].
  - destruct (t_summaryInfo t); simpl in *; lia.
  - intros _. destruct (t_summaryInfo t); simpl in *; lia.
Qed.

Lemma transformPart_inv toolInfo (k : nat) (t : Transforming) (part : Block) :
  transformingInv k t →
  transformingInv (if isToolUse part then S k else k) (transformPart toolInfo t part).
Proof.
  intros Hi. destruct part as [text flag|id name input|? ? ? ?]; simpl; [| |done].
  - destruct (appendBatch_inv k t Hi) as [(Hc & Hk & Ht & Hs) Hb].
    unfold transformingInv. simpl. split_and!; [|done|done|done].
    rewrite forallb_app, Hc. done.
  - destruct Hi as (Hc & Hk & Ht & Hs). unfold transformingInv. simpl.
    rewrite length_app. simpl. split_and!; [done|lia|done|done].
Qed.

Lemma transformParts_fold_inv toolInfo (parts : list Block) :
  ∀ k t, transformingInv k t →
  transformingInv (k + length (filter (fun part => isToolUse part = true) parts))
                  (fold_left (transformPart toolInfo) parts t).
Proof.
  induction parts as [|part parts IH]; intros k t Hi; simpl.
  - by rewrite Nat.add_0_r.
  - apply (transformPart_inv toolInfo _ _ part) in Hi.
    apply IH in Hi. rewrite filter_cons.
    destruct (isToolUse part); simpl in *.
    + by rewrite Nat.add_succ_r.
    + done.
Qed.

Lemma transformParts_inv toolInfo (msg : Message) (parts : list Block) :
  let t := transformParts toolInfo msg parts in
  transformingInv (length (filter (fun part => isToolUse part = true) parts)) t ∧
  pendingToolBatch t = [].
Proof.
  unfold transformParts. apply appendBatch_inv.
  apply (transformParts_fold_inv toolInfo parts 0). unfold transformingInv. simpl.
  split_and!; [done|done|done|]. by intros [? [=]].
Qed.

Lemma summaryParts_flagged (texts : list string) :
  forallb isSummaryLine (summaryParts texts) = true.
Proof. induction texts; simpl; [done|]. done. Qed.

Lemma summaryParts_elem (texts : list string) (part : Block) :
  part ∈ summaryParts texts → ∃ t, part = TextBlock t true ∧ t ∈ texts.
Proof.
  unfold summaryParts. intros Hp. apply list_elem_of_fmap in Hp as (t & -> & Ht). eauto.
Qed.

(** What [transformedMessage] returns for an assistant message with [k]
    tool-use parts. *)
Lemma transformedMessage_spec toolInfo (msg : Message) (parts : list Block) :
  let k := length (filter (fun part => isToolUse part = true) parts) in
  let '(transformed, summaryOnly) := transformedMessage toolInfo msg parts in
  role transformed = role msg ∧ _id transformed = _id msg ∧
  summaryCount (summaryInfo transformed) = k ∧
  (∃ texts, content transformed
            = Blocks (texts ++ summaryParts match summaryInfo transformed with
                                            | Some info => buildToolSummaryText info
                                            | None => []
                                            end) ∧
            forallb isPlainText texts = true ∧
            (is_Some summaryOnly → texts = [])) ∧
  ((0 < k)%nat → partsOf transformed ≠ []) ∧
  match summaryOnly with
  | Some summaryMeta =>
      summaryInfo transformed = Some summaryMeta ∧
      (metadata transformed ≫= md_toolSummary) = Some summaryMeta ∧
      hasNonSummaryText transformed = Some false ∧ (0 < k)%nat
  | None =>
      metadata transformed = metadata msg ∧
      ∃ b, hasNonSummaryText transformed = Some b
  end.
Proof.
  intros k. unfold transformedMessage.
  destruct (transformParts_inv toolInfo msg parts) as [(Hc & Hk & Ht & Hs) Hb].
  fold k in Hk. rewrite Hb in Hk. simpl in Hk. rewrite Nat.add_0_r in Hk.
  set (t := transformParts toolInfo msg parts) in *.
  destruct (t_summaryInfo t) as [info|] eqn:Hinfo.
  - assert (Hpos : (0 < summaryCount (Some info))%nat) by (apply Hs; eauto).
    pose proof (buildToolSummaryText_nonempty info Hpos) as Hne.
    destruct (t_hasNonSummaryText t) eqn:Hhas; simpl.
    + split_and!; try done; [| |by eauto].
      * exists (t_content t). split_and!; [done|done|]. by intros [? [=]].
      * intros _. unfold partsOf. simpl. intros Happ.
        apply app_eq_nil in Happ as [_ Happ]. destruct (buildToolSummaryText info); done.
    + destruct (buildToolSummaryText info) as [|line lines] eqn:Hlines; [done|]. simpl.
      split_and!; try done; [| | |by rewrite <- Hk].
      * exists (t_content t). rewrite Hlines. split_and!; [done|done|]. intros _. by apply Ht.
      * intros _. unfold partsOf. simpl. intros Happ.
        apply app_eq_nil in Happ as [_ Happ]. done.
      * unfold cloneSummaryInfo. by destruct info.
  - simpl. simpl in Hk. split_and!; try done; [| |by eauto].
    + exists (t_content t). rewrite app_nil_r. split_and!; [done|done|]. by intros [? [=]].
    + lia.
Qed.

Lemma finishTransformed_Some (transformed final : Message) :
  finishTransformed transformed = Some final →
  role final = role transformed ∧ _id final = _id transformed ∧
  content final = content transformed ∧
  summaryInfo final = summaryInfo transformed ∧
  (metadata final ≫= md_toolSummary) = (metadata transformed ≫= md_toolSummary) ∧
  hasNonSummaryText final
  = Some (if hasToolSummary transformed then false
          else default false (hasNonSummaryText transformed)).
Proof.
  unfold finishTransformed.
  destruct (content transformed) as [s|[|part parts]] eqn:Hc; [done|done|].
  replace (hasToolSummary (set_hasNonSummaryText
             (Some (default false (hasNonSummaryText transformed))) transformed))
    with (hasToolSummary transformed) by done.
  destruct (hasToolSummary transformed) eqn:Hts; simpl.
  - destruct (metadata transformed) as [md|] eqn:Hmd; simpl.
    + destruct (summaryToolIds transformed) as [[|i ids]|];
        try (intros [= <-]; simpl; by rewrite ?Hmd, ?Hc).
      destruct (md_summaryToolIds md); intros [= <-]; simpl; by rewrite ?Hmd, ?Hc.
    + intros [= <-]; simpl; by rewrite ?Hmd, ?Hc.
  - intros [= <-]; simpl. by rewrite ?Hc.
Qed.

Lemma finishTransformed_None (transformed : Message) :
  finishTransformed transformed = None → partsOf transformed = [].
Proof.
  unfold finishTransformed, partsOf.
  destruct (content transformed) as [s|[|part parts]]; [done|done|].
  repeat case_match; done.
Qed.

Lemma isSummaryOnly_inv (prev : Message) :
  isSummaryOnly prev = true →
  ∃ md s, metadata prev = Some md ∧ md_toolSummary md = Some s ∧
          hasNonSummaryText prev = Some false.
Proof.
  unfold isSummaryOnly, hasToolSummary. intros Hs.
  apply andb_true_iff in Hs as [Hm Hh].
  destruct (metadata prev) as [md|]; [|done].
  apply bool_decide_eq_true in Hm as [s Hs]. apply bool_decide_eq_true in Hh.
  eauto.
Qed.

Lemma mergeIntoPrev_spec (prev : Message) (summaryMeta : SummaryInfo) :
  isSummaryOnly prev = true →
  let merged := mergeIntoPrev prev summaryMeta in
  role merged = role prev ∧ _id merged = _id prev ∧
  isSummaryOnly merged = true ∧
  (∃ s, content merged = Blocks (summaryParts (buildToolSummaryText s))) ∧
  summarisedCount merged = (summarisedCount prev + summaryCount (Some summaryMeta))%nat.
Proof.
  intros Hs. destruct (isSummaryOnly_inv prev Hs) as (md & s & Hmd & Hts & Hh).
  unfold mergeIntoPrev. rewrite Hmd, Hts. simpl.
  split_and!; [done|done|done|by eauto|].
  unfold summarisedCount. simpl. rewrite Hmd. simpl. rewrite Hts. simpl. lia.
Qed.

(** ** Induction over the indexed history *)

Lemma indexed_snoc {A} (l : list A) (x : A) :
  indexed (l ++ [x]) = indexed l ++ [(length l, x)].
Proof.
  unfold indexed. rewrite length_app. simpl.
  rewrite seq_app. simpl. rewrite zip_with_app by (by rewrite length_seq).
  done.
Qed.

Lemma fold_indexed_ind {A B} (f : B → nat * A → B) (Inv : nat → B → Prop)
    (l : list A) (b0 : B) :
  Inv 0%nat b0 →
  (∀ k x b, l !! k = Some x → Inv k b → Inv (S k) (f b (k, x))) →
  Inv (length l) (fold_left f (indexed l) b0).
Proof.
  intros H0 Hstep.
  induction l as [|x l IH] using rev_ind; [done|].
  rewrite indexed_snoc, fold_left_app, length_app. simpl.
  rewrite Nat.add_1_r. apply Hstep.
  - by apply list_lookup_middle.
  - apply IH. intros k y b Hk. apply Hstep.
    by apply lookup_app_l_Some.
Qed.

(** ** The last tool interaction *)

Lemma findLastFrom_spec (history : list Message) :
  ∀ n, match findLastFrom n history with
       | Some j =>
           ∃ i entry, j = (n + i)%nat ∧ history !! i = Some entry ∧
             isToolInteraction entry = true ∧
             ∀ i' x, (i < i')%nat → history !! i' = Some x → isToolInteraction x = false
       | None => ∀ i x, history !! i = Some x → isToolInteraction x = false
       end.
Proof.
  induction history as [|entry history IH]; intros n; simpl; [done|].
  specialize (IH (S n)).
  destruct (findLastFrom (S n) history) as [j|].
  - destruct IH as (i & e & -> & Hi & He & Hmax).
    exists (S i), e. split_and!; [lia|done|done|].
    intros [|i'] x Hlt Hx; [lia|]. simpl in Hx. apply (Hmax i'); [lia|done].
  - destruct (isToolInteraction entry) eqn:He.
    + exists 0%nat, entry. split_and!; [lia|done|done|].
      intros [|i'] x Hlt Hx; [lia|]. simpl in Hx. by apply (IH i').
    + intros [|i] x Hx; simpl in Hx; [by injection Hx as <-|by apply (IH i)].
Qed.

Lemma findLastToolInteractionIndex_Some (history : list Message) (i : nat) :
  findLastToolInteractionIndex history = Some i →
  ∃ entry, history !! i = Some entry ∧ isToolInteraction entry = true ∧
    ∀ i' x, (i < i')%nat → history !! i' = Some x → isToolInteraction x = false.
Proof.
  unfold findLastToolInteractionIndex. intros Hf.
  pose proof (findLastFrom_spec history 0) as Hs. rewrite Hf in Hs.
  destruct Hs as (i0 & e & -> & Hs). simpl. eauto.
Qed.

Lemma isToolInteraction_inv (m : Message) :
  isToolInteraction m = true →
  role m = assistant ∧ ∃ parts, content m = Blocks parts ∧ existsb isToolUse parts = true.
Proof.
  unfold isToolInteraction. destruct (role m), (content m); try done. eauto.
Qed.

Lemma toolUseCount_zero (m : Message) :
  isToolInteraction m = false → toolUseCount m = 0%nat.
Proof.
  unfold isToolInteraction, toolUseCount.
  destruct (role m), (content m) as [|parts]; try done.
  induction parts as [|part parts IH]; simpl; [done|].
  intros Hor. apply orb_false_iff in Hor as [Hp Hrest].
  rewrite filter_cons, Hp. rewrite decide_False by done. by apply IH.
Qed.

Lemma canonical_inv (m : Message) :
  canonical m = true →
  hasNonSummaryText m = None ∧ summaryInfo m = None ∧ hasToolSummary m = false ∧
  forallb (fun part => negb (isSummaryLine part)) (partsOf m) = true.
Proof.
  unfold canonical. intros Hc.
  repeat (apply andb_true_iff in Hc as [Hc ?]).
  apply bool_decide_eq_true in Hc.
  repeat match goal with H : bool_decide _ = true |- _ => apply bool_decide_eq_true in H end.
  split_and!; try done. by apply negb_true_iff.
Qed.

Lemma canonical_not_summaryOnly (m : Message) :
  canonical m = true → isSummaryOnly m = false.
Proof.
  intros Hc. apply canonical_inv in Hc as (_ & _ & Hts & _).
  unfold isSummaryOnly. by rewrite Hts.
Qed.

Lemma canonical_summarisedCount (m : Message) :
  canonical m = true → summarisedCount m = 0%nat.
Proof.
  intros Hc. apply canonical_inv in Hc as (_ & Hsi & Hts & _).
  unfold summarisedCount, hasToolSummary in *. rewrite Hsi.
  destruct (metadata m) as [md|]; simpl; [|done].
  destruct (md_toolSummary md); [|done].
  by rewrite bool_decide_eq_false in Hts; destruct Hts; eauto.
Qed.

Lemma projectedParts_app (texts : list Block) (s : option SummaryInfo) :
  forallb isPlainText texts = true →
  projectedParts (texts ++ summaryParts match s with
                                        | Some info => buildToolSummaryText info
                                        | None => []
                                        end).
Proof.
  intros Ht part Hp. apply elem_of_app in Hp as [Hp|Hp].
  - left. rewrite forallb_forall in Ht. apply Ht. by apply list_elem_of_In.
  - right. apply summaryParts_elem in Hp as (t & -> & Hin).
    destruct s as [info|]; [by eauto|by apply elem_of_nil in Hin].
Qed.

Lemma Forall_removelast_snoc {A} (P : A → Prop) (l : list A) (x y : A) :
  last l = Some x → Forall P l → P y → Forall P (removelast l ++ [y]).
Proof.
  intros Hl Hf Hy. apply last_Some in Hl as [l' ->].
  rewrite removelast_last. apply Forall_app in Hf as [Hf _].
  apply Forall_app. split; [done|by apply Forall_singleton].
Qed.

(** A property of all messages of the view is kept by a round when it holds
    of the messages pushed as they are and of every message the projection
    writes. *)
Lemma viewStepCase_Forall (P : Message → Prop) toolInfo lastIdx lastIds
    abridged i msg abridged' :
  viewStepCase toolInfo lastIdx lastIds abridged i msg abridged' →
  Forall P abridged →
  (lastIdx = Some i → P msg) →
  (lastIdx ≠ Some i → isAssistantBlocks msg = false →
   isToolResultFirst msg = false ∨ isLastToolResult lastIds msg = true → P msg) →
  (∀ x parts, content x = Blocks parts → projectedParts parts → P x) →
  Forall P abridged'.
Proof.
  intros Hcase Hacc Hlast Hplain Hproj.
  destruct Hcase as [Hi|Hi Hab Hres|Hi Hab Hfirst Hnot
                     |parts transformed summaryOnly Hi Hrole Hcontent Ht Hprev
                     |parts transformed summaryMeta prev Hi Hrole Hcontent Ht Hprev Hso].
  - apply Forall_app. split; [done|]. apply Forall_singleton. by apply Hlast.
  - apply Forall_app. split; [done|]. apply Forall_singleton. by apply Hplain.
  - done.
  - destruct (finishTransformed transformed) as [final|] eqn:Hfin; [|done].
    apply Forall_app. split; [done|]. apply Forall_singleton.
    pose proof (transformedMessage_spec toolInfo msg parts) as Hspec.
    rewrite Ht in Hspec. destruct Hspec as (_ & _ & _ & (texts & Hc & Htexts & _) & _).
    apply finishTransformed_Some in Hfin as (_ & _ & Hcf & _).
    apply (Hproj final _ (eq_trans Hcf Hc)). by apply projectedParts_app.
  - eapply Forall_removelast_snoc; [done|done|].
    destruct (mergeIntoPrev_spec prev summaryMeta Hso) as (_ & _ & _ & (s & Hc) & _).
    apply (Hproj _ _ Hc).
    apply (projectedParts_app [] (Some s)). done.
Qed.

Lemma projectedParts_no_tool_use (parts : list Block) :
  projectedParts parts → existsb isToolUse parts = false.
Proof.
  intros Hp. apply not_true_is_false. intros He.
  apply existsb_exists in He as (part & Hin & Hu).
  apply list_elem_of_In in Hin.
  destruct (Hp part Hin) as [Hplain|(s & t & -> & _)]; [|done].
  by destruct part.
Qed.

Lemma projectedParts_not_result_first (x : Message) (parts : list Block) :
  content x = Blocks parts → projectedParts parts → isToolResultFirst x = false.
Proof.
  intros Hc Hp. unfold isToolResultFirst. rewrite Hc.
  destruct (role x); try done. destruct parts as [|part parts]; [done|].
  destruct (Hp part (list_elem_of_here _ _)) as [Hplain|(s & t & -> & _)]; [|done].
  by destruct part.
Qed.

Section ViewKept.

Variable history : list Message.

Let lastIdx := findLastToolInteractionIndex history.
Let lastIds := lastToolUseIdsOf history lastIdx.
Let toolInfo := collectToolInfo history.

(** Tool-result messages kept in the view are those of the last tool
    interaction. *)
Lemma view_tool_results (v : Message) :
  v ∈ viewValues true history → isToolResultFirst v = true →
  isLastToolResult lastIds v = true.
Proof.
  intros Hv. revert v Hv.
  apply (proj1 (Forall_forall
           (fun v => isToolResultFirst v = true → isLastToolResult lastIds v = true) _)).
  unfold viewValues. simpl.
  apply (fold_indexed_ind _ (fun _ acc =>
           Forall (fun v => isToolResultFirst v = true → isLastToolResult lastIds v = true) acc));
    [done|].
  intros k msg acc Hk Hacc.
  eapply viewStepCase_Forall; [apply viewStepValues_cases|done|..].
  - intros Hi Hfirst. fold lastIdx in Hi.
    apply findLastToolInteractionIndex_Some in Hi as (e & He & Hti & _).
    rewrite Hk in He. injection He as <-.
    apply isToolInteraction_inv in Hti as (Hrole & _).
    unfold isToolResultFirst in Hfirst. by rewrite Hrole in Hfirst.
  - intros _ _ [Hf|Hl] Hfirst; [by rewrite Hf in Hfirst|done].
  - intros x parts Hc Hp Hfirst.
    by rewrite (projectedParts_not_result_first x parts Hc Hp) in Hfirst.
Qed.

(** Tool-use parts survive in the last tool interaction only. *)
Lemma view_tool_uses (v : Message) :
  v ∈ viewValues true history → isToolInteraction v = true →
  ∃ i, lastIdx = Some i ∧ history !! i = Some v.
Proof.
  intros Hv. revert v Hv.
  apply (proj1 (Forall_forall
           (fun v => isToolInteraction v = true →
                     ∃ i, lastIdx = Some i ∧ history !! i = Some v) _)).
  unfold viewValues. simpl.
  apply (fold_indexed_ind _ (fun _ acc =>
           Forall (fun v => isToolInteraction v = true →
                            ∃ i, lastIdx = Some i ∧ history !! i = Some v) acc));
    [done|].
  intros k msg acc Hk Hacc.
  eapply viewStepCase_Forall; [apply viewStepValues_cases|done|..].
  - intros Hi _. exists k. done.
  - intros _ Hab _ Hti. apply isToolInteraction_inv in Hti as (Hrole & parts & Hc & _).
    unfold isAssistantBlocks in Hab. by rewrite Hrole, Hc in Hab.
  - intros x parts Hc Hp Hti.
    apply isToolInteraction_inv in Hti as (_ & parts' & Hc' & He).
    rewrite Hc in Hc'. injection Hc' as <-.
    by rewrite (projectedParts_no_tool_use parts Hp) in He.
Qed.

(** On a history of stored messages, every marked line of the view is a
    line of a tool summary. *)
Lemma view_summary_lines (v : Message) (part : Block) :
  forallb canonical history = true →
  v ∈ viewValues true history → part ∈ partsOf v → isSummaryLine part = true →
  ∃ s t, part = TextBlock t true ∧ t ∈ buildToolSummaryText s.
Proof.
  intros Hcan Hv. revert v Hv part.
  apply (proj1 (Forall_forall
           (fun v => ∀ part, part ∈ partsOf v → isSummaryLine part = true →
                     ∃ s t, part = TextBlock t true ∧ t ∈ buildToolSummaryText s) _)).
  unfold viewValues. simpl.
  apply (fold_indexed_ind _ (fun _ acc =>
           Forall (fun v => ∀ part, part ∈ partsOf v → isSummaryLine part = true →
                     ∃ s t, part = TextBlock t true ∧ t ∈ buildToolSummaryText s) acc));
    [done|].
  intros k msg acc Hk Hacc.
  assert (Hmsg : ∀ part, part ∈ partsOf msg → isSummaryLine part = true → False).
  { intros part Hin Hline. rewrite forallb_forall in Hcan.
    assert (Hc : canonical msg = true).
    { apply Hcan. apply list_elem_of_In. by eapply list_elem_of_lookup_2. }
    apply canonical_inv in Hc as (_ & _ & _ & Hparts).
    rewrite forallb_forall in Hparts. apply list_elem_of_In in Hin.
    specialize (Hparts part Hin). by rewrite Hline in Hparts. }
  eapply viewStepCase_Forall; [apply viewStepValues_cases|done|..].
  - intros _ part Hin Hline. by destruct (Hmsg part).
  - intros _ _ _ part Hin Hline. by destruct (Hmsg part).
  - intros x parts Hc Hp part Hin Hline. unfold partsOf in Hin. rewrite Hc in Hin.
    destruct (Hp part Hin) as [Hplain|?]; [|done]. by destruct part as [? []| |].
Qed.

End ViewKept.

Lemma noAdjacentSummaries_snoc (view : list Message) (x : Message) :
  noAdjacentSummaries view →
  isSummaryOnly x = false ∨ (∀ prev, last view = Some prev → isSummaryOnly prev = false) →
  noAdjacentSummaries (view ++ [x]).
Proof.
  intros Hn Hx before a b after Heq.
  destruct after as [|y after _] using rev_ind.
  - replace (before ++ [a; b]) with ((before ++ [a]) ++ [b]) in Heq
      by (by rewrite <- app_assoc).
    apply app_inj_tail in Heq as [-> ->].
    destruct Hx as [Hx|Hx].
    + rewrite Hx. apply andb_false_r.
    + rewrite (Hx a); [done|]. apply last_snoc.
  - replace (before ++ a :: b :: after ++ [y])
      with ((before ++ a :: b :: after) ++ [y]) in Heq
      by (by rewrite <- app_assoc).
    apply app_inj_tail in Heq as [-> _]. by eapply Hn.
Qed.

Lemma noAdjacentSummaries_init (view : list Message) (x : Message) :
  noAdjacentSummaries (view ++ [x]) →
  noAdjacentSummaries view ∧
  (isSummaryOnly x = true → ∀ prev, last view = Some prev → isSummaryOnly prev = false).
Proof.
  intros Hn. split.
  - intros before a b after ->. apply (Hn before a b (after ++ [x])).
    by rewrite <- app_assoc.
  - intros Hx prev Hl. apply last_Some in Hl as [pre ->].
    specialize (Hn pre prev x []). rewrite Hx, andb_true_r in Hn. apply Hn.
    by rewrite <- app_assoc.
Qed.

Lemma sum_list_app (l k : list nat) :
  sum_list (l ++ k) = (sum_list l + sum_list k)%nat.
Proof. induction l as [|n l IH]; simpl; [done|]. rewrite IH. lia. Qed.

Lemma hasToolSummary_alt (m : Message) :
  hasToolSummary m = bool_decide (is_Some (metadata m ≫= md_toolSummary)).
Proof. unfold hasToolSummary. by destruct (metadata m). Qed.

Lemma indexed_take_S (history : list Message) (k : nat) (msg : Message) :
  history !! k = Some msg →
  indexed (take (S k) history) = indexed (take k history) ++ [(k, msg)].
Proof.
  intros Hk. rewrite (take_S_r _ _ _ Hk), indexed_snoc.
  rewrite length_take. apply lookup_lt_Some in Hk.
  by replace (k `min` length history)%nat with k by lia.
Qed.

Lemma toolUsesOutside_take_S (skip : option nat) (history : list Message)
    (k : nat) (msg : Message) :
  history !! k = Some msg →
  toolUsesOutside skip (take (S k) history)
  = (toolUsesOutside skip (take k history)
     + if bool_decide (skip = Some k) then 0 else toolUseCount msg)%nat.
Proof.
  intros Hk. unfold toolUsesOutside. rewrite (indexed_take_S _ _ _ Hk).
  rewrite map_app, sum_list_app. simpl. lia.
Qed.

Lemma sum_removelast_snoc (f : Message → nat) (l : list Message) (x y : Message) :
  last l = Some x →
  (sum_list (map f (removelast l ++ [y])) + f x = sum_list (map f l) + f y)%nat.
Proof.
  intros Hl. apply last_Some in Hl as [l' ->]. rewrite removelast_last.
  rewrite !map_app, !sum_list_app. simpl. lia.
Qed.

Section ViewStored.

Variable history : list Message.
Hypothesis stored : forallb canonical history = true.

Let lastIdx := findLastToolInteractionIndex history.
Let lastIds := lastToolUseIdsOf history lastIdx.
Let toolInfo := collectToolInfo history.

Lemma stored_lookup (k : nat) (msg : Message) :
  history !! k = Some msg → canonical msg = true.
Proof.
  intros Hk. pose proof stored as Hall. rewrite forallb_forall in Hall. apply Hall.
  apply list_elem_of_In. by eapply list_elem_of_lookup_2.
Qed.

(** Neighbouring summaries without text are merged. *)
Lemma view_summaries_merged : noAdjacentSummaries (viewValues true history).
Proof.
  unfold viewValues. simpl.
  apply (fold_indexed_ind _ (fun _ acc => noAdjacentSummaries acc)).
  { intros [|? [|? ?]] a b after Heq; done. }
  intros k msg acc Hk Hacc.
  pose proof (canonical_not_summaryOnly msg (stored_lookup k msg Hk)) as Hmsg.
  destruct (viewStepValues_cases (collectToolInfo history)
              (findLastToolInteractionIndex history)
              (lastToolUseIdsOf history (findLastToolInteractionIndex history))
              acc k msg)
    as [Hi|Hi Hab Hres|Hi Hab Hfirst Hnot
        |parts transformed summaryOnly Hi Hrole Hcontent Ht Hprev
        |parts transformed summaryMeta prev Hi Hrole Hcontent Ht Hprev Hso].
  - apply noAdjacentSummaries_snoc; auto.
  - apply noAdjacentSummaries_snoc; auto.
  - done.
  - destruct (finishTransformed transformed) as [final|] eqn:Hfin; [|done].
    apply noAdjacentSummaries_snoc; [done|].
    destruct summaryOnly as [summaryMeta|]; [right; intros prev; apply Hprev; eauto|].
    left. pose proof (transformedMessage_spec (collectToolInfo history) msg parts) as Hspec.
    rewrite Ht in Hspec. destruct Hspec as (_ & _ & _ & _ & _ & Hmd & _).
    apply finishTransformed_Some in Hfin as (_ & _ & _ & _ & Hts & _).
    unfold isSummaryOnly. rewrite hasToolSummary_alt, Hts, Hmd.
    pose proof (stored_lookup k msg Hk) as Hc.
    apply canonical_inv in Hc as (_ & _ & Hno & _).
    rewrite hasToolSummary_alt in Hno. by rewrite Hno.
  - pose proof Hprev as Hl. apply last_Some in Hl as [pre ->].
    rewrite removelast_last.
    apply noAdjacentSummaries_init in Hacc as [Hpre Hlast].
    apply noAdjacentSummaries_snoc; [done|]. right. by apply Hlast.
Qed.

(** Every tool call outside the last tool interaction is counted in one
    summary of the view. *)
Lemma view_summarised_count :
  sum_list (map summarisedCount (viewValues true history))
  = toolUsesOutside lastIdx history.
Proof.
  rewrite <- (firstn_all history) at 2.
  unfold viewValues. simpl.
  apply (fold_indexed_ind _ (fun k acc =>
           sum_list (map summarisedCount acc)
           = toolUsesOutside lastIdx (take k history))); [done|].
  intros k msg acc Hk Hacc.
  rewrite (toolUsesOutside_take_S _ _ _ _ Hk).
  pose proof (stored_lookup k msg Hk) as Hcan.
  pose proof (canonical_summarisedCount msg Hcan) as Hzero.
  assert (Hnab : isAssistantBlocks msg = false → toolUseCount msg = 0%nat).
  { unfold isAssistantBlocks, toolUseCount. by destruct (role msg), (content msg). }
  destruct (viewStepValues_cases (collectToolInfo history)
              (findLastToolInteractionIndex history)
              (lastToolUseIdsOf history (findLastToolInteractionIndex history))
              acc k msg)
    as [Hi|Hi Hab Hres|Hi Hab Hfirst Hnot
        |parts transformed summaryOnly Hi Hrole Hcontent Ht Hprev
        |parts transformed summaryMeta prev Hi Hrole Hcontent Ht Hprev Hso];
    fold lastIdx in Hi.
  - rewrite map_app, sum_list_app. simpl. rewrite bool_decide_eq_true_2 by done. lia.
  - rewrite map_app, sum_list_app. simpl. rewrite (Hnab Hab).
    case_bool_decide; lia.
  - rewrite (Hnab Hab). case_bool_decide; lia.
  - rewrite bool_decide_eq_false_2 by done.
    pose proof (transformedMessage_spec (collectToolInfo history) msg parts) as Hspec.
    rewrite Ht in Hspec.
    destruct Hspec as (_ & _ & Hcount & _ & Hparts & Hso).
    assert (Htc : toolUseCount msg
                  = length (filter (fun part => isToolUse part = true) parts)).
    { unfold toolUseCount. by rewrite Hrole, Hcontent. }
    rewrite <- Htc in Hcount, Hparts.
    destruct (finishTransformed transformed) as [final|] eqn:Hfin.
    + apply finishTransformed_Some in Hfin as (_ & _ & _ & Hsi & Hts & _).
      rewrite map_app, sum_list_app. simpl.
      assert (summarisedCount final = toolUseCount msg) as ->; [|lia].
      unfold summarisedCount. rewrite Hts, Hsi.
      destruct summaryOnly as [summaryMeta|].
      * destruct Hso as (Hinfo & -> & _). by rewrite Hinfo in Hcount.
      * destruct Hso as (Hmd & _). rewrite Hmd.
        apply canonical_inv in Hcan as (_ & _ & Hno & _).
        rewrite hasToolSummary_alt in Hno.
        destruct (metadata msg ≫= md_toolSummary) eqn:Hm; [|done].
        by rewrite bool_decide_eq_true_2 in Hno by eauto.
    + apply finishTransformed_None in Hfin.
      destruct (toolUseCount msg); [lia|]. destruct Hparts; [lia|done].
  - rewrite bool_decide_eq_false_2 by done.
    pose proof (transformedMessage_spec (collectToolInfo history) msg parts) as Hspec.
    rewrite Ht in Hspec.
    destruct Hspec as (_ & _ & Hcount & _ & _ & Hinfo & _).
    assert (Htc : toolUseCount msg
                  = length (filter (fun part => isToolUse part = true) parts)).
    { unfold toolUseCount. by rewrite Hrole, Hcontent. }
    rewrite <- Htc, Hinfo in Hcount.
    destruct (mergeIntoPrev_spec prev summaryMeta Hso) as (_ & _ & _ & _ & Hm).
    pose proof (sum_removelast_snoc summarisedCount acc prev
                  (mergeIntoPrev prev summaryMeta) Hprev) as Hsum.
    lia.
Qed.

End ViewStored.

(** After the last tool interaction a round only appends to the view. *)
Lemma viewStepValues_after_last toolInfo lastIdx lastIds abridged k msg :
  lastIdx ≠ Some k → isToolInteraction msg = false →
  ∃ ext, viewStepValues toolInfo lastIdx lastIds abridged (k, msg) = abridged ++ ext ∧
    (isToolResultFirst msg = true → isLastToolResult lastIds msg = true → ext = [msg]).
Proof.
  intros Hk Hno.
  destruct (viewStepValues_cases toolInfo lastIdx lastIds abridged k msg)
    as [Hi|Hi Hab Hres|Hi Hab Hfirst Hnot
        |parts transformed summaryOnly Hi Hrole Hcontent Ht Hprev
        |parts transformed summaryMeta prev Hi Hrole Hcontent Ht Hprev Hso].
  - done.
  - by exists [msg].
  - exists []. rewrite app_nil_r. split; [done|]. intros _ Hl. by rewrite Hl in Hnot.
  - exists (match finishTransformed transformed with Some final => [final] | None => [] end).
    split.
    + destruct (finishTransformed transformed); [done|by rewrite app_nil_r].
    + intros Hfirst. unfold isToolResultFirst in Hfirst. by rewrite Hrole in Hfirst.
  - pose proof (transformedMessage_spec toolInfo msg parts) as Hspec.
    rewrite Ht in Hspec. destruct Hspec as (_ & _ & _ & _ & _ & _ & _ & _ & Hpos).
    apply toolUseCount_zero in Hno. unfold toolUseCount in Hno.
    rewrite Hrole, Hcontent in Hno. lia.
Qed.

Section ViewLastTurn.

Variable history : list Message.

(** The last tool interaction is in the view as it is stored, followed by
    the message next to it when that one holds a result for it. *)
Lemma view_last_turn (i : nat) (m : Message) :
  findLastToolInteractionIndex history = Some i → history !! i = Some m →
  ∃ before after, viewValues true history = before ++ m :: after ∧
    ∀ r, history !! S i = Some r → isToolResultFirst r = true →
         isLastToolResult (Some (toolUseIds (partsOf m))) r = true →
         ∃ after', after = r :: after'.
Proof.
  intros Hlast Hm.
  destruct (findLastToolInteractionIndex_Some history i Hlast) as (m' & Hm' & Hti & Hmax).
  rewrite Hm in Hm'. injection Hm' as <-.
  destruct (isToolInteraction_inv m Hti) as (Hrole & parts & Hcontent & _).
  assert (Hids : lastToolUseIdsOf history (Some i) = Some (toolUseIds (partsOf m))).
  { unfold lastToolUseIdsOf, partsOf. by rewrite Hm, Hrole, Hcontent. }
  set (Inv := fun (k : nat) (acc : list Message) =>
    (k = S i → ∃ before, acc = before ++ [m]) ∧
    (S i < k → ∃ before after, acc = before ++ m :: after ∧
       ∀ r, history !! S i = Some r → isToolResultFirst r = true →
            isLastToolResult (Some (toolUseIds (partsOf m))) r = true →
            ∃ after', after = r :: after')%nat).
  assert (Hfinal : Inv (length history) (viewValues true history)).
  { unfold viewValues. simpl. rewrite Hlast, Hids.
    apply (fold_indexed_ind _ Inv); [split; intros; lia|].
    intros k msg acc Hk [Hat Hafter]. split.
    - intros [= ->]. rewrite Hm in Hk. injection Hk as <-.
      exists acc. unfold viewStepValues. by rewrite bool_decide_eq_true_2.
    - intros Hlt.
      destruct (viewStepValues_after_last (collectToolInfo history) (Some i)
                  (Some (toolUseIds (partsOf m))) acc k msg)
        as (ext & -> & Hext).
      { intros [= ->]. lia. }
      { apply (Hmax k); [lia|done]. }
      destruct (decide (k = S i)) as [->|Hne].
      + destruct (Hat eq_refl) as (before & ->).
        exists before, ext. rewrite <- app_assoc. split; [done|].
        intros r Hr Hfirst Hres. rewrite Hk in Hr. injection Hr as <-.
        rewrite (Hext Hfirst Hres). eauto.
      + destruct Hafter as (before & after & -> & Hr); [lia|].
        exists before, (after ++ ext). rewrite <- app_assoc. split; [done|].
        intros r Hr1 Hr2 Hr3. destruct (Hr r Hr1 Hr2 Hr3) as (after' & ->).
        exists (after' ++ ext). done. }
  destruct Hfinal as [Hat Hafter].
  pose proof (lookup_lt_Some _ _ _ Hm) as Hlen.
  destruct (decide (length history = S i)) as [Heq|Hne].
  - destruct (Hat Heq) as (before & ->). exists before, []. split; [done|].
    intros r Hr. apply lookup_lt_Some in Hr. lia.
  - apply Hafter. lia.
Qed.

End ViewLastTurn.


(** The second view of [Samples.longHistory] equals the first. *)
Lemma getHistoryView_idempotent_witness :
  let ch := Samples.allLocs Samples.longHistory in
  let first := getHistoryView ch true 2 Samples.longHistory in
  let second := getHistoryView ch true 2 first.2 in
  map (deref second.2) second.1 = map (deref first.2) first.1.
Proof.
  assert (Hvalid : valid_locs Samples.longHistory
                     (Samples.allLocs Samples.longHistory))
    by (unfold valid_locs; simpl; repeat constructor).
  exact (proj1 (proj2 (proj2 (proj2
    (getHistoryView_idempotent (Samples.allLocs Samples.longHistory) 2
       Samples.longHistory Hvalid))))).
Defined.

(** ** The minimized view *)




(** ** The orchestrator *)

(** ** Message ids *)

Lemma ensureMessageId_fields (message : Message) (counter : Z) :
  let result := ensureMessageId message counter in
  role result.1 = role message ∧ content result.1 = content message ∧
  metadata result.1 = metadata message ∧
  hasNonSummaryText result.1 = hasNonSummaryText message ∧
  summaryInfo result.1 = summaryInfo message ∧
  summaryToolIds result.1 = summaryToolIds message ∧
  counter ≤ result.2.
Proof.
  unfold ensureMessageId.
  destruct (_id message) as [|z| |str]; simpl; try (split_and!; try done; lia).
  - split_and!; try done. destruct (counter <? z) eqn:Hlt; lia.
  - destruct (parseInt str) as [parsed|]; simpl; split_and!; try done; try lia.
    destruct (counter <? parsed) eqn:Hlt; lia.
Qed.

(** A message without an id is given the next one. *)
Lemma ensureMessageId_fresh (message : Message) (counter : Z) :
  _id message = IdAbsent →
  ensureMessageId message counter = (set_id (IdNum (counter + 1)) message, counter + 1).
Proof. unfold ensureMessageId. by intros ->. Qed.

(** A finite numeric id is kept. *)
Lemma ensureMessageId_kept (message : Message) (counter z : Z) :
  _id message = IdNum z →
  (ensureMessageId message counter).1 = message ∧
  (ensureMessageId message counter).2 = Z.max counter z.
Proof.
  unfold ensureMessageId. intros ->. simpl. split; [done|].
  destruct (counter <? z) eqn:Hlt; lia.
Qed.

Section MessageIds.

Context {World : Type}.

Abbreviation State := (@State World).
Abbreviation UniversalTool := (@UniversalTool World).

(** ** Appending *)

Lemma appendMessage_spec (message : Message) (s : State) :
  _id message = IdAbsent →
  let next := messageIdCounter (manager s) + 1 in
  appendMessage message s
  = (length (heap s),
     mkState (mkAIManager (providers (manager s)) (currentProvider (manager s))
                          (tools (manager s))
                          (conversationHistory (manager s) ++ [length (heap s)])
                          (systemPrompt (manager s)) next)
             (heap s ++ [set_id (IdNum next) message]) (world s) (trace s)).
Proof.
  intros Hid. unfold appendMessage. by rewrite (ensureMessageId_fresh _ _ Hid).
Qed.

(** ** Tool execution *)

Lemma out_id_recorded (call : ToolCall) (outcome : option Outcome) :
  out_id (recorded call outcome) = call_id call.
Proof. by destruct outcome as [[|]|]. Qed.

Lemma executeToolCall_spec (availableTools : list UniversalTool) (call : ToolCall)
    (s : State) :
  let run := executeToolCall availableTools call s in
  recordedFor availableTools call run.1 ∧
  manager run.2 = manager s ∧ heap run.2 = heap s ∧
  trace run.2 = trace s ++ handlerEvents availableTools [call].
Proof.
  unfold executeToolCall, recordedFor, handlerEvents, isKnown. simpl.
  destruct (findTool availableTools (call_name call)) as [tool|] eqn:Hfind; simpl.
  - destruct (handler tool (call_arguments call) (world s)) as [outcome w] eqn:Hh.
    simpl. split_and!; [|done|done|done].
    exists (world s). rewrite Hh. simpl. by destruct outcome.
  - by rewrite app_nil_r.
Qed.

Lemma handlerEvents_cons (availableTools : list UniversalTool) (call : ToolCall)
    (toolCalls : list ToolCall) :
  handlerEvents availableTools (call :: toolCalls)
  = handlerEvents availableTools [call] ++ handlerEvents availableTools toolCalls.
Proof.
  unfold handlerEvents. simpl. by destruct (isKnown availableTools call).
Qed.

(** [executeToolCalls] records one entry per call, in order and with the id
    of the call, calls the handlers of the known tools in that order, and
    touches neither the orchestrator nor the messages. *)
Lemma executeToolCalls_spec (toolCalls : list ToolCall)
    (availableTools : list UniversalTool) :
  ∀ s : State,
  let run := executeToolCalls toolCalls availableTools s in
  Forall2 (recordedFor availableTools) toolCalls run.1 ∧
  map out_id run.1 = map call_id toolCalls ∧
  manager run.2 = manager s ∧ heap run.2 = heap s ∧
  trace run.2 = trace s ++ handlerEvents availableTools toolCalls.
Proof.
  induction toolCalls as [|call toolCalls IH]; intros s; simpl.
  - split_and!; try done. by rewrite app_nil_r.
  - pose proof (executeToolCall_spec availableTools call s) as Hone.
    destruct (executeToolCall availableTools call s) as [result s1].
    simpl in Hone. destruct Hone as (Hrec & Hm1 & Hh1 & Ht1).
    specialize (IH s1).
    destruct (executeToolCalls toolCalls availableTools s1) as [results s2].
    simpl in IH. destruct IH as (Hrecs & Hids & Hm2 & Hh2 & Ht2). simpl.
    split_and!.
    + by constructor.
    + f_equal; [|done]. unfold recordedFor in Hrec.
      destruct (findTool availableTools (call_name call)) as [tool|].
      * destruct Hrec as (w & ->). apply out_id_recorded.
      * rewrite Hrec. apply out_id_recorded.
    + congruence.
    + congruence.
    + rewrite Ht2, Ht1, (handlerEvents_cons _ call toolCalls). by rewrite <- app_assoc.
Qed.

End MessageIds.


Section ToolRounds.

Context {World : Type}.

Abbreviation State := (@State World).
Abbreviation UniversalTool := (@UniversalTool World).
Abbreviation AIProvider := (@AIProvider World).
Abbreviation Options := (@Options World).

Lemma grows_refl (s : State) : grows s s [] [].
Proof.
  unfold grows. simpl. rewrite !app_nil_r. split_and!; try done; try lia.
Qed.

Lemma grows_trans (s1 s2 s3 : State) events1 events2 appended1 appended2 :
  grows s1 s2 events1 appended1 → grows s2 s3 events2 appended2 →
  grows s1 s3 (events1 ++ events2) (appended1 ++ appended2).
Proof.
  intros (Hh1 & Hc1 & Hn1 & Ht1 & Hp1 & Hcp1 & Htl1 & Hsp1)
         (Hh2 & Hc2 & Hn2 & Ht2 & Hp2 & Hcp2 & Htl2 & Hsp2).
  unfold grows. split_and!; try congruence.
  - rewrite Hh2, Hh1. by rewrite <- app_assoc.
  - rewrite Hc2, Hc1, Hh1, !length_app, seq_app. by rewrite <- app_assoc.
  - rewrite Hn2, Hn1, length_app. lia.
  - rewrite Ht2, Ht1. by rewrite <- app_assoc.
Qed.

Lemma grows_world (s s' : State) (w : World) events appended :
  grows s s' events appended → grows s (set_world w s') events appended.
Proof. done. Qed.

Lemma appendMessage_grows (message : Message) (s : State) :
  _id message = IdAbsent →
  let run := appendMessage message s in
  run.1 = length (heap s) ∧
  grows s run.2 [] [set_id (IdNum (messageIdCounter (manager s) + 1)) message].
Proof.
  intros Hid. rewrite (appendMessage_spec message s Hid). simpl.
  split; [done|]. unfold grows. simpl. rewrite app_nil_r. split_and!; try done; try lia.
Qed.

Lemma executeToolCalls_grows (toolCalls : list ToolCall) (s : State) :
  let run := executeToolCalls toolCalls (tools (manager s)) s in
  Forall2 (recordedFor (tools (manager s))) toolCalls run.1 ∧
  grows s run.2 (handlerEvents (tools (manager s)) toolCalls) [].
Proof.
  destruct (executeToolCalls_spec toolCalls (tools (manager s)) s)
    as (Hrec & _ & Hm & Hh & Ht).
  split; [done|]. unfold grows. rewrite Hm, Hh, Ht. simpl. rewrite !app_nil_r.
  split_and!; try done; try lia.
Qed.

Lemma notify_grows (options : Options) (event : ProgressEvent) (s s' : State)
    events appended :
  grows s s' events appended → grows s (notify options event s') events appended.
Proof. unfold notify. by destruct (onProgress options). Qed.

End ToolRounds.


Section OneRound.

Context {World : Type}.

Abbreviation State := (@State World).
Abbreviation UniversalTool := (@UniversalTool World).
Abbreviation AIProvider := (@AIProvider World).
Abbreviation Options := (@Options World).

(** ** One round of the loop *)

Lemma toolIteration_spec (options : Options) (response : Response) (v : LoopVars)
    (s : State) :
  let run := toolIteration options response v s in
  let counter := messageIdCounter (manager s) in
  ∃ results,
    Forall2 (recordedFor (tools (manager s))) (r_toolCalls response) results ∧
    grows s run.2 (handlerEvents (tools (manager s)) (r_toolCalls response))
          [set_id (IdNum (counter + 1)) (assistantToolMessage response);
           set_id (IdNum (counter + 2)) (toolResultMessageOf results)] ∧
    messages run.1 = messages v ++ [length (heap s); S (length (heap s))] ∧
    continueProcessing run.1 = true ∧ iterations run.1 = iterations v ∧
    finalResponse run.1
    = Some (responseResult response (Some (IdNum (counter + 1)))
                                    (Some (IdNum (counter + 2)))) ∧
    lv_allToolCalls run.1
    = lv_allToolCalls v ++ map (fun call => (call, IdNum (counter + 1)))
                               (r_toolCalls response) ∧
    lv_allToolResults run.1
    = lv_allToolResults v ++ map (fun result => (result, IdNum (counter + 2))) results.
Proof.
  intros run counter. unfold run, toolIteration.
  pose proof (appendMessage_grows (assistantToolMessage response) s eq_refl) as Ha.
  destruct (appendMessage (assistantToolMessage response) s) as [la s1].
  simpl in Ha. destruct Ha as [-> Hg1].
  pose proof (executeToolCalls_grows (r_toolCalls response) s1) as He.
  destruct (executeToolCalls (r_toolCalls response) (tools (manager s1)) s1)
    as [results s2].
  simpl in He. destruct He as [Hrec Hg2].
  pose proof (appendMessage_grows (toolResultMessageOf results) s2 eq_refl) as Hr.
  destruct (appendMessage (toolResultMessageOf results) s2) as [lr s3].
  simpl in Hr. destruct Hr as [-> Hg3].
  pose proof (grows_trans _ _ _ _ _ _ _ Hg1 Hg2) as Hg12.
  pose proof (grows_trans _ _ _ _ _ _ _ Hg12 Hg3) as Hg.
  simpl in Hg. rewrite app_nil_r in Hg.
  pose proof Hg1 as (Hh1 & _ & Hn1 & _ & _ & _ & Ht1 & _).
  pose proof Hg2 as (Hh2 & _ & Hn2 & _ & _ & _ & Ht2 & _).
  pose proof Hg3 as (Hh3 & _).
  rewrite app_nil_r in Hh2. simpl in Hn1, Hn2.
  assert (Hc2 : messageIdCounter (manager s2) + 1 = counter + 2) by (unfold counter; lia).
  rewrite Hc2 in *.
  assert (Hda : deref (heap s1) (length (heap s))
                = set_id (IdNum (counter + 1)) (assistantToolMessage response)).
  { rewrite Hh1. apply deref_alloc_new. }
  assert (Hlen2 : length (heap s2) = S (length (heap s))).
  { rewrite Hh2, Hh1, length_app. simpl. lia. }
  assert (Hdr : deref (heap s3) (length (heap s2))
                = set_id (IdNum (counter + 2)) (toolResultMessageOf results)).
  { rewrite Hh3. apply deref_alloc_new. }
  exists results. rewrite Ht1 in *.
  split_and!; simpl.
  - done.
  - by apply notify_grows.
  - by rewrite Hlen2.
  - done.
  - done.
  - by rewrite Hda, Hdr.
  - by rewrite Hda.
  - by rewrite Hdr.
Qed.

Lemma finalIteration_spec (options : Options) (response : Response) (v : LoopVars)
    (s : State) :
  let run := finalIteration options response v s in
  let counter := messageIdCounter (manager s) in
  let closing := if truthy_str (r_content response)
                 then [set_id (IdNum (counter + 1)) (finalAssistantMessage response)]
                 else [] in
  grows s run.2 [] closing ∧
  messages run.1 = messages v ∧
  continueProcessing run.1 = false ∧ iterations run.1 = iterations v ∧
  (∃ r, finalResponse run.1 = Some r ∧ x_content r = r_content response ∧
        needsContinuation r = false) ∧
  lv_allToolCalls run.1 = lv_allToolCalls v ∧
  lv_allToolResults run.1 = lv_allToolResults v.
Proof.
  intros run counter closing. unfold run, closing, finalIteration.
  destruct (truthy_str (r_content response)).
  - pose proof (appendMessage_grows (finalAssistantMessage response) s eq_refl) as Ha.
    unfold finalAssistantMessage in *.
    destruct (appendMessage (newMessage assistant (Text (r_content response))) s)
      as [la s1].
    simpl in Ha. destruct Ha as [-> Hg1]. simpl.
    split_and!; try done; [by apply notify_grows|eauto].
  - simpl. split_and!; try done; [apply grows_refl|eauto].
Qed.

Lemma log_grows (s : State) (e : Event) : grows s (log e s) [e] [].
Proof. unfold grows. simpl. rewrite !app_nil_r. split_and!; try done; lia. Qed.

Lemma iteration_cases (provider : AIProvider) (options : Options) (v : LoopVars)
    (s : State) :
  RoundCase options v s (iteration provider options v s).1
            (iteration provider options v s).2.
Proof.
  unfold iteration. cbv zeta. simpl messages.
  set (outbound := map (deref (heap s)) (messages v)).
  set (s0 := match prepareRateLimit options with
             | Some prepare => set_world (prepare outbound (world s)) s
             | None => s
             end).
  assert (Hs0 : grows s s0 [] []).
  { unfold s0. destruct (prepareRateLimit options);
      [apply (grows_world s s), grows_refl|apply grows_refl]. }
  assert (Hh0 : heap s0 = heap s ∧ manager s0 = manager s).
  { unfold s0. by destruct (prepareRateLimit options). }
  destruct Hh0 as [Hh0 Hm0]. clearbody s0.
  pose proof (grows_trans _ _ _ _ _ _ _ Hs0 (log_grows s0 (CallAPI outbound))) as Hs1.
  simpl in Hs1.
  set (s1 := log (CallAPI outbound) s0) in *.
  assert (Hh1 : heap s1 = heap s ∧ manager s1 = manager s) by (by rewrite <- Hh0, <- Hm0).
  destruct Hh1 as [Hh1 Hm1]. clearbody s1.
  destruct (callAPI provider outbound (tools (manager s1)) (providerOptionsOf options)
                    (world s1)) as [answer w].
  destruct answer as [response|message]; simpl.
  - destruct (r_toolCalls response) as [|call calls] eqn:Hcalls.
    + pose proof (finalIteration_spec options response
                    (mkLoopVars (messages v) (continueProcessing v) (finalResponse v)
                                (lv_allToolCalls v) (lv_allToolResults v) (iterations v + 1))
                    (set_world w s1)) as Hf.
      destruct (finalIteration _ _ _ _) as [v' s']. simpl in Hf.
      destruct Hf as (Hg & Hmsg & Hcont & Hit & Hfin & Hcalls' & Hres').
      pose proof (grows_trans _ _ _ _ _ _ _ (grows_world _ _ w _ _ Hs1) Hg) as Hgrow.
      simpl in Hgrow. rewrite Hm1 in Hgrow.
      by eapply round_answered.
    + pose proof (toolIteration_spec options response
                    (mkLoopVars (messages v) (continueProcessing v) (finalResponse v)
                                (lv_allToolCalls v) (lv_allToolResults v) (iterations v + 1))
                    (set_world w s1)) as Ht.
      destruct (toolIteration _ _ _ _) as [v' s']. simpl in Ht.
      destruct Ht as (results & Hrec & Hg & Hmsg & Hcont & Hit & Hfin & Hcalls' & Hres').
      pose proof (grows_trans _ _ _ _ _ _ _ (grows_world _ _ w _ _ Hs1) Hg) as Hgrow.
      simpl in Hgrow, Hrec, Hmsg, Hfin, Hcalls', Hres'.
      rewrite Hm1 in Hgrow, Hrec, Hfin, Hcalls', Hres'. rewrite Hh1 in Hmsg.
      eapply round_called; try done. by rewrite Hcalls.
  - apply round_rejected. by apply grows_world.
Qed.

End OneRound.


Section TheLoop.

Context {World : Type}.

Abbreviation State := (@State World).
Abbreviation UniversalTool := (@UniversalTool World).
Abbreviation AIProvider := (@AIProvider World).
Abbreviation Options := (@Options World).

(** ** The loop *)

Lemma providerCalls_app (t1 t2 : list Event) :
  providerCalls (t1 ++ t2) = providerCalls t1 ++ providerCalls t2.
Proof. unfold providerCalls. apply omap_app. Qed.

Lemma handlerCalls_app (t1 t2 : list Event) :
  handlerCalls (t1 ++ t2) = handlerCalls t1 ++ handlerCalls t2.
Proof. unfold handlerCalls. apply omap_app. Qed.

Lemma providerCalls_handlerEvents (availableTools : list UniversalTool)
    (toolCalls : list ToolCall) :
  providerCalls (handlerEvents availableTools toolCalls) = [].
Proof.
  unfold handlerEvents. induction (List.filter _ toolCalls); simpl; done.
Qed.

(** At most one provider call is made per round. *)
Lemma Turns_calls_bound (availableTools : list UniversalTool) rounds counter
    outbound events appended :
  Turns availableTools rounds counter outbound events appended →
  (length (providerCalls events) ≤ rounds)%nat.
Proof.
  induction 1 as [| | |rounds counter outbound response results events appended
                       Hcalls Hrec Hturns IH]; simpl; try lia.
  rewrite providerCalls_app, providerCalls_handlerEvents. simpl. lia.
Qed.

Lemma loop_stopped (rounds : nat) (provider : AIProvider) (options : Options)
    (MAX : Z) (v : LoopVars) (s : State) :
  continueProcessing v = false → loop rounds provider options MAX v s = (Ok v, s).
Proof. intros Hc. destruct rounds; simpl; by rewrite Hc. Qed.

Lemma valid_locs_grows (s s' : State) events appended (ls : list loc) :
  grows s s' events appended → valid_locs (heap s) ls → valid_locs (heap s') ls.
Proof.
  intros (Hh & _) Hv. eapply Forall_impl; [exact Hv|]. intros l Hl. simpl in Hl.
  rewrite Hh, length_app. lia.
Qed.

Lemma values_grows (s s' : State) events appended (ls : list loc) :
  grows s s' events appended → valid_locs (heap s) ls →
  map (deref (heap s')) ls = map (deref (heap s)) ls.
Proof.
  intros (Hh & _) Hv. rewrite Hh. induction Hv as [|l ls Hl _ IH]; simpl; [done|].
  rewrite IH. f_equal. by apply deref_alloc_old.
Qed.

(** The loop, started with exactly the rounds the budget leaves, runs as
    [Turns] describes. *)
Lemma loop_turns (provider : AIProvider) (options : Options) (MAX : Z) :
  ∀ (rounds : nat) (v : LoopVars) (s : State),
  continueProcessing v = true →
  Z.of_nat rounds = Z.max 0 (MAX - iterations v) →
  valid_locs (heap s) (messages v) →
  let run := loop rounds provider options MAX v s in
  ∃ events appended,
    grows s run.2 events appended ∧
    Turns (tools (manager s)) rounds (messageIdCounter (manager s))
          (map (deref (heap s)) (messages v)) events appended ∧
    match run.1 with
    | Ok v' => loopExit MAX rounds events v v'
    | Threw _ => True
    end.
Proof.
  induction rounds as [|rounds IH]; intros v s Hcont Hrounds Hvalid run.
  - exists [], []. unfold run. simpl. rewrite Hcont. simpl.
    destruct (iterations v <? MAX) eqn:Hlt; simpl.
    + apply Z.ltb_lt in Hlt. lia.
    + split_and!; [apply grows_refl|constructor|].
      unfold loopExit. split_and!; [intros _; split; [lia|done]|congruence|].
      intros [?|?]; [done|lia].
  - unfold run. simpl. rewrite Hcont. simpl.
    replace (iterations v <? MAX) with true by (symmetry; apply Z.ltb_lt; lia).
    pose proof (iteration_cases provider options v s) as Hcase.
    destruct (iteration provider options v s) as [res s1]. simpl in Hcase.
    destruct Hcase
      as [message s1 Hg
         |response v1 s1 Hcalls Hg Hmsg Hc1 Hit Hfin _ _
         |response results v1 s1 Hcalls Hrec Hg Hmsg Hc1 Hit Hfin _ _].
    + exists [CallAPI (map (deref (heap s)) (messages v))], []. simpl.
      split_and!; [done|constructor|done].
    + rewrite (loop_stopped _ _ _ _ _ _ Hc1). simpl.
      eexists _, _. split_and!; [exact Hg|by constructor|].
      unfold loopExit. rewrite Hc1. destruct Hfin as (r & -> & _).
      split_and!; [done|eauto|eauto].
    + assert (Hvalid1 : valid_locs (heap s1) (messages v1)).
      { rewrite Hmsg. apply Forall_app. split.
        - by eapply valid_locs_grows.
        - destruct Hg as (Hh & _). rewrite Hh, length_app. simpl.
          repeat constructor; lia. }
      assert (Hrounds1 : Z.of_nat rounds = Z.max 0 (MAX - iterations v1)) by lia.
      destruct (IH v1 s1 Hc1 Hrounds1 Hvalid1) as (events & appended & Hg1 & Hturns & Hexit).
      pose proof Hg as (Hh & _ & Hn & _ & _ & _ & Htools & _).
      assert (Hout : map (deref (heap s1)) (messages v1)
                     = map (deref (heap s)) (messages v)
                       ++ [set_id (IdNum (messageIdCounter (manager s) + 1))
                                  (assistantToolMessage response);
                           set_id (IdNum (messageIdCounter (manager s) + 2))
                                  (toolResultMessageOf results)]).
      { rewrite Hmsg, map_app. f_equal; [by eapply values_grows|].
        rewrite Hh. simpl. unfold deref.
        rewrite (list_lookup_total_middle (heap s) _ _ (length (heap s))) by done.
        replace (heap s ++ [_; _])
          with ((heap s ++ [set_id (IdNum (messageIdCounter (manager s) + 1))
                                   (assistantToolMessage response)])
                ++ [set_id (IdNum (messageIdCounter (manager s) + 2))
                           (toolResultMessageOf results)])
          by (by rewrite <- app_assoc).
        rewrite list_lookup_total_middle; [done|]. rewrite length_app. simpl. lia. }
      rewrite Hout, Htools in Hturns. simpl in Hn.
      replace (messageIdCounter (manager s1))
        with (messageIdCounter (manager s) + 2) in Hturns by lia.
      eexists _, _. split_and!.
      * exact (grows_trans _ _ _ _ _ _ _ Hg Hg1).
      * simpl. by apply turns_called.
      * destruct (loop rounds provider options MAX v1 s1).1 as [v'|]; [|done].
        destruct Hexit as (Hp & Hd & Hs). unfold loopExit. split_and!.
        -- intros Hc'. destruct (Hp Hc') as [Hi Hn']. split; [lia|]. simpl.
           rewrite providerCalls_app, providerCalls_handlerEvents. simpl. lia.
        -- done.
        -- intros _. apply Hs. left. rewrite Hfin. eauto.
Qed.

End TheLoop.


Lemma ensureMessageId_eraseId (message : Message) (counter : Z) :
  eraseId (ensureMessageId message counter).1 = eraseId message.
Proof.
  unfold ensureMessageId, eraseId.
  destruct (_id message) as [|z| |str]; try done.
  by destruct (parseInt str).
Qed.

Section BeforeTheLoop.

Context {World : Type}.

Abbreviation State := (@State World).
Abbreviation UniversalTool := (@UniversalTool World).
Abbreviation AIProvider := (@AIProvider World).
Abbreviation Options := (@Options World).

Lemma sameButIds_refl (s : State) : sameButIds s s.
Proof. unfold sameButIds. split_and!; try done; lia. Qed.

Lemma sameButIds_trans (s1 s2 s3 : State) :
  sameButIds s1 s2 → sameButIds s2 s3 → sameButIds s1 s3.
Proof.
  intros (H1 & H2 & H3 & H4 & H5 & H6 & H7 & H8 & H9)
         (K1 & K2 & K3 & K4 & K5 & K6 & K7 & K8 & K9).
  unfold sameButIds. split_and!; try congruence. lia.
Qed.

Lemma ensureMessageIdAt_sameButIds (l : loc) (s : State) :
  sameButIds s (ensureMessageIdAt l s).
Proof.
  unfold ensureMessageIdAt.
  pose proof (ensureMessageId_eraseId (deref (heap s) l) (messageIdCounter (manager s))) as He.
  pose proof (ensureMessageId_fields (deref (heap s) l) (messageIdCounter (manager s))) as Hf.
  destruct (ensureMessageId (deref (heap s) l) (messageIdCounter (manager s)))
    as [message counter].
  simpl in *. destruct Hf as (_ & _ & _ & _ & _ & _ & Hc).
  unfold sameButIds. simpl. split_and!; try done.
  unfold store. rewrite list_fmap_insert.
  destruct (decide (l < length (heap s))%nat) as [Hl|Hl].
  - apply list_insert_id. rewrite list_lookup_fmap.
    rewrite (list_lookup_lookup_total_lt _ _ Hl). simpl. by rewrite He.
  - apply list_insert_ge. rewrite length_fmap. lia.
Qed.

Lemma ensureHistoryMessageIds_sameButIds (s : State) :
  sameButIds s (ensureHistoryMessageIds s).
Proof.
  unfold ensureHistoryMessageIds.
  generalize (conversationHistory (manager s)). intros ls.
  assert (Hgen : ∀ s0, sameButIds s s0 →
            sameButIds s (fold_left (λ s1 entry, ensureMessageIdAt entry s1) ls s0)).
  { induction ls as [|l ls IH]; intros s0 Hs0; simpl; [done|].
    apply IH. eapply sameButIds_trans; [exact Hs0|]. apply ensureMessageIdAt_sameButIds. }
  apply Hgen, sameButIds_refl.
Qed.

Lemma sameButIds_length (s s' : State) :
  sameButIds s s' → length (heap s') = length (heap s).
Proof.
  intros (Hh & _). apply (f_equal length) in Hh. by rewrite !length_map in Hh.
Qed.

Lemma sameButIds_wellFormed (s s' : State) :
  sameButIds s s' → wellFormed s → wellFormed s'.
Proof.
  intros Hs Hw. unfold wellFormed, valid_locs in *.
  rewrite (sameButIds_length _ _ Hs). destruct Hs as (_ & _ & -> & _). done.
Qed.

Lemma grows_wellFormed (s s' : State) events appended :
  grows s s' events appended → wellFormed s → wellFormed s'.
Proof.
  intros Hg Hw. pose proof Hg as (Hh & Hc & _). unfold wellFormed in *.
  rewrite Hc. apply Forall_app. split.
  - by eapply valid_locs_grows.
  - rewrite Hh, length_app. apply Forall_forall. intros l Hl.
    apply elem_of_seq in Hl. lia.
Qed.

(** ** Before the loop *)

Lemma beginTurn_spec (userMessage : string) (options : Options) (s : State) :
  let s1 := ensureHistoryMessageIds s in
  sameButIds s s1 ∧
  grows s1 (beginTurn userMessage options s) []
        (userMessageAdded userMessage options (messageIdCounter (manager s1))).
Proof.
  intros s1. split; [apply ensureHistoryMessageIds_sameButIds|].
  unfold beginTurn, userMessageAdded. fold s1.
  destruct (negb (isContinuationMarker userMessage) && negb (preAddedUserMessage options)).
  - apply (appendMessage_grows (newMessage user (Text userMessage)) s1 eq_refl).
  - apply grows_refl.
Qed.

Lemma beginTurn_wellFormed (userMessage : string) (options : Options) (s : State) :
  wellFormed s → wellFormed (beginTurn userMessage options s).
Proof.
  intros Hw. destruct (beginTurn_spec userMessage options s) as [Hs Hg].
  eapply grows_wellFormed; [exact Hg|]. by eapply sameButIds_wellFormed.
Qed.

End BeforeTheLoop.


Lemma viewInv_cons (h0 : Heap) view h values (m : Message) :
  viewInv h0 (view, h) values →
  viewInv h0 (length h :: view, h ++ [m]) (m :: values).
Proof.
  intros Hi.
  assert (Hfresh : length h ∉ view).
  { destruct Hi as (_ & Hr & _). simpl in Hr. rewrite Forall_forall in Hr.
    intros Hin. specialize (Hr _ Hin). simpl in Hr. lia. }
  assert (Hge : (length h0 ≤ length h)%nat).
  { destruct Hi as (Hp & _). by apply preserves_length. }
  destruct (viewInv_alloc h0 view h values m Hi) as (Hp & Hr & Hn & Hv).
  unfold viewInv in *; simpl in *. split_and!; [done| | |].
  - constructor; [rewrite length_app; simpl; lia|done].
  - by constructor.
  - by rewrite deref_alloc_new, Hv.
Qed.

Lemma viewInv_store_at (h0 : Heap) view h values (t : nat) (target : loc)
    (m : Message) :
  viewInv h0 (view, h) values → view !! t = Some target →
  viewInv h0 (view, store target m h) (<[t := m]> values).
Proof.
  intros (Hp & Hr & Hn & Hv) Ht. unfold viewInv in *; simpl in *.
  assert (Hrange : (length h0 ≤ target < length h)%nat).
  { rewrite Forall_forall in Hr. apply (Hr target). by eapply list_elem_of_lookup_2. }
  split_and!; [apply preserves_store; [done|lia]| |done|].
  - eapply Forall_impl; [exact Hr|]. intros l Hl. simpl in *. rewrite length_store. lia.
  - subst values. clear Hr Hp. revert t Ht Hn.
    induction view as [|l view IH]; intros t Ht Hn; [done|].
    apply NoDup_cons in Hn as [Hl Hn]. destruct t as [|t]; simpl in *.
    + injection Ht as ->. rewrite deref_store_eq by lia. f_equal.
      apply map_ext_in. intros l' Hl'. apply deref_store_ne.
      intros ->. apply Hl. by apply list_elem_of_In.
    + rewrite (IH t Ht Hn). f_equal. apply deref_store_ne.
      intros ->. apply Hl. by eapply list_elem_of_lookup_2.
Qed.

Lemma append_length (a b : string) :
  String.length (a +:+ b) = (String.length a + String.length b)%nat.
Proof. induction a as [|c a IH]; simpl; [done|]. by rewrite IH. Qed.

(** ** The outbound list *)

Section Outbound.

Context {World : Type}.
Variable JSON_stringify : jsval → option string.

Abbreviation State := (@State World).
Abbreviation UniversalTool := (@UniversalTool World).
Abbreviation AIProvider := (@AIProvider World).
Abbreviation Options := (@Options World).

(** The augmented prompt is never the original message. *)
Lemma augmentedPromptOf_differs (outcome : option Outcome) (originalMessage : string) :
  String.eqb (augmentedPromptOf JSON_stringify outcome originalMessage) originalMessage
  = false.
Proof.
  apply String.eqb_neq. intros Heq. apply (f_equal String.length) in Heq.
  unfold augmentedPromptOf in Heq. rewrite !append_length in Heq. simpl in Heq. lia.
Qed.

Lemma buildAugmentedPrompt_spec (originalMessage : string) (s : State) :
  let run := buildAugmentedPrompt JSON_stringify originalMessage s in
  run.1 = augmentedPromptOf JSON_stringify (codeSummaryOutcome s) originalMessage ∧
  manager run.2 = manager s ∧ heap run.2 = heap s ∧
  trace run.2 = trace s ++ codeSummaryEvents s.
Proof.
  unfold buildAugmentedPrompt, codeSummaryOutcome, codeSummaryEvents.
  destruct (findTool (tools (manager s)) "code_summary") as [tool|]; simpl.
  - destruct (handler tool JUndefined (world s)) as [outcome w]. done.
  - by rewrite app_nil_r.
Qed.

Lemma outboundMessages_spec (options : Options) (s : State) :
  wellFormed s →
  let run := outboundMessages options s in
  viewInv (heap s) (run.1, heap run.2)
    (withSystemPrompt (systemPrompt (manager s))
       (viewValues (opt_minimizeTokens options)
          (map (deref (heap s))
               (historyWindow (heap s) (default 0 (opt_limitMessages options))
                              (conversationHistory (manager s)))))) ∧
  manager run.2 = manager s ∧ world run.2 = world s ∧ trace run.2 = trace s.
Proof.
  intros Hw. unfold outboundMessages.
  pose proof (getHistoryView_sim (conversationHistory (manager s))
                (opt_minimizeTokens options) (default 0 (opt_limitMessages options))
                (heap s) Hw) as Hsim.
  destruct (getHistoryView _ _ _ _) as [view h]. simpl.
  unfold withSystemPrompt.
  destruct Hsim as (Hp & Hr & Hn & Hv). simpl in Hp, Hr, Hn, Hv.
  assert (Hhead : role <$> (deref h <$> head view)
                  = role <$> head (map (deref h) view)).
  { by destruct view. }
  rewrite Hhead, Hv.
  destruct (truthy_ostr (systemPrompt (manager s)) && _); simpl.
  - split_and!; try done. rewrite <- Hv. by apply viewInv_cons.
  - done.
Qed.

Lemma augmentLatest_spec (h0 : Heap) (messages : list loc) (s : State)
    (values : list Message) :
  viewInv h0 (messages, heap s) values →
  let s' := augmentLatest JSON_stringify messages s in
  viewInv h0 (messages, heap s')
    (augmentedValues (augmentedPromptOf JSON_stringify (codeSummaryOutcome s)) values) ∧
  manager s' = manager s ∧
  ∃ events, trace s' = trace s ++ events ∧ providerCalls events = [].
Proof.
  intros Hi. pose proof Hi as (Hp & Hr & Hn & Hv). simpl in Hv.
  unfold augmentLatest, augmentedValues. rewrite Hv.
  destruct (findLatestUserTextMessageIndex values) as [t|];
    [|split_and!; [done|done|exists []; by rewrite app_nil_r]].
  destruct (messages !! t) as [target|] eqn:Ht.
  - assert (Hvt : values !! t = Some (deref (heap s) target)).
    { rewrite <- Hv. by rewrite list_lookup_fmap, Ht. }
    rewrite Hvt.
    destruct (content (deref (heap s) target)) as [originalContent|parts];
      [|split_and!; [done|done|exists []; by rewrite app_nil_r]].
    pose proof (buildAugmentedPrompt_spec originalContent s) as Hb.
    destruct (buildAugmentedPrompt JSON_stringify originalContent s) as [augmented s1].
    simpl in Hb. destruct Hb as (-> & Hm & Hh & Htr).
    rewrite augmentedPromptOf_differs. simpl. rewrite Hh.
    split_and!; [by apply viewInv_store_at|done|].
    exists (codeSummaryEvents s). split; [done|].
    unfold codeSummaryEvents. by destruct (findTool _ _).
  - assert (Hvt : values !! t = None).
    { rewrite <- Hv. by rewrite list_lookup_fmap, Ht. }
    rewrite Hvt. split_and!; [done|done|exists []; by rewrite app_nil_r].
Qed.

End Outbound.


(** ** The steps before the loop, together *)

Section Prepared.

Context {World : Type}.
Variable JSON_stringify : jsval → option string.

Abbreviation State := (@State World).
Abbreviation UniversalTool := (@UniversalTool World).
Abbreviation AIProvider := (@AIProvider World).
Abbreviation Options := (@Options World).

Lemma loop_always_calling (provider : AIProvider) (options : Options) (MAX : Z) :
  alwaysCallsTools provider →
  ∀ (rounds : nat) (v : LoopVars) (s : State),
  continueProcessing v = true →
  ∃ v', (loop rounds provider options MAX v s).1 = Ok v' ∧ continueProcessing v' = true.
Proof.
  intros Halways. induction rounds as [|rounds IH]; intros v s Hc; simpl.
  - rewrite Hc. simpl. destruct (iterations v <? MAX); eauto.
  - rewrite Hc. simpl. destruct (iterations v <? MAX); [|eauto].
    pose proof (iteration_cases provider options v s) as Hcase.
    assert (Hok : ∃ v1, (iteration provider options v s).1 = Ok v1
                        ∧ continueProcessing v1 = true).
    { unfold iteration. cbv zeta.
      match goal with
      | |- context [callAPI provider ?o ?t ?p ?w] =>
          destruct (Halways o t p w) as (response & w' & -> & Hcalls)
      end.
      destruct (r_toolCalls response) as [|call calls] eqn:Hr; [done|].
      pose proof (toolIteration_spec options response) as Hspec.
      match goal with
      | |- context [toolIteration options response ?v0 ?s0] =>
          specialize (Hspec v0 s0); destruct (toolIteration options response v0 s0) as [v1 s1]
      end.
      simpl in Hspec. destruct Hspec as (_ & _ & _ & _ & Hc1 & _).
      simpl. eauto. }
    destruct Hok as (v1 & Hv1 & Hc1).
    destruct (iteration provider options v s) as [res s1]. simpl in Hv1. subst res.
    by apply IH.
Qed.

Lemma prepareMessages_spec (userMessage : string) (options : Options) (s : State) :
  wellFormed s →
  let s1 := beginTurn userMessage options s in
  let run := prepareMessages JSON_stringify userMessage options s in
  viewInv (heap s1) (run.1, heap run.2)
          (outboundValues JSON_stringify userMessage options s) ∧
  manager run.2 = manager s1 ∧
  ∃ prelude, trace run.2 = trace s ++ prelude ∧ providerCalls prelude = [].
Proof.
  intros Hw s1 run. unfold run, prepareMessages, outboundValues. fold s1.
  pose proof (beginTurn_wellFormed userMessage options s Hw) as Hw1. fold s1 in Hw1.
  pose proof (outboundMessages_spec options s1 Hw1) as Ho.
  destruct (beginTurn_spec userMessage options s) as [Hsame Hgrow].
  fold s1 in Hgrow.
  assert (Htrace1 : trace s1 = trace s).
  { destruct Hgrow as (_ & _ & _ & Ht & _). rewrite app_nil_r in Ht.
    destruct Hsame as (_ & _ & _ & _ & _ & _ & _ & _ & Ht'). congruence. }
  destruct (outboundMessages options s1) as [messages s2].
  simpl in Ho. destruct Ho as (Hi & Hm & _ & Ht). simpl.
  destruct (negb (isContinuationMarker userMessage)).
  - destruct (augmentLatest_spec JSON_stringify (heap s1) messages s2 _ Hi)
      as (Hi' & Hm' & events & Ht' & Hnone).
    split_and!; [done|congruence|].
    exists events. split; [congruence|done].
  - split_and!; [done|done|]. exists []. rewrite app_nil_r. split; [congruence|done].
Qed.

End Prepared.


Lemma deref_seq_app (ext : list Message) :
  ∀ h : Heap, map (deref (h ++ ext)) (seq (length h) (length ext)) = ext.
Proof.
  induction ext as [|x ext IH]; intros h; simpl; [done|]. f_equal.
  - unfold deref. by apply list_lookup_total_middle.
  - specialize (IH (h ++ [x])). rewrite <- app_assoc in IH. simpl in IH.
    rewrite length_app in IH. simpl in IH.
    by replace (length h + 1)%nat with (S (length h)) in IH by lia.
Qed.

(** ** Runs of [sendMessage] *)

Section Runs.

Context {World : Type}.
Variable JSON_stringify : jsval → option string.

Abbreviation State := (@State World).
Abbreviation UniversalTool := (@UniversalTool World).
Abbreviation AIProvider := (@AIProvider World).
Abbreviation Options := (@Options World).

Lemma grows_history_values (s s' : State) events appended :
  wellFormed s → grows s s' events appended →
  map (deref (heap s')) (conversationHistory (manager s'))
  = map (deref (heap s)) (conversationHistory (manager s)) ++ appended.
Proof.
  intros Hw Hg. pose proof Hg as (Hh & Hc & _).
  rewrite Hc, map_app. f_equal.
  - by eapply values_grows.
  - rewrite Hh. apply deref_seq_app.
Qed.

Lemma finish_paused (MAX : Z) (v : LoopVars) :
  continueProcessing v = true → MAX ≤ iterations v →
  ∃ r, finish MAX v = Ok r ∧ needsContinuation r = true ∧
       iterationsUsed r = Some (iterations v) ∧ maxIterations r = Some MAX ∧
       allToolCalls r = lv_allToolCalls v ∧ allToolResults r = lv_allToolResults v.
Proof.
  intros Hc Hi. unfold finish. rewrite Hc.
  replace (MAX <=? iterations v) with true by (symmetry; apply Z.leb_le; lia).
  simpl. eauto 10.
Qed.

(** A run of [sendMessage] with a provider configured: after the steps
    before the loop, which call no provider, the loop runs as [Turns]
    describes on the outbound list, with the round trips the budget allows;
    the history grows by exactly the messages of those turns. *)
Lemma sendMessage_turns (userMessage : string) (options : Options) (s : State)
    (provider : AIProvider) :
  wellFormed s → getProvider (manager s) = Some provider →
  let s1 := beginTurn userMessage options s in
  let MAX := maxIterationsFor options (isContinuationMarker userMessage) in
  let run := sendMessage JSON_stringify userMessage options s in
  ∃ prelude events appended,
    providerCalls prelude = [] ∧
    trace run.2 = trace s ++ prelude ++ events ∧
    Turns (tools (manager s)) (Z.to_nat MAX) (messageIdCounter (manager s1))
          (outboundValues JSON_stringify userMessage options s) events appended ∧
    map (deref (heap run.2)) (conversationHistory (manager run.2))
    = map (deref (heap s1)) (conversationHistory (manager s1)) ++ appended ∧
    wellFormed run.2 ∧
    tools (manager run.2) = tools (manager s) ∧
    providers (manager run.2) = providers (manager s) ∧
    currentProvider (manager run.2) = currentProvider (manager s) ∧
    messageIdCounter (manager run.2)
    = messageIdCounter (manager s1) + Z.of_nat (length appended) ∧
    (alwaysCallsTools provider →
       length (providerCalls events) = Z.to_nat MAX ∧
       ∃ r, run.1 = Ok r ∧ needsContinuation r = true ∧
            iterationsUsed r = Some (Z.max 0 MAX) ∧ maxIterations r = Some MAX).
Proof.
  intros Hw Hprov s1 MAX run. unfold run, sendMessage. rewrite Hprov.
  pose proof (prepareMessages_spec JSON_stringify userMessage options s Hw) as Hprep.
  pose proof (beginTurn_wellFormed userMessage options s Hw) as Hw1.
  destruct (beginTurn_spec userMessage options s) as [Hsame Hgrow1].
  fold s1 in Hprep, Hw1, Hgrow1.
  destruct (prepareMessages JSON_stringify userMessage options s) as [messages s2].
  simpl in Hprep. destruct Hprep as (Hi & Hm2 & prelude & Htr2 & Hnone).
  pose proof Hi as (Hp & Hr & Hn & Hv). simpl in Hp, Hr, Hn, Hv.
  assert (Hw2 : wellFormed s2).
  { unfold wellFormed. rewrite Hm2. by eapply valid_locs_preserves. }
  assert (Hvalid : valid_locs (heap s2) messages).
  { eapply Forall_impl; [exact Hr|]. intros l Hl. simpl in Hl. lia. }
  assert (Htools1 : tools (manager s1) = tools (manager s)
                    ∧ providers (manager s1) = providers (manager s)
                    ∧ currentProvider (manager s1) = currentProvider (manager s)).
  { destruct Hgrow1 as (_ & _ & _ & _ & Hp1 & Hcp1 & Ht1 & _).
    destruct Hsame as (_ & _ & _ & Hp0 & Hcp0 & Ht0 & _). split_and!; congruence. }
  destruct Htools1 as (Htools1 & Hprov1 & Hcur1).
  fold MAX.
  set (v0 := mkLoopVars messages true None [] [] 0).
  destruct (loop_turns provider options MAX (Z.to_nat MAX) v0 s2 eq_refl
              ltac:(simpl; lia) Hvalid)
    as (events & appended & Hg & Hturns & Hexit).
  simpl in Hturns. rewrite Hv, Hm2, Htools1 in Hturns.
  pose proof (grows_history_values s2 _ events appended Hw2 Hg) as Hvalues.
  pose proof (grows_wellFormed s2 _ events appended Hg Hw2) as Hwf.
  pose proof Hg as (_ & _ & Hcount & Htrace & Hprovs & Hcurr & Htools & _).
  assert (Halways : alwaysCallsTools provider →
    ∃ v', (loop (Z.to_nat MAX) provider options MAX v0 s2).1 = Ok v'
          ∧ continueProcessing v' = true).
  { intros Ha. by apply loop_always_calling. }
  destruct (loop (Z.to_nat MAX) provider options MAX v0 s2) as [[v'|message] s3];
    simpl in *.
  - exists prelude, events, appended. split_and!; try done; try congruence.
    + rewrite Htrace, Htr2. by rewrite <- app_assoc.
    + rewrite Hvalues, Hm2. f_equal. by apply preserves_map_deref.
    + intros Ha. destruct (Halways Ha) as (v'' & [= <-] & Hc').
      destruct Hexit as (Hpaused & _). destruct (Hpaused Hc') as [Hit Hlen].
      split; [done|].
      assert (Hit0 : iterations v' = Z.max 0 MAX) by (unfold v0 in Hit; simpl in Hit; lia).
      assert (Hge : MAX ≤ iterations v') by lia.
      destruct (finish_paused MAX v' Hc' Hge) as (r & Hr' & Hnc & Hiu & Hmi & _).
      exists r. split_and!; try done. by rewrite Hiu, Hit0.
  - exists prelude, events, appended. split_and!; try done; try congruence.
    + rewrite Htrace, Htr2. by rewrite <- app_assoc.
    + rewrite Hvalues, Hm2. f_equal. by apply preserves_map_deref.
    + intros Ha. by destruct (Halways Ha) as (v'' & [=] & _).
Qed.

End Runs.

(** ** The turns of a run *)

Section TurnsAsChains.

Context {World : Type}.

Abbreviation UniversalTool' := (@UniversalTool World).

Lemma Turns_chain (availableTools : list UniversalTool') rounds counter outbound
    events appended :
  Turns availableTools rounds counter outbound events appended →
  ∃ turns ending,
    chain availableTools rounds counter outbound turns ending ∧
    events = runEvents availableTools outbound turns ending ∧
    appended = runMessages counter turns ending.
Proof.
  induction 1 as [counter outbound|rounds counter outbound
                  |rounds counter outbound response Hcalls
                  |rounds counter outbound response results events appended
                     Hcalls Hrec Hturns IH].
  - by exists [], Paused.
  - exists [], Rejected. simpl. unfold runEvents. simpl. rewrite app_nil_r.
    split_and!; [lia|done|done].
  - exists [], (Answered response). simpl. unfold runEvents, runMessages. simpl.
    rewrite app_nil_r.
    replace (counter + 2 * Z.of_nat 0 + 1) with (counter + 1) by lia.
    split_and!; [lia|done|done|done].
  - destruct IH as (turns & ending & Hchain & -> & ->).
    exists (mkTurn outbound counter response results :: turns), ending.
    split_and!.
    + simpl. split_and!; try done. lia.
    + unfold runEvents. simpl. rewrite <- !app_assoc. simpl. done.
    + unfold runMessages. simpl. f_equal. f_equal. f_equal.
      destruct ending as [| |final]; try done.
      destruct (truthy_str (r_content final)); [|done]. do 3 f_equal. lia.
Qed.

Lemma recordedFor_ids (availableTools : list UniversalTool')
    (toolCalls : list ToolCall) (results : list ToolOutcome) :
  Forall2 (recordedFor availableTools) toolCalls results →
  map out_id results = map call_id toolCalls.
Proof.
  induction 1 as [|call result toolCalls results Hrec _ IH]; simpl; [done|].
  f_equal; [|done]. unfold recordedFor in Hrec.
  destruct (findTool availableTools (call_name call)) as [tool|].
  - destruct Hrec as (w & ->). apply out_id_recorded.
  - rewrite Hrec. apply out_id_recorded.
Qed.

End TurnsAsChains.

Lemma toolUseIds_app (a b : list Block) : toolUseIds (a ++ b) = toolUseIds a ++ toolUseIds b.
Proof. unfold toolUseIds. apply omap_app. Qed.

Lemma toolUseIds_calls (toolCalls : list ToolCall) :
  toolUseIds (map toolUsePart toolCalls) = map call_id toolCalls.
Proof. induction toolCalls as [|c l IH]; simpl; [done|]. by rewrite IH. Qed.

Lemma toolResultIds_results (results : list ToolOutcome) :
  toolResultIds (map toolResultPart results) = map out_id results.
Proof. induction results as [|r l IH]; simpl; [done|]. by rewrite IH. Qed.

Lemma toolResultParts_all (results : list ToolOutcome) :
  forallb isToolResultPart (map toolResultPart results) = true.
Proof. induction results as [|r l IH]; simpl; done. Qed.

Lemma assistantToolMessage_ids (response : Response) :
  toolUseIds (partsOf (assistantToolMessage response))
  = map call_id (r_toolCalls response).
Proof.
  unfold partsOf. simpl. rewrite toolUseIds_app, toolUseIds_calls.
  by destruct (truthy_str (r_content response)).
Qed.

Lemma assistantToolMessage_interaction (response : Response) :
  r_toolCalls response ≠ [] → isToolInteraction (assistantToolMessage response) = true.
Proof.
  intros Hne. unfold isToolInteraction. simpl. rewrite existsb_app.
  destruct (r_toolCalls response) as [|c l]; [done|]. simpl. apply orb_true_r.
Qed.

Lemma toolTurnsPaired_eraseId (history : list Message) :
  toolTurnsPaired (map eraseId history) = toolTurnsPaired history.
Proof.
  assert (Hgen : ∀ n l, (length l ≤ n)%nat →
            toolTurnsPaired (map eraseId l) = toolTurnsPaired l).
  { induction n as [|n IH]; intros [|m [|r rest]] Hl; simpl in *; try done; try lia.
    - replace (isToolInteraction (eraseId m)) with (isToolInteraction m) by done.
      destruct (isToolInteraction m); [|apply (IH (r :: rest)); simpl; lia].
      replace (role (eraseId r)) with (role r) by done.
      replace (partsOf (eraseId r)) with (partsOf r) by done.
      replace (partsOf (eraseId m)) with (partsOf m) by done.
      rewrite (IH rest) by lia. done. }
  by apply (Hgen (length history)).
Qed.

Lemma toolTurnsPaired_app (before after : list Message) :
  toolTurnsPaired before = true → toolTurnsPaired after = true →
  toolTurnsPaired (before ++ after) = true.
Proof.
  intros Hb Ha.
  assert (Hgen : ∀ n l, (length l ≤ n)%nat → toolTurnsPaired l = true →
            toolTurnsPaired (l ++ after) = true).
  { induction n as [|n IH]; intros [|m [|r rest]] Hl Hp; simpl in *;
      try done; try lia.
    - destruct (isToolInteraction m); [done|]. destruct after; done.
    - destruct (isToolInteraction m).
      + apply andb_true_iff in Hp as [Hp Hrest]. rewrite Hp. simpl.
        apply IH; [lia|done].
      + apply (IH (r :: rest)); [simpl; lia|done]. }
  by apply (Hgen (length before)).
Qed.


Lemma runMessages_cons (counter : Z) (t : Turn) (turns : list Turn) (ending : Ending) :
  runMessages counter (t :: turns) ending
  = turnMessages t ++ runMessages (counter + 2) turns ending.
Proof.
  unfold runMessages. simpl. do 3 f_equal.
  destruct ending as [| |response]; try done.
  destruct (truthy_str (r_content response)); [|done]. do 3 f_equal. lia.
Qed.

Section Chains.

Context {World : Type}.

Abbreviation UniversalTool := (@UniversalTool World).

Lemma runEvents_cons (availableTools : list UniversalTool) (outbound : list Message)
    (t : Turn) (turns : list Turn) (ending : Ending) :
  turn_outbound t = outbound →
  runEvents availableTools outbound (t :: turns) ending
  = turnEvents availableTools t
    ++ runEvents availableTools (outbound ++ turnMessages t) turns ending.
Proof.
  intros Ho. unfold runEvents. simpl. rewrite <- !app_assoc. simpl. done.
Qed.

Lemma providerCalls_turnEvents (availableTools : list UniversalTool) (t : Turn) :
  providerCalls (turnEvents availableTools t) = [turn_outbound t].
Proof.
  unfold turnEvents. simpl. by rewrite providerCalls_handlerEvents.
Qed.

Lemma handlerCalls_turnEvents (availableTools : list UniversalTool) (t : Turn) :
  handlerCalls (turnEvents availableTools t)
  = map (fun call => (call_name call, call_arguments call))
        (List.filter (isKnown availableTools) (r_toolCalls (turn_response t))).
Proof.
  unfold turnEvents, handlerEvents. simpl.
  induction (List.filter _ _) as [|c l IH]; simpl; [done|]. by rewrite IH.
Qed.

(** The messages of a run are paired. *)
Lemma chain_paired (availableTools : list UniversalTool) (turns : list Turn)
    (ending : Ending) :
  ∀ rounds counter outbound,
  chain availableTools rounds counter outbound turns ending →
  toolTurnsPaired (runMessages counter turns ending) = true.
Proof.
  induction turns as [|t turns IH]; intros rounds counter outbound Hchain.
  - unfold runMessages. simpl. destruct ending as [| |response]; try done.
    by destruct (truthy_str (r_content response)).
  - simpl in Hchain. destruct Hchain as (_ & _ & _ & Hcalls & Hrec & Hrest).
    rewrite runMessages_cons. simpl.
    replace (isToolInteraction (turnAssistant t)) with true
      by (symmetry; by apply assistantToolMessage_interaction).
    rewrite (IH _ _ _ Hrest), andb_true_r.
    replace (partsOf (turnToolResult t))
      with (map toolResultPart (turn_results t)) by done.
    replace (partsOf (turnAssistant t))
      with (partsOf (assistantToolMessage (turn_response t))) by done.
    rewrite toolResultParts_all, toolResultIds_results, assistantToolMessage_ids.
    rewrite (recordedFor_ids _ _ _ Hrec). simpl. by apply bool_decide_eq_true.
Qed.

(** Each turn of a run: where it starts from, and that a round was left
    for it. *)
Lemma chain_turn (availableTools : list UniversalTool) (turns : list Turn)
    (ending : Ending) :
  ∀ rounds counter outbound,
  chain availableTools rounds counter outbound turns ending →
  ∀ j t, turns !! j = Some t →
    (j < rounds)%nat ∧
    turn_outbound t = outbound ++ flat_map turnMessages (take j turns) ∧
    turn_counter t = counter + 2 * Z.of_nat j ∧
    r_toolCalls (turn_response t) ≠ [] ∧
    Forall2 (recordedFor availableTools) (r_toolCalls (turn_response t))
            (turn_results t).
Proof.
  induction turns as [|t0 turns IH]; intros rounds counter outbound Hchain j t Hj;
    [done|].
  simpl in Hchain. destruct Hchain as (Hpos & Ho & Hc & Hcalls & Hrec & Hrest).
  destruct j as [|j]; simpl in Hj.
  - injection Hj as <-. simpl. rewrite app_nil_r. split_and!; try done. lia.
  - destruct (IH _ _ _ Hrest j t Hj) as (Hlt & Ho' & Hc' & Hcalls' & Hrec').
    split_and!; try done; [lia| |lia].
    rewrite Ho'. simpl. by rewrite <- app_assoc.
Qed.

(** The provider calls of a run: one per turn, and one more unless the run
    was paused. *)
Lemma chain_providerCalls (availableTools : list UniversalTool) (turns : list Turn)
    (ending : Ending) :
  ∀ rounds counter outbound,
  chain availableTools rounds counter outbound turns ending →
  providerCalls (runEvents availableTools outbound turns ending)
  = map turn_outbound turns
    ++ match ending with
       | Paused => []
       | Rejected | Answered _ => [outbound ++ flat_map turnMessages turns]
       end ∧
  (length turns ≤ rounds)%nat ∧
  (ending = Paused → length turns = rounds) ∧
  (ending ≠ Paused → (length turns < rounds)%nat).
Proof.
  induction turns as [|t turns IH]; intros rounds counter outbound Hchain.
  - unfold runEvents. simpl. rewrite app_nil_r. simpl in Hchain.
    destruct ending as [| |response]; simpl; split_and!; try done; try lia.
    all: destruct Hchain; lia.
  - simpl in Hchain. destruct Hchain as (Hpos & Ho & Hc & Hcalls & Hrec & Hrest).
    destruct (IH _ _ _ Hrest) as (Hcallsrest & Hle & Hpaused & Hnot).
    rewrite (runEvents_cons _ _ _ _ _ Ho), providerCalls_app, providerCalls_turnEvents.
    rewrite Hcallsrest. simpl. split_and!.
    + f_equal. f_equal. destruct ending; try done; by rewrite <- app_assoc.
    + lia.
    + intros He. specialize (Hpaused He). lia.
    + intros He. specialize (Hnot He). lia.
Qed.

(** While the budget lasts, the provider is called again after a turn, on
    the outbound list of the turn extended by its two messages. *)
Lemma chain_next_call (availableTools : list UniversalTool) (turns : list Turn)
    (ending : Ending) rounds counter outbound (j : nat) (t : Turn) :
  chain availableTools rounds counter outbound turns ending →
  turns !! j = Some t → (S j < rounds)%nat →
  providerCalls (runEvents availableTools outbound turns ending) !! j
  = Some (turn_outbound t) ∧
  providerCalls (runEvents availableTools outbound turns ending) !! S j
  = Some (turn_outbound t ++ turnMessages t).
Proof.
  intros Hchain Hj Hlt.
  destruct (chain_providerCalls _ _ _ _ _ _ Hchain) as (-> & Hle & Hpaused & Hnot).
  destruct (chain_turn _ _ _ _ _ _ Hchain j t Hj) as (_ & Ho & _).
  pose proof (lookup_lt_Some _ _ _ Hj) as Hjlen.
  split.
  - rewrite lookup_app_l by (by rewrite length_map).
    by rewrite list_lookup_fmap, Hj.
  - destruct (turns !! S j) as [t'|] eqn:Hnext.
    + rewrite lookup_app_l
        by (rewrite length_map; by apply lookup_lt_Some in Hnext).
      rewrite list_lookup_fmap, Hnext. simpl. f_equal.
      destruct (chain_turn _ _ _ _ _ _ Hchain (S j) t' Hnext) as (_ & Ho' & _).
      rewrite Ho', Ho, (take_S_r _ _ _ Hj), flat_map_app. simpl.
      by rewrite <- app_assoc.
    + apply lookup_ge_None in Hnext.
      assert (Hlen : length turns = S j) by lia.
      assert (Hend : ending ≠ Paused) by (intros He; specialize (Hpaused He); lia).
      rewrite lookup_app_r by (rewrite length_map; lia).
      rewrite length_map, Hlen, Nat.sub_diag.
      assert (Hall : flat_map turnMessages turns
                     = flat_map turnMessages (take j turns) ++ turnMessages t).
      { rewrite <- (firstn_all turns) at 1. rewrite Hlen, (take_S_r _ _ _ Hj).
        rewrite flat_map_app. by simpl. }
      rewrite Hall, Ho. destruct ending; [done| |]; simpl; by rewrite <- app_assoc.
Qed.

End Chains.

Lemma eraseId_deref (h h' : Heap) (l : loc) :
  map eraseId h' = map eraseId h → eraseId (deref h' l) = eraseId (deref h l).
Proof.
  intros Heq. unfold deref.
  assert (Hlen : length h' = length h).
  { apply (f_equal length) in Heq. by rewrite !length_map in Heq. }
  destruct (decide (l < length h)%nat) as [Hl|Hl].
  - apply (f_equal (fun x => x !! l)) in Heq. rewrite !list_lookup_fmap in Heq.
    rewrite (list_lookup_lookup_total_lt h l Hl) in Heq.
    rewrite (list_lookup_lookup_total_lt h' l) in Heq by lia.
    cbn [fmap option_fmap option_map] in Heq.
    by apply (inj Some) in Heq.
  - rewrite !list_lookup_total_alt.
    rewrite (lookup_ge_None_2 h) by lia. by rewrite (lookup_ge_None_2 h') by lia.
Qed.

Section SendMessageChain.

Context {World : Type}.
Variable JSON_stringify : jsval → option string.

Abbreviation State := (@State World).
Abbreviation UniversalTool := (@UniversalTool World).
Abbreviation AIProvider := (@AIProvider World).
Abbreviation Options := (@Options World).

Lemma sameButIds_history (s s' : State) :
  sameButIds s s' → map eraseId (historyValues s') = map eraseId (historyValues s).
Proof.
  intros (Hh & _ & Hc & _). unfold historyValues. rewrite Hc, !map_map.
  apply map_ext. intros l. by apply eraseId_deref.
Qed.

(** Pairing of the stored history is kept by the steps before the loop. *)
Lemma beginTurn_paired (userMessage : string) (options : Options) (s : State) :
  wellFormed s → toolTurnsPaired (historyValues s) = true →
  toolTurnsPaired (historyValues (beginTurn userMessage options s)) = true.
Proof.
  intros Hw Hp. destruct (beginTurn_spec userMessage options s) as [Hsame Hgrow].
  pose proof (sameButIds_wellFormed _ _ Hsame Hw) as Hw1.
  unfold historyValues. rewrite (grows_history_values _ _ _ _ Hw1 Hgrow).
  apply toolTurnsPaired_app.
  - fold (historyValues (ensureHistoryMessageIds s)).
    by rewrite <- toolTurnsPaired_eraseId, (sameButIds_history _ _ Hsame),
               toolTurnsPaired_eraseId.
  - unfold userMessageAdded. by destruct (_ && _).
Qed.

(** [sendMessage_turns] with the turns of the run made explicit. *)
Lemma sendMessage_chain (userMessage : string) (options : Options) (s : State)
    (provider : AIProvider) :
  wellFormed s → getProvider (manager s) = Some provider →
  let s1 := beginTurn userMessage options s in
  let MAX := maxIterationsFor options (isContinuationMarker userMessage) in
  let outbound := outboundValues JSON_stringify userMessage options s in
  let run := sendMessage JSON_stringify userMessage options s in
  ∃ prelude turns ending,
    providerCalls prelude = [] ∧
    trace run.2 = trace s ++ prelude ++ runEvents (tools (manager s)) outbound turns ending ∧
    chain (tools (manager s)) (Z.to_nat MAX) (messageIdCounter (manager s1))
          outbound turns ending ∧
    historyValues run.2
    = historyValues s1 ++ runMessages (messageIdCounter (manager s1)) turns ending ∧
    wellFormed run.2.
Proof.
  intros Hw Hprov s1 MAX outbound run.
  destruct (sendMessage_turns JSON_stringify userMessage options s provider Hw Hprov)
    as (prelude & events & appended & Hnone & Htrace & Hturns & Hvalues & Hwf & _).
  destruct (Turns_chain _ _ _ _ _ _ Hturns) as (turns & ending & Hchain & -> & ->).
  exists prelude, turns, ending. split_and!; done.
Qed.

End SendMessageChain.

(** ** Iteration budget and tool turns *)

Section BudgetAndTurns.

Context {World : Type}.
Variable JSON_stringify : jsval → option string.

Abbreviation State := (@State World).
Abbreviation UniversalTool := (@UniversalTool World).
Abbreviation AIProvider := (@AIProvider World).
Abbreviation Options := (@Options World).



End BudgetAndTurns.

(** C1. The end-to-end scenario: provider P first asks for [echo] on "hi"
    and then answers "done"; [sendMessage("hi")] leaves the four messages
    user "hi", assistant with the tool-use part, user with the tool-result
    part "hi", assistant "done", with ids 1 to 4, and calls P twice. *)
Theorem sendMessage_end_to_end (stringify : jsval → option string) :
  let run := sendMessage stringify "hi" Stubs.defaults (Stubs.start Stubs.managerP) in
  map (fun m => (_id m, role m, content m)) (historyValues run.2)
  = [ (IdNum 1, user, Text "hi");
      (IdNum 2, assistant, Blocks [ToolUse "call_0" "echo" (JStr "hi")]);
      (IdNum 3, user, Blocks [ToolResult "call_0" "hi" false None]);
      (IdNum 4, assistant, Text "done") ] ∧
  length (providerCalls (trace run.2)) = 2%nat ∧
  world run.2 = 2%nat ∧
  handlerCalls (trace run.2) = [("echo", JStr "hi")] ∧
  ∃ r, run.1 = Ok r ∧ x_content r = "done" ∧ needsContinuation r = false.
Proof.
  intros run. vm_compute. split_and!; try reflexivity.
  eexists. split_and!; reflexivity.
Qed.

Lemma start_wellFormed (m : @AIManager Stubs.Calls) :
  conversationHistory m = [] → wellFormed (Stubs.start m).
Proof. intros Hc. unfold wellFormed, valid_locs. simpl. rewrite Hc. constructor. Qed.

Lemma alwaysCalling_alwaysCallsTools : alwaysCallsTools Stubs.alwaysCalling.
Proof. intros outbound availableTools options w. by eexists _, _. Qed.



(** ** Error results of tool calls *)

Section ErrorResults.

Context {World : Type}.
Variable JSON_stringify : jsval → option string.

Abbreviation State := (@State World).
Abbreviation UniversalTool := (@UniversalTool World).
Abbreviation AIProvider := (@AIProvider World).
Abbreviation Options := (@Options World).

(** A batch is executed part by part. *)
Lemma executeToolCalls_app (before after : list ToolCall)
    (availableTools : list UniversalTool) :
  ∀ s : State,
  executeToolCalls (before ++ after) availableTools s
  = let first := executeToolCalls before availableTools s in
    let rest := executeToolCalls after availableTools first.2 in
    (first.1 ++ rest.1, rest.2).
Proof.
  induction before as [|call before IH]; intros s; simpl.
  - by destruct (executeToolCalls after availableTools s).
  - destruct (executeToolCall availableTools call s) as [result s1].
    rewrite IH. simpl.
    destruct (executeToolCalls before availableTools s1) as [results s2]. simpl.
    by destruct (executeToolCalls after availableTools s2).
Qed.

Lemma executeToolCalls_unknown (before after : list ToolCall) (call : ToolCall)
    (availableTools : list UniversalTool) (s : State) :
  findTool availableTools (call_name call) = None →
  let first := executeToolCalls before availableTools s in
  let rest := executeToolCalls after availableTools first.2 in
  executeToolCalls (before ++ call :: after) availableTools s
  = (first.1 ++ unknownToolResult call :: rest.1, rest.2).
Proof.
  intros Hfind. rewrite executeToolCalls_app. simpl.
  unfold executeToolCall. rewrite Hfind.
  by destruct (executeToolCalls after availableTools _).
Qed.

Lemma executeToolCalls_thrown (before after : list ToolCall) (call : ToolCall)
    (availableTools : list UniversalTool) (s : State) (tool : UniversalTool)
    (m : string) (w' : World) :
  findTool availableTools (call_name call) = Some tool →
  let first := executeToolCalls before availableTools s in
  handler tool (call_arguments call) (world first.2) = (Throws m, w') →
  let rest := executeToolCalls after availableTools
                (set_world w' (log (CallHandler (call_name call) (call_arguments call))
                                   first.2)) in
  executeToolCalls (before ++ call :: after) availableTools s
  = (first.1 ++ errorResult call m :: rest.1, rest.2).
Proof.
  intros Hfind first Hthrows. rewrite executeToolCalls_app. simpl.
  unfold executeToolCall. rewrite Hfind. simpl. fold first. rewrite Hthrows.
  by destruct (executeToolCalls after availableTools _).
Qed.

(** The entry of a turn for the [k]-th call of its response. *)
Lemma chain_result_at (availableTools : list UniversalTool) (turns : list Turn)
    (ending : Ending) rounds counter outbound (j k : nat) (t : Turn) (call : ToolCall) :
  chain availableTools rounds counter outbound turns ending →
  turns !! j = Some t → r_toolCalls (turn_response t) !! k = Some call →
  ∃ result, turn_results t !! k = Some result ∧
            partsOf (turnToolResult t) !! k = Some (toolResultPart result) ∧
            recordedFor availableTools call result.
Proof.
  intros Hchain Hj Hk.
  destruct (chain_turn _ _ _ _ _ _ Hchain j t Hj) as (_ & _ & _ & _ & Hrec).
  destruct (Forall2_lookup_l _ _ _ _ _ Hrec Hk) as (result & Hres & Hfor).
  exists result. split_and!; [done| |done].
  replace (partsOf (turnToolResult t)) with (map toolResultPart (turn_results t)) by done.
  by rewrite list_lookup_fmap, Hres.
Qed.

Lemma iteration_never_rejected (provider : AIProvider) (options : Options)
    (v : LoopVars) (s : State) :
  neverRejects provider → ∃ v', (iteration provider options v s).1 = Ok v'.
Proof.
  intros Hnever. unfold iteration. cbv zeta.
  match goal with
  | |- context [callAPI provider ?o ?t ?p ?w] =>
      destruct (Hnever o t p w) as (response & w' & ->)
  end.
  destruct (r_toolCalls response) as [|call calls].
  - destruct (finalIteration _ _ _ _). simpl. eauto.
  - destruct (toolIteration _ _ _ _). simpl. eauto.
Qed.

Lemma loop_never_rejected (provider : AIProvider) (options : Options) (MAX : Z) :
  neverRejects provider →
  ∀ (rounds : nat) (v : LoopVars) (s : State),
  ∃ v', (loop rounds provider options MAX v s).1 = Ok v'.
Proof.
  intros Hnever. induction rounds as [|rounds IH]; intros v s; simpl.
  - destruct (_ && _); eauto.
  - destruct (_ && _); [|eauto].
    destruct (iteration_never_rejected provider options v s Hnever) as (v1 & Hv1).
    destruct (iteration provider options v s) as [res s1]. simpl in Hv1. subst res.
    apply IH.
Qed.

Lemma finish_answered (MAX : Z) (v : LoopVars) :
  is_Some (finalResponse v) → ∃ r, finish MAX v = Ok r.
Proof.
  intros [r Hr]. unfold finish. rewrite Hr.
  destruct (_ && _); simpl; eauto.
Qed.

(** With a provider that answers every call and a budget of at least one
    round trip, [sendMessage] returns a result whatever the handlers do. *)
Lemma sendMessage_returns (userMessage : string) (options : Options) (s : State)
    (provider : AIProvider) :
  wellFormed s → getProvider (manager s) = Some provider →
  neverRejects provider →
  0 < maxIterationsFor options (isContinuationMarker userMessage) →
  ∃ r, (sendMessage JSON_stringify userMessage options s).1 = Ok r.
Proof.
  intros Hw Hprov Hnever Hpos. unfold sendMessage. rewrite Hprov.
  pose proof (prepareMessages_spec JSON_stringify userMessage options s Hw) as Hprep.
  destruct (prepareMessages JSON_stringify userMessage options s) as [messages s2].
  simpl in Hprep. destruct Hprep as (Hi & _).
  destruct Hi as (_ & Hr & _). simpl in Hr.
  assert (Hvalid : valid_locs (heap s2) messages).
  { eapply Forall_impl; [exact Hr|]. intros l Hl. simpl in Hl. lia. }
  set (MAX := maxIterationsFor options (isContinuationMarker userMessage)) in *.
  set (v0 := mkLoopVars messages true None [] [] 0).
  destruct (loop_turns provider options MAX (Z.to_nat MAX) v0 s2 eq_refl
              ltac:(simpl; lia) Hvalid)
    as (events & appended & _ & _ & Hexit).
  destruct (loop_never_rejected provider options MAX Hnever (Z.to_nat MAX) v0 s2)
    as (v' & Hv').
  destruct (loop (Z.to_nat MAX) provider options MAX v0 s2) as [res s3].
  simpl in Hv', Hexit. subst res. simpl.
  destruct Hexit as (_ & _ & Hsome).
  apply finish_answered, Hsome. right. lia.
Qed.

End ErrorResults.

Section ErrorTurns.

Context {World : Type}.
Variable JSON_stringify : jsval → option string.

Abbreviation State := (@State World).
Abbreviation UniversalTool := (@UniversalTool World).
Abbreviation AIProvider := (@AIProvider World).
Abbreviation Options := (@Options World).



End ErrorTurns.




(** ** The augmented prompt *)

Lemma append_assoc (a b c : string) : (a +:+ b) +:+ c = a +:+ (b +:+ c).
Proof.
  induction a as [|x a IH]; [done|].
  change (String x ((a +:+ b) +:+ c) = String x (a +:+ (b +:+ c))). by rewrite IH.
Qed.

Lemma trimEnd_bracket (s : string) : trimEnd (s +:+ "]") = s +:+ "]".
Proof.
  induction s as [|c r IH]; [done|].
  change (String c r +:+ "]") with (String c (r +:+ "]")).
  cbn [trimEnd]. rewrite IH. by destruct r.
Qed.

Lemma content_eraseId (l l' : list Message) :
  map eraseId l = map eraseId l' → map content l = map content l'.
Proof.
  intros Heq. apply (f_equal (map content)) in Heq.
  rewrite !map_map in Heq. exact Heq.
Qed.

Section AugmentedPrompt.

Context {World : Type}.
Variable JSON_stringify : jsval → option string.

Abbreviation State := (@State World).
Abbreviation UniversalTool := (@UniversalTool World).
Abbreviation AIProvider := (@AIProvider World).
Abbreviation Options := (@Options World).

(** The summary put into the prompt, by what the [code_summary] tool did. *)
Lemma finalSummaryOf_cases (outcome : option Outcome) :
  let final := finalSummaryOf (summaryTextOf JSON_stringify outcome) in
  (∀ summary, outcome = Some (Returns (JStr summary)) →
     final = if truthy_str (trimEnd summary) then trimEnd summary
             else "[No summary generated]") ∧
  (outcome = Some (Returns JUndefined) ∨ outcome = Some (Returns JNull) →
     final = "[code_summary returned no data]") ∧
  (∀ v, outcome = Some (Returns v) →
     (∀ summary, v ≠ JStr summary) → v ≠ JUndefined → v ≠ JNull →
     final = finalSummaryOf (JSON_stringify v)) ∧
  (∀ m, outcome = Some (Throws m) →
     final = "[Error generating summary: " +:+ m +:+ "]") ∧
  (outcome = None → final = "[code_summary tool unavailable]").
Proof.
  intros final. unfold final. split_and!.
  - by intros summary ->.
  - by intros [-> | ->].
  - intros v -> Hstr Hundef Hnull.
    destruct v as [| | | |summary| |]; try done; congruence.
  - intros m ->. unfold finalSummaryOf, summaryTextOf.
    replace ("[Error generating summary: " +:+ m +:+ "]")
      with (("[Error generating summary: " +:+ m) +:+ "]")
      by apply append_assoc.
    by rewrite trimEnd_bracket.
  - by intros ->.
Qed.

Lemma beginTurn_world (userMessage : string) (options : Options) (s : State) :
  world (beginTurn userMessage options s) = world s.
Proof.
  destruct (ensureHistoryMessageIds_sameButIds s) as (_ & _ & _ & _ & _ & _ & _ & Hworld & _).
  unfold beginTurn. destruct (_ && _); [|done].
  unfold addMessage, appendMessage.
  destruct (ensureMessageId _ _) as [message counter]. simpl. done.
Qed.

(** What the [code_summary] tool does when [sendMessage] calls it is what it
    does in the state [sendMessage] is called in. *)
Lemma codeSummaryOutcome_prepared (userMessage : string) (options : Options)
    (s : State) :
  wellFormed s →
  codeSummaryOutcome (outboundMessages options (beginTurn userMessage options s)).2
  = codeSummaryOutcome s.
Proof.
  intros Hw.
  pose proof (beginTurn_wellFormed userMessage options s Hw) as Hw1.
  destruct (outboundMessages_spec options _ Hw1) as (_ & Hm & Hworld & _).
  destruct (beginTurn_spec userMessage options s) as [Hsame Hgrow].
  unfold codeSummaryOutcome. rewrite Hm, Hworld, beginTurn_world.
  destruct Hgrow as (_ & _ & _ & _ & _ & _ & Ht1 & _).
  destruct Hsame as (_ & _ & _ & _ & _ & Ht0 & _).
  by rewrite Ht1, Ht0.
Qed.

(** The first provider call of a run receives the outbound list, and every
    later one a list that starts with it. *)
Lemma chain_calls_outbound (availableTools : list UniversalTool) (turns : list Turn)
    (ending : Ending) rounds counter outbound :
  chain availableTools rounds counter outbound turns ending →
  ((0 < rounds)%nat →
     head (providerCalls (runEvents availableTools outbound turns ending))
     = Some outbound) ∧
  (∀ sent, sent ∈ providerCalls (runEvents availableTools outbound turns ending) →
     ∃ more, sent = outbound ++ more).
Proof.
  intros Hchain.
  destruct (chain_providerCalls _ _ _ _ _ _ Hchain) as (Hcalls & _ & Hpaused & _).
  rewrite Hcalls. split.
  - intros Hpos. destruct turns as [|t turns]; simpl.
    + destruct ending; simpl; [specialize (Hpaused eq_refl); simpl in *; lia| |];
        by rewrite app_nil_r.
    + simpl in Hchain. by destruct Hchain as (_ & -> & _).
  - intros sent Hin. apply elem_of_app in Hin as [Hin|Hin].
    + apply list_elem_of_fmap in Hin as (t & -> & Ht).
      apply list_elem_of_lookup in Ht as (j & Hj).
      destruct (chain_turn _ _ _ _ _ _ Hchain j t Hj) as (_ & -> & _). eauto.
    + destruct ending; [by apply elem_of_nil in Hin| |];
        apply list_elem_of_singleton in Hin; eauto.
Qed.

Lemma userMessageAdded_content (userMessage : string) (options : Options) (counter : Z) :
  isContinuationMarker userMessage = false →
  map content (userMessageAdded userMessage options counter)
  = if preAddedUserMessage options then [] else [Text userMessage].
Proof.
  intros Hc. unfold userMessageAdded. rewrite Hc. simpl.
  by destruct (preAddedUserMessage options).
Qed.

(** The contents of the stored messages after the steps before the loop:
    those stored before, and the new user message. *)
Lemma beginTurn_contents (userMessage : string) (options : Options) (s : State) :
  wellFormed s → isContinuationMarker userMessage = false →
  map content (historyValues (beginTurn userMessage options s))
  = map content (historyValues s)
    ++ (if preAddedUserMessage options then [] else [Text userMessage]).
Proof.
  intros Hw Hc. destruct (beginTurn_spec userMessage options s) as [Hsame Hgrow].
  pose proof (sameButIds_wellFormed _ _ Hsame Hw) as Hw1.
  unfold historyValues at 1. rewrite (grows_history_values _ _ _ _ Hw1 Hgrow).
  rewrite map_app, (userMessageAdded_content _ _ _ Hc). f_equal.
  apply content_eraseId. by apply sameButIds_history.
Qed.

End AugmentedPrompt.

Section PromptSent.

Context {World : Type}.
Variable JSON_stringify : jsval → option string.

Abbreviation State := (@State World).
Abbreviation UniversalTool := (@UniversalTool World).
Abbreviation AIProvider := (@AIProvider World).
Abbreviation Options := (@Options World).

(** C10, as the code has it.  In a [sendMessage] call that is not a
    continuation, let [view] be the history view with the system prompt in
    front and [target], at index [i], its latest user message with text
    content.  The list the provider is called with is [view] with the
    content of [target] replaced by "Code summary:", a line feed, the
    summary, two line feeds and the original text; every later provider call
    of the run receives a list that starts with it.  The summary is the
    string the [code_summary] handler returned with the white space at its
    end removed, or "[No summary generated]" when nothing is left; the
    rendering by [JSON.stringify] when it returned another value;
    "[code_summary returned no data]" when it returned [undefined] or [null];
    "[Error generating summary: m]" when it threw an error with message [m];
    "[code_summary tool unavailable]" when no such tool is registered.  The
    contents of the stored messages are those stored before, followed by
    the new user message with the original text and the messages of the
    run. *)
Theorem sendMessage_augmented_prompt (userMessage : string) (options : Options)
    (s : State) (provider : AIProvider) (i : nat) (target : Message)
    (original : string) :
  wellFormed s → getProvider (manager s) = Some provider →
  isContinuationMarker userMessage = false →
  let s1 := beginTurn userMessage options s in
  let MAX := maxIterationsFor options (isContinuationMarker userMessage) in
  let view := withSystemPrompt (systemPrompt (manager s1))
                (viewValues (opt_minimizeTokens options)
                   (map (deref (heap s1))
                        (historyWindow (heap s1) (default 0 (opt_limitMessages options))
                                       (conversationHistory (manager s1))))) in
  findLatestUserTextMessageIndex view = Some i → view !! i = Some target →
  content target = Text original →
  let outcome := codeSummaryOutcome s in
  let summary := finalSummaryOf (summaryTextOf JSON_stringify outcome) in
  let augmented := "Code summary:" +:+ newline +:+ summary +:+ newline +:+ newline
                   +:+ original in
  let outbound := <[i := set_content (Text augmented) target]> view in
  let run := sendMessage JSON_stringify userMessage options s in
  let calls := providerCalls (drop (length (trace s)) (trace run.2)) in
  (0 < MAX → head calls = Some outbound) ∧
  (∀ sent, sent ∈ calls → ∃ more, sent = outbound ++ more) ∧
  ((∀ text, outcome = Some (Returns (JStr text)) →
      summary = if truthy_str (trimEnd text) then trimEnd text
                else "[No summary generated]") ∧
   (outcome = Some (Returns JUndefined) ∨ outcome = Some (Returns JNull) →
      summary = "[code_summary returned no data]") ∧
   (∀ v, outcome = Some (Returns v) →
      (∀ text, v ≠ JStr text) → v ≠ JUndefined → v ≠ JNull →
      summary = finalSummaryOf (JSON_stringify v)) ∧
   (∀ m, outcome = Some (Throws m) →
      summary = "[Error generating summary: " +:+ m +:+ "]") ∧
   (outcome = None → summary = "[code_summary tool unavailable]")) ∧
  ∃ turns ending,
    map content (historyValues run.2)
    = map content (historyValues s)
      ++ (if preAddedUserMessage options then [] else [Text userMessage])
      ++ map content (runMessages (messageIdCounter (manager s1)) turns ending).
Proof.
  intros Hw Hprov Hfresh s1 MAX view Hlatest Htarget Hcontent outcome summary
         augmented outbound run calls.
  destruct (sendMessage_chain JSON_stringify userMessage options s provider Hw Hprov)
    as (prelude & turns & ending & Hnone & Htrace & Hchain & Hvalues & _).
  fold s1 MAX run in Htrace, Hchain, Hvalues.
  assert (Hout : outboundValues JSON_stringify userMessage options s = outbound).
  { unfold outboundValues. fold s1. rewrite Hfresh. simpl. fold view.
    unfold s1. rewrite (codeSummaryOutcome_prepared userMessage options s Hw).
    unfold augmentedValues. by rewrite Hlatest, Htarget, Hcontent. }
  rewrite Hout in Htrace, Hchain.
  assert (Hcalls : calls = providerCalls (runEvents (tools (manager s)) outbound turns ending)).
  { unfold calls. rewrite Htrace, drop_app_length, providerCalls_app, Hnone. done. }
  destruct (chain_calls_outbound _ _ _ _ _ _ Hchain) as [Hhead Hall].
  rewrite Hcalls. split; [|split; [|split]].
  - intros Hpos. apply Hhead. lia.
  - done.
  - apply finalSummaryOf_cases.
  - exists turns, ending. rewrite Hvalues, map_app. unfold s1.
    by rewrite (beginTurn_contents userMessage options s Hw Hfresh), <- app_assoc.
Qed.

End PromptSent.

(** The prompt sent when [code_summary] returns "abc " and the user
    says "hi". *)
Lemma sendMessage_augmented_prompt_witness :
  head (providerCalls
          (sendMessage Stubs.noStringify "hi" Stubs.defaults
             (Stubs.start (Stubs.managerSummarizing (JStr "abc ")))).2.(trace))
  = Some [set_content
            (Text ("Code summary:" +:+ newline +:+ "abc" +:+ newline +:+ newline +:+ "hi"))
            (set_id (IdNum 1) (newMessage user (Text "hi")))].
Proof.
  apply (sendMessage_augmented_prompt Stubs.noStringify "hi" Stubs.defaults
           (Stubs.start (Stubs.managerSummarizing (JStr "abc "))) Stubs.answering
           0%nat (set_id (IdNum 1) (newMessage user (Text "hi"))) "hi"
           (start_wellFormed (Stubs.managerSummarizing (JStr "abc ")) eq_refl)
           eq_refl eq_refl eq_refl eq_refl eq_refl).
  reflexivity.
Defined.

(** The summary in the prompt is not always what the handler returned: the
    white space at the end of "abc " is gone, so the prompt does not start
    with "Code summary:", a line feed and "abc "; and for a handler that
    returns [null] the prompt holds a placeholder though the tool is
    registered and did not fail. *)
Lemma sendMessage_prompt_rewrites_summary :
  let sent (summary : jsval) :=
    map (map content)
        (providerCalls
           (sendMessage Stubs.noStringify "hi" Stubs.defaults
              (Stubs.start (Stubs.managerSummarizing summary))).2.(trace)) in
  sent (JStr "abc ")
  = [[Text ("Code summary:" +:+ newline +:+ "abc" +:+ newline +:+ newline +:+ "hi")]] ∧
  String.prefix ("Code summary:" +:+ newline +:+ "abc ")
                ("Code summary:" +:+ newline +:+ "abc" +:+ newline +:+ newline +:+ "hi")
  = false ∧
  sent JNull
  = [[Text ("Code summary:" +:+ newline +:+ "[code_summary returned no data]"
            +:+ newline +:+ newline +:+ "hi")]] ∧
  sent (JStr "")
  = [[Text ("Code summary:" +:+ newline +:+ "[No summary generated]"
            +:+ newline +:+ newline +:+ "hi")]].
Proof. intros sent. vm_compute. split_and!; reflexivity. Qed.

(** ** The order of message ids *)

Lemma freshIds_length (n : nat) : ∀ counter, length (freshIds counter n) = n.
Proof. induction n as [|n IH]; intros counter; simpl; [done|]. by rewrite IH. Qed.

Lemma freshIds_app (a b : nat) :
  ∀ counter, freshIds counter (a + b)
             = freshIds counter a ++ freshIds (counter + Z.of_nat a) b.
Proof.
  induction a as [|a IH]; intros counter; simpl freshIds.
  - simpl. by rewrite Z.add_0_r.
  - rewrite IH. simpl. do 3 f_equal. lia.
Qed.

Lemma freshIds_bounds (n : nat) :
  ∀ counter, Forall (fun x => counter < x ≤ counter + Z.of_nat n) (freshIds counter n).
Proof.
  induction n as [|n IH]; intros counter; simpl freshIds; constructor; [lia|].
  eapply Forall_impl; [apply IH|]. intros x Hx. simpl in Hx. lia.
Qed.

Lemma freshIds_sorted (n : nat) : ∀ counter, StronglySorted Z.lt (freshIds counter n).
Proof.
  induction n as [|n IH]; intros counter; simpl; constructor; [apply IH|].
  eapply Forall_impl; [apply freshIds_bounds|]. intros x Hx. simpl in Hx. lia.
Qed.

(** The ids of the view are ids of the messages it was made from, in their
    order. *)
Lemma viewValues_ids (minimize : bool) (history : list Message) :
  map _id (viewValues minimize history) `sublist_of` map _id history.
Proof.
  unfold viewValues. destruct minimize; simpl; [|done].
  set (Inv := fun (k : nat) (acc : list Message) =>
                map _id acc `sublist_of` map _id (take k history)).
  assert (Hfinal : Inv (length history)
            (fold_left (viewStepValues (collectToolInfo history)
                          (findLastToolInteractionIndex history)
                          (lastToolUseIdsOf history (findLastToolInteractionIndex history)))
                       (indexed history) [])).
  { apply (fold_indexed_ind _ Inv); [by unfold Inv|].
    intros k msg acc Hk Hacc. unfold Inv in *.
    pose proof (viewStepValues_cases (collectToolInfo history)
                  (findLastToolInteractionIndex history)
                  (lastToolUseIdsOf history (findLastToolInteractionIndex history))
                  acc k msg) as Hcase.
    revert Hcase. generalize (viewStepValues (collectToolInfo history)
                  (findLastToolInteractionIndex history)
                  (lastToolUseIdsOf history (findLastToolInteractionIndex history))
                  acc (k, msg)).
    intros next Hcase.
    rewrite (take_S_r _ _ _ Hk), map_app. simpl.
    assert (Hpush : ∀ m, _id m = _id msg →
              map _id (acc ++ [m]) `sublist_of` map _id (take k history) ++ [_id msg]).
    { intros m Hm. rewrite map_app. simpl. rewrite Hm. by apply sublist_app. }
    destruct Hcase
      as [Hlast|Hnot Hblocks Hres|Hnot Hblocks Hfirst Hres
         |parts transformed summaryOnly Hnot Hrole Hcontent Htrans Hprev
         |parts transformed summaryMeta prev Hnot Hrole Hcontent Htrans Hprev Hso].
    - by apply Hpush.
    - by apply Hpush.
    - by apply sublist_inserts_r.
    - pose proof (transformedMessage_spec (collectToolInfo history) msg parts) as Hspec.
      rewrite Htrans in Hspec. simpl in Hspec. destruct Hspec as (_ & Hid & _).
      destruct (finishTransformed transformed) as [final|] eqn:Hfin.
      + apply Hpush. destruct (finishTransformed_Some _ _ Hfin) as (_ & Hid' & _).
        congruence.
      + by apply sublist_inserts_r.
    - apply sublist_inserts_r.
      destruct (mergeIntoPrev_spec prev summaryMeta Hso) as (_ & Hid & _).
      apply last_Some in Hprev as (front & ->).
      rewrite removelast_last, !map_app in *. simpl in *. by rewrite Hid. }
  unfold Inv in Hfinal. by rewrite firstn_all in Hfinal.
Qed.

Lemma historyWindow_suffix (h : Heap) (limit : Z) (ch : list loc) :
  ∃ n, historyWindow h limit ch = drop n ch.
Proof.
  unfold historyWindow, sliceHistoryByUserMessages.
  repeat case_match; first [by exists 0%nat | by eexists].
Qed.

Section MessageIdOrder.

Context {World : Type}.
Variable JSON_stringify : jsval → option string.

Abbreviation State := (@State World).
Abbreviation UniversalTool := (@UniversalTool World).
Abbreviation AIProvider := (@AIProvider World).
Abbreviation Options := (@Options World).

Lemma idsInOrder_entry (s : State) (l : loc) :
  idsInOrder s → l ∈ conversationHistory (manager s) →
  ∃ n, _id (deref (heap s) l) = IdNum n ∧ n ≤ messageIdCounter (manager s).
Proof.
  intros (ns & Hids & _ & Hle) Hl.
  apply list_elem_of_lookup in Hl as (i & Hi).
  assert (Hat : map _id (historyValues s) !! i = Some (_id (deref (heap s) l))).
  { unfold historyValues. by rewrite !list_lookup_fmap, Hi. }
  rewrite Hids, list_lookup_fmap in Hat.
  destruct (ns !! i) as [n|] eqn:Hn; [|done]. injection Hat as Hat.
  exists n. split; [done|]. rewrite Forall_forall in Hle. apply Hle.
  by eapply list_elem_of_lookup_2.
Qed.

(** A stored message whose id is a number not above the counter is left as
    it is. *)
Lemma ensureMessageIdAt_idle (l : loc) (s : State) (n : Z) :
  _id (deref (heap s) l) = IdNum n → n ≤ messageIdCounter (manager s) →
  ensureMessageIdAt l s = s.
Proof.
  intros Hid Hle. unfold ensureMessageIdAt, ensureMessageId. rewrite Hid.
  replace (messageIdCounter (manager s) <? n) with false
    by (symmetry; apply Z.ltb_ge; lia).
  assert (Hstore : store l (deref (heap s) l) (heap s) = heap s).
  { unfold store, deref. destruct (decide (l < length (heap s))%nat) as [Hl|Hl].
    - apply list_insert_id. by apply list_lookup_lookup_total_lt.
    - apply list_insert_ge. lia. }
  rewrite Hstore. by destruct s as [[] ? ? ?].
Qed.

Lemma ensureHistoryMessageIds_idle (s : State) :
  idsInOrder s → ensureHistoryMessageIds s = s.
Proof.
  intros Hids. unfold ensureHistoryMessageIds.
  assert (Hgen : ∀ ls, (∀ l, l ∈ ls → l ∈ conversationHistory (manager s)) →
            fold_left (fun s0 entry => ensureMessageIdAt entry s0) ls s = s).
  { induction ls as [|l ls IH]; intros Hin; simpl; [done|].
    destruct (idsInOrder_entry s l Hids) as (n & Hid & Hle); [apply Hin; left|].
    rewrite (ensureMessageIdAt_idle l s n Hid Hle). apply IH.
    intros l' Hl'. apply Hin. by right. }
  by apply Hgen.
Qed.

(** Ids handed out by the counter keep the stored ids in order. *)
Lemma idsInOrder_extend (s s' : State) (appended : list Message) :
  idsInOrder s →
  historyValues s' = historyValues s ++ appended →
  map _id appended
  = map IdNum (freshIds (messageIdCounter (manager s)) (length appended)) →
  messageIdCounter (manager s')
  = messageIdCounter (manager s) + Z.of_nat (length appended) →
  idsInOrder s'.
Proof.
  intros (ns & Hids & Hsorted & Hle) Hvalues Hfresh Hcounter.
  exists (ns ++ freshIds (messageIdCounter (manager s)) (length appended)).
  pose proof (freshIds_bounds (length appended) (messageIdCounter (manager s))) as Hb.
  rewrite Forall_forall in Hle, Hb.
  split_and!.
  - by rewrite Hvalues, !map_app, Hids, Hfresh.
  - apply StronglySorted_app_2; [|done|apply freshIds_sorted].
    intros x1 x2 H1 H2. specialize (Hle _ H1). specialize (Hb _ H2). simpl in *. lia.
  - apply Forall_forall. intros x Hx. apply elem_of_app in Hx as [Hx|Hx].
    + specialize (Hle _ Hx). simpl in Hle. lia.
    + specialize (Hb _ Hx). simpl in Hb. lia.
Qed.

Lemma Turns_ids (availableTools : list UniversalTool) rounds counter outbound
    events appended :
  Turns availableTools rounds counter outbound events appended →
  map _id appended = map IdNum (freshIds counter (length appended)).
Proof.
  induction 1 as [| |rounds counter outbound response Hcalls
                  |rounds counter outbound response results events appended
                     Hcalls Hrec Hturns IH]; try done.
  - by destruct (truthy_str (r_content response)).
  - simpl. rewrite IH. by replace (counter + 1 + 1) with (counter + 2) by lia.
Qed.

Lemma userMessageAdded_ids (userMessage : string) (options : Options) (counter : Z) :
  map _id (userMessageAdded userMessage options counter)
  = map IdNum (freshIds counter (length (userMessageAdded userMessage options counter))).
Proof. unfold userMessageAdded. by destruct (_ && _). Qed.

(** What an operation other than [clearHistory] does to the history: the
    stored messages stay as they are, ids included, and the messages it
    appends take the next ids of the counter. *)
Lemma perform_appends (op : Operation) (s : State) :
  wellFormed s → idsInOrder s → isClear op = false →
  ∃ appended,
    historyValues (perform JSON_stringify op s) = historyValues s ++ appended ∧
    map _id appended
    = map IdNum (freshIds (messageIdCounter (manager s)) (length appended)) ∧
    messageIdCounter (manager (perform JSON_stringify op s))
    = messageIdCounter (manager s) + Z.of_nat (length appended) ∧
    wellFormed (perform JSON_stringify op s).
Proof.
  intros Hw Hids Hop.
  assert (Hnone : ∃ appended : list Message,
            historyValues s = historyValues s ++ appended ∧
            map _id appended
            = map IdNum (freshIds (messageIdCounter (manager s)) (length appended)) ∧
            messageIdCounter (manager s)
            = messageIdCounter (manager s) + Z.of_nat (length appended) ∧
            wellFormed s).
  { exists []. rewrite app_nil_r. simpl. split_and!; try done. lia. }
  destruct op as [r c|userMessage options|minimize limit| |]; cbn [perform]; try done.
  - destruct (appendMessage_grows (newMessage r c) s eq_refl) as [_ Hg].
    unfold addMessage. eexists. split_and!.
    + unfold historyValues at 1. by rewrite (grows_history_values _ _ _ _ Hw Hg).
    + done.
    + by destruct Hg as (_ & _ & -> & _).
    + by eapply grows_wellFormed.
  - destruct (getProvider (manager s)) as [provider|] eqn:Hprov;
      [|unfold sendMessage; by rewrite Hprov].
    destruct (sendMessage_turns JSON_stringify userMessage options s provider Hw Hprov)
      as (prelude & events & appended & _ & _ & Hturns & Hvalues & Hwf & _ & _ & _
          & Hcounter & _).
    destruct (beginTurn_spec userMessage options s) as [_ Hgrow].
    rewrite (ensureHistoryMessageIds_idle s Hids) in Hgrow.
    set (s1 := beginTurn userMessage options s) in *.
    set (added := userMessageAdded userMessage options (messageIdCounter (manager s))) in *.
    pose proof (grows_history_values _ _ _ _ Hw Hgrow) as Hvalues1.
    assert (Hcounter1 : messageIdCounter (manager s1)
                        = messageIdCounter (manager s) + Z.of_nat (length added))
      by (by destruct Hgrow as (_ & _ & -> & _)).
    exists (added ++ appended). split_and!.
    + unfold historyValues at 1. rewrite Hvalues, Hvalues1. by rewrite <- app_assoc.
    + rewrite map_app, length_app, freshIds_app, map_app. f_equal.
      * apply userMessageAdded_ids.
      * rewrite <- Hcounter1. by eapply Turns_ids.
    + rewrite Hcounter, Hcounter1, length_app. lia.
    + done.
  - destruct (getHistoryView_sim (conversationHistory (manager s)) minimize limit
                (heap s) Hw) as (Hp & _).
    exists []. rewrite app_nil_r. simpl. split_and!; try done; try lia.
    + unfold historyValues. simpl. by apply preserves_map_deref.
    + unfold wellFormed. simpl. by eapply valid_locs_preserves.
Qed.

Lemma idsInOrder_empty (s : State) :
  conversationHistory (manager s) = [] → wellFormed s ∧ idsInOrder s.
Proof.
  intros Hc. split.
  - unfold wellFormed, valid_locs. rewrite Hc. constructor.
  - exists []. unfold historyValues. rewrite Hc. split_and!; constructor.
Qed.

Lemma perform_idsInOrder (op : Operation) (s : State) :
  wellFormed s ∧ idsInOrder s →
  wellFormed (perform JSON_stringify op s) ∧ idsInOrder (perform JSON_stringify op s).
Proof.
  intros [Hw Hids]. destruct (isClear op) eqn:Hop.
  - destruct op; try done. by apply idsInOrder_empty.
  - destruct (perform_appends op s Hw Hids Hop) as (appended & Hv & Hf & Hc & Hwf).
    split; [done|]. by eapply idsInOrder_extend.
Qed.

Lemma performAll_idsInOrder (ops : list Operation) :
  ∀ s : State, wellFormed s ∧ idsInOrder s →
  wellFormed (fold_left (fun s op => perform JSON_stringify op s) ops s) ∧
  idsInOrder (fold_left (fun s op => perform JSON_stringify op s) ops s).
Proof.
  induction ops as [|op ops IH]; intros s Hs; simpl; [done|].
  by apply IH, perform_idsInOrder.
Qed.

(** The messages of a view carry ids of stored messages, in their order. *)
Lemma viewOfState_ids (minimize : bool) (limit : Z) (s : State) :
  wellFormed s →
  map _id (viewOfState minimize limit s) `sublist_of` map _id (historyValues s).
Proof.
  intros Hw. unfold viewOfState.
  destruct (getHistoryView_sim (conversationHistory (manager s)) minimize limit
              (heap s) Hw) as (_ & _ & _ & ->).
  etrans; [apply viewValues_ids|].
  destruct (historyWindow_suffix (heap s) limit (conversationHistory (manager s)))
    as (n & ->).
  unfold historyValues. rewrite !map_map.
  apply (fmap_sublist (fun l => _id (deref (heap s) l))), sublist_drop.
Qed.

(** C8. From an empty history, after any sequence of [addMessage],
    [sendMessage], [getHistoryView], [getHistory] and [clearHistory] calls the
    stored messages carry numeric ids, each smaller than every later one and
    none above the id counter.  An operation other than [clearHistory] keeps
    the stored messages as they are, ids included, appends its messages
    behind them with the next ids of the counter, and never lowers the
    counter; the messages of a view carry ids of stored messages in their
    order, and the projection leaves the stored messages and the counter
    alone; [clearHistory] empties the history and sets the counter to 0. *)
Theorem message_ids_in_order (ops : list Operation) (s0 : State) :
  conversationHistory (manager s0) = [] →
  let s := fold_left (fun s op => perform JSON_stringify op s) ops s0 in
  idsInOrder s ∧
  (∀ op, isClear op = false →
     ∃ appended,
       historyValues (perform JSON_stringify op s) = historyValues s ++ appended ∧
       map _id appended
       = map IdNum (freshIds (messageIdCounter (manager s)) (length appended)) ∧
       messageIdCounter (manager (perform JSON_stringify op s))
       = messageIdCounter (manager s) + Z.of_nat (length appended)) ∧
  (∀ minimize limit,
     map _id (viewOfState minimize limit s) `sublist_of` map _id (historyValues s) ∧
     historyValues (perform JSON_stringify (GetHistoryView minimize limit) s)
     = historyValues s ∧
     messageIdCounter (manager (perform JSON_stringify (GetHistoryView minimize limit) s))
     = messageIdCounter (manager s)) ∧
  conversationHistory (manager (perform JSON_stringify ClearHistory s)) = [] ∧
  messageIdCounter (manager (perform JSON_stringify ClearHistory s)) = 0.
Proof.
  intros Hempty s.
  destruct (performAll_idsInOrder ops s0 (idsInOrder_empty s0 Hempty)) as [Hw Hids].
  fold s in Hw, Hids. split_and!; try done.
  - intros op Hop.
    destruct (perform_appends op s Hw Hids Hop) as (appended & Hv & Hf & Hc & _).
    by exists appended.
  - intros minimize limit. split_and!; [by apply viewOfState_ids| |done].
    destruct (getHistoryView_sim (conversationHistory (manager s)) minimize limit
                (heap s) Hw) as (Hp & _).
    unfold historyValues. simpl. by apply preserves_map_deref.
Qed.

End MessageIdOrder.

(** The ids after the end-to-end scenario, a projection and one more
    message. *)
Lemma message_ids_in_order_witness :
  let s := fold_left (fun s op => perform Stubs.noStringify op s)
             [SendMessage "hi" Stubs.defaults; GetHistoryView true 0;
              AddMessage user (Text "more")]
             (Stubs.start Stubs.managerP) in
  idsInOrder s ∧ map _id (historyValues s) = map IdNum [1; 2; 3; 4; 5].
Proof.
  split; [|vm_compute; reflexivity].
  apply (message_ids_in_order Stubs.noStringify
           [SendMessage "hi" Stubs.defaults; GetHistoryView true 0;
            AddMessage user (Text "more")]
           (Stubs.start Stubs.managerP) eq_refl).
Defined.

(** ** Malformed provider responses *)

Section Adapters.

Variable JSON_parse : jsval → Result jsval.
Variable randomUUID : nat → string.
Variable js_plus : jsval → jsval → jsval.

(** C7, as the code has it.  On a response object without [content] the
    Claude adapter throws a [TypeError], and so does the OpenAI adapter on one
    without [choices] or with no choice in it; the Gemini adapter on an
    object without [candidates] or with no candidate in it, and the Ollama
    adapter on one without [message], return the result with the empty text
    and no tool calls. *)
Theorem parseResponse_missing_field (fields : list (string * jsval)) :
  (js_field "content" fields = None →
     ClaudeProvider.parseResponse (JObj fields) = Threw TypeError) ∧
  (js_field "choices" fields = None →
     OpenAIProvider.parseResponse JSON_parse (JObj fields) = Threw TypeError) ∧
  (js_field "choices" fields = Some (JArr []) →
     OpenAIProvider.parseResponse JSON_parse (JObj fields) = Threw TypeError) ∧
  (js_field "candidates" fields = None ∨ js_field "candidates" fields = Some (JArr []) →
     isEmptyResult (GeminiProvider.parseResponse randomUUID (JObj fields))) ∧
  (js_field "message" fields = None →
     isEmptyResult (OllamaProvider.parseResponse JSON_parse randomUUID js_plus
                      (JObj fields))) ∧
  ClaudeProvider.parseResponse emptyObject = Threw TypeError ∧
  OpenAIProvider.parseResponse JSON_parse emptyObject = Threw TypeError ∧
  GeminiProvider.parseResponse randomUUID emptyObject
  = Ok (mkParsed (JStr "") [] (JObj []) emptyObject) ∧
  OllamaProvider.parseResponse JSON_parse randomUUID js_plus emptyObject
  = Ok (mkParsed (JStr "") [] (JObj []) emptyObject).
Proof.
  split_and!; try reflexivity.
  - intros Hnone. unfold ClaudeProvider.parseResponse. simpl. by rewrite Hnone.
  - intros Hnone. unfold OpenAIProvider.parseResponse. simpl. by rewrite Hnone.
  - intros Hempty. unfold OpenAIProvider.parseResponse. simpl. by rewrite Hempty.
  - intros [Hnone|Hempty]; unfold GeminiProvider.parseResponse, isEmptyResult; simpl.
    + rewrite Hnone. simpl. destruct (truthy _); eauto.
    + rewrite Hempty. simpl. destruct (truthy _); eauto.
  - intros Hnone. unfold OllamaProvider.parseResponse, isEmptyResult. simpl.
    rewrite Hnone. simpl. eauto.
Qed.

End Adapters.

(** * Further properties *)

(** ** Copies and plain histories *)

(** X1. [getHistoryView(false, limit)] is a deep, independent copy of the
    window of the history it works on, which is the whole history for
    [limit <= 0]: the view holds new, distinct objects with the values of the
    stored messages, the stored messages stay as they are, and a later write
    to a view object or to a stored object does not show in the other. *)
Theorem getHistoryView_full_copy (ch : list loc) (limit : Z) (h : Heap) :
  valid_locs h ch →
  let window := historyWindow h limit ch in
  let view := getHistoryView ch false limit h in
  map (deref view.2) view.1 = map (deref h) window ∧
  (limit ≤ 0 → window = ch) ∧
  NoDup view.1 ∧
  Forall (fun l => (length h ≤ l < length view.2)%nat) view.1 ∧
  map (deref view.2) ch = map (deref h) ch ∧
  (∀ l m, l ∈ view.1 → map (deref (store l m view.2)) ch = map (deref h) ch) ∧
  (∀ l m, l ∈ ch → map (deref (store l m view.2)) view.1 = map (deref h) window).
Proof.
  intros Hvalid window view.
  destruct (getHistoryView_sim ch false limit h Hvalid) as (Hp & Hr & Hn & Hv).
  fold view in Hp, Hr, Hn, Hv. unfold viewValues in Hv. simpl in Hv.
  fold window in Hv.
  assert (Hch : map (deref view.2) ch = map (deref h) ch)
    by (by apply preserves_map_deref).
  split_and!; try done.
  - intros Hle. unfold window, historyWindow.
    by replace (0 <? limit) with false by (symmetry; apply Z.ltb_ge; lia).
  - intros l m Hl. rewrite <- Hch. apply map_ext_in. intros l' Hl'.
    apply deref_store_ne. intros ->.
    unfold valid_locs in Hvalid. rewrite Forall_forall in Hr, Hvalid.
    specialize (Hr _ Hl). apply list_elem_of_In in Hl'. specialize (Hvalid _ Hl').
    simpl in *. lia.
  - intros l m Hl. rewrite <- Hv. apply map_ext_in. intros l' Hl'.
    apply deref_store_ne. intros ->.
    unfold valid_locs in Hvalid. rewrite Forall_forall in Hr, Hvalid.
    apply list_elem_of_In in Hl'. specialize (Hr _ Hl'). specialize (Hvalid _ Hl).
    simpl in *. lia.
Qed.

Lemma getHistoryView_full_copy_witness :
  let ch := Samples.allLocs Samples.longHistory in
  let view := getHistoryView ch false 0 Samples.longHistory in
  map (deref view.2) view.1 = map (deref Samples.longHistory) ch ∧ NoDup view.1.
Proof.
  intros ch view.
  assert (Hvalid : valid_locs Samples.longHistory ch)
    by (unfold valid_locs; simpl; repeat constructor).
  pose proof (getHistoryView_full_copy ch 0 Samples.longHistory Hvalid)
    as (Hvalues & Hwhole & Hnodup & _).
  split; [|exact Hnodup].
  etrans; [exact Hvalues|]. by rewrite (Hwhole ltac:(done)).
Defined.

Lemma viewValues_plain (history : list Message) :
  forallb isPlainMessage history = true → viewValues true history = history.
Proof.
  intros Hplain.
  assert (Hall : ∀ k m, history !! k = Some m →
            isAssistantBlocks m = false ∧ isToolResultFirst m = false).
  { intros k m Hk. rewrite forallb_forall in Hplain.
    specialize (Hplain m (proj1 (list_elem_of_In _ _) (list_elem_of_lookup_2 _ _ _ Hk))).
    unfold isPlainMessage in Hplain. apply andb_true_iff in Hplain as [Ha Hr].
    by destruct (isAssistantBlocks m), (isToolResultFirst m). }
  unfold viewValues. simpl.
  set (step := viewStepValues _ _ _).
  assert (Hfinal : (fun (k : nat) (acc : list Message) => acc = take k history)
                     (length history) (fold_left step (indexed history) [])).
  { apply (fold_indexed_ind step (fun k acc => acc = take k history)); [done|].
    intros k m acc Hk ->. destruct (Hall k m Hk) as [Ha Hr].
    rewrite (take_S_r _ _ _ Hk). unfold step, viewStepValues.
    case_bool_decide; [done|].
    unfold isAssistantBlocks in Ha.
    destruct (role m), (content m); try done; by rewrite Hr. }
  simpl in Hfinal. by rewrite Hfinal, firstn_all.
Qed.

(** X2. On a history without tool turns, that is one whose messages have
    string content or are user or system messages not starting with a tool
    result, [getHistoryView(true, limit)] returns what
    [getHistoryView(false, limit)] returns: a copy of the window. *)
Theorem getHistoryView_plain_history (ch : list loc) (limit : Z) (h : Heap) :
  valid_locs h ch →
  forallb isPlainMessage (map (deref h) ch) = true →
  let minimized := getHistoryView ch true limit h in
  let full := getHistoryView ch false limit h in
  map (deref minimized.2) minimized.1 = map (deref h) (historyWindow h limit ch) ∧
  map (deref minimized.2) minimized.1 = map (deref full.2) full.1.
Proof.
  intros Hvalid Hplain minimized full.
  destruct (getHistoryView_sim ch true limit h Hvalid) as (_ & _ & _ & Hmin).
  destruct (getHistoryView_sim ch false limit h Hvalid) as (_ & _ & _ & Hfull).
  fold minimized in Hmin. fold full in Hfull.
  change (viewValues false ?x) with x in Hfull.
  assert (Hwindow : forallb isPlainMessage (map (deref h) (historyWindow h limit ch)) = true).
  { destruct (historyWindow_suffix h limit ch) as (n & ->).
    rewrite forallb_forall in Hplain. apply forallb_forall. intros m Hm.
    apply Hplain. apply in_map_iff in Hm as (l & <- & Hl). apply in_map.
    apply list_elem_of_In. apply list_elem_of_In in Hl.
    by eapply subseteq_drop. }
  rewrite Hmin, Hfull. split; by apply viewValues_plain.
Qed.

Lemma getHistoryView_plain_history_witness :
  let h := [Samples.stored 1 user (Text "hi") None;
            Samples.stored 2 assistant (Text "hello") None] in
  let minimized := getHistoryView [0; 1]%nat true 0 h in
  map (deref minimized.2) minimized.1 = h.
Proof.
  intros h minimized.
  apply (getHistoryView_plain_history [0; 1]%nat 0 h).
  - unfold valid_locs. simpl. repeat constructor.
  - reflexivity.
Defined.

(** ** The window of the last user messages *)

Lemma countUserTexts_app (a b : list Message) :
  countUserTexts (a ++ b) = (countUserTexts a + countUserTexts b)%nat.
Proof. unfold countUserTexts. by rewrite List.filter_app, length_app. Qed.

Lemma countUserTexts_rev (l : list Message) : countUserTexts (rev l) = countUserTexts l.
Proof. unfold countUserTexts. by rewrite filter_rev, length_rev. Qed.

Lemma sliceIndexFrom_spec (limit : Z) (reversed : list Message) :
  ∀ seen, seen < limit →
  match sliceIndexFrom limit seen reversed with
  | Some i =>
      ∃ front entry below,
        reversed = front ++ entry :: below ∧ i = length below ∧
        isUserText entry = true ∧
        seen + Z.of_nat (countUserTexts front) + 1 = limit
  | None => seen + Z.of_nat (countUserTexts reversed) < limit
  end.
Proof.
  induction reversed as [|entry below IH]; intros seen Hseen; simpl.
  - unfold countUserTexts. simpl. lia.
  - destruct (isUserText entry) eqn:Hentry.
    + destruct (seen + 1 =? limit) eqn:Hhit.
      * apply Z.eqb_eq in Hhit. exists [], entry, below.
        unfold countUserTexts. simpl. split_and!; try done. lia.
      * apply Z.eqb_neq in Hhit. specialize (IH (seen + 1) ltac:(lia)).
        destruct (sliceIndexFrom limit (seen + 1) below) as [i|].
        -- destruct IH as (front & e & rest & -> & -> & He & Hcount).
           exists (entry :: front), e, rest.
           split_and!; try done.
           unfold countUserTexts in *. simpl. rewrite Hentry. simpl length. lia.
        -- unfold countUserTexts in *. simpl. rewrite Hentry. simpl length. lia.
    + specialize (IH seen Hseen).
      destruct (sliceIndexFrom limit seen below) as [i|].
      * destruct IH as (front & e & rest & -> & -> & He & Hcount).
        exists (entry :: front), e, rest.
        split_and!; try done.
        unfold countUserTexts in *. simpl. by rewrite Hentry.
      * unfold countUserTexts in *. simpl. by rewrite Hentry.
Qed.

(** X3. For a positive [limit], [sliceHistoryByUserMessages(limit)] returns
    the whole history when it has fewer than [limit] user messages with
    string content; otherwise it returns the end of the history that starts
    at such a user message and holds exactly [limit] of them. *)
Theorem sliceHistoryByUserMessages_spec (h : Heap) (limit : Z) (ch : list loc) :
  0 < limit →
  let values := map (deref h) ch in
  let slice := sliceHistoryByUserMessages h limit ch in
  (Z.of_nat (countUserTexts values) < limit → slice = ch) ∧
  (limit ≤ Z.of_nat (countUserTexts values) →
     ∃ i entry, slice = drop i ch ∧ values !! i = Some entry ∧
                isUserText entry = true ∧
                Z.of_nat (countUserTexts (drop i values)) = limit).
Proof.
  intros Hpos values slice. unfold slice, sliceHistoryByUserMessages.
  replace (limit <=? 0) with false by (symmetry; apply Z.leb_gt; lia).
  fold values.
  pose proof (sliceIndexFrom_spec limit (rev values) 0 Hpos) as Hspec.
  destruct (sliceIndexFrom limit 0 (rev values)) as [i|].
  - destruct Hspec as (front & entry & below & Hrev & -> & Hentry & Hcount).
    assert (Hvalues : values = rev below ++ entry :: rev front).
    { rewrite <- (rev_involutive values), Hrev, rev_app_distr. simpl.
      by rewrite <- app_assoc. }
    assert (Hdrop : drop (length below) values = entry :: rev front).
    { rewrite Hvalues. apply drop_app_length'. by rewrite length_rev. }
    assert (Htotal : countUserTexts values
                     = (countUserTexts below + S (countUserTexts front))%nat).
    { rewrite Hvalues, countUserTexts_app, countUserTexts_rev.
      change (entry :: rev front) with ([entry] ++ rev front).
      rewrite countUserTexts_app, countUserTexts_rev.
      unfold countUserTexts at 2. simpl. by rewrite Hentry. }
    split; [lia|]. intros _. exists (length below), entry. split_and!; try done.
    + rewrite Hvalues. apply list_lookup_middle. by rewrite length_rev.
    + rewrite Hdrop. change (entry :: rev front) with ([entry] ++ rev front).
      rewrite countUserTexts_app, countUserTexts_rev.
      unfold countUserTexts at 1. simpl. rewrite Hentry. simpl length. lia.
  - rewrite countUserTexts_rev in Hspec. split; [done|lia].
Qed.

Lemma sliceHistoryByUserMessages_spec_witness :
  let ch := Samples.allLocs Samples.longHistory in
  let values := map (deref Samples.longHistory) ch in
  ∃ i entry,
    sliceHistoryByUserMessages Samples.longHistory 1 ch = drop i ch ∧
    values !! i = Some entry ∧ isUserText entry = true ∧
    Z.of_nat (countUserTexts (drop i values)) = 1.
Proof.
  apply (sliceHistoryByUserMessages_spec Samples.longHistory 1
           (Samples.allLocs Samples.longHistory) ltac:(done)).
  vm_compute. discriminate.
Defined.

(** ** The limit and the last tool turn *)

(** The index [findLastToolInteractionIndex] returns is determined by what
    it points to. *)
Lemma findLastToolInteractionIndex_unique (history : list Message) (i : nat)
    (entry : Message) :
  history !! i = Some entry → isToolInteraction entry = true →
  (∀ j x, (i < j)%nat → history !! j = Some x → isToolInteraction x = false) →
  findLastToolInteractionIndex history = Some i.
Proof.
  intros Hi Hentry Hmax. unfold findLastToolInteractionIndex.
  pose proof (findLastFrom_spec history 0) as Hspec.
  destruct (findLastFrom 0 history) as [j|].
  - destruct Hspec as (i' & e & -> & Hi' & He & Hmax'). simpl. f_equal.
    destruct (Nat.lt_trichotomy i i') as [Hlt|[->|Hgt]]; [|done|].
    + rewrite (Hmax i' e Hlt Hi') in He. done.
    + rewrite (Hmax' i entry Hgt Hi) in Hentry. done.
  - rewrite (Hspec i entry Hi) in Hentry. done.
Qed.

Lemma findLastToolInteractionIndex_drop (history : list Message) (n i : nat) :
  findLastToolInteractionIndex history = Some i → (n ≤ i)%nat →
  findLastToolInteractionIndex (drop n history) = Some (i - n)%nat.
Proof.
  intros Hlast Hle.
  destruct (findLastToolInteractionIndex_Some history i Hlast) as (entry & Hi & He & Hmax).
  apply (findLastToolInteractionIndex_unique _ _ entry).
  - rewrite lookup_drop. by replace (n + (i - n))%nat with i by lia.
  - done.
  - intros j x Hlt Hj. rewrite lookup_drop in Hj. apply (Hmax (n + j)%nat); [lia|done].
Qed.

Lemma sliceIndexFrom_bound (limit seen : Z) (reversed : list Message) (i : nat) :
  seen < limit → sliceIndexFrom limit seen reversed = Some i →
  (i < length reversed)%nat.
Proof.
  intros Hseen Hi. pose proof (sliceIndexFrom_spec limit reversed seen Hseen) as Hspec.
  rewrite Hi in Hspec. destruct Hspec as (front & entry & below & -> & -> & _).
  rewrite length_app. simpl. lia.
Qed.

(** The window [getHistoryView] works on is an end of the history that
    starts no later than the last tool interaction. *)
Lemma historyWindow_reaches_last_tool (h : Heap) (limit : Z) (ch : list loc) :
  ∃ n, historyWindow h limit ch = drop n ch ∧ (limit ≤ 0 → n = 0%nat) ∧
       ∀ i, findLastToolInteractionIndex (map (deref h) ch) = Some i → (n ≤ i)%nat.
Proof.
  unfold historyWindow.
  destruct (0 <? limit) eqn:Hpos.
  - apply Z.ltb_lt in Hpos. unfold sliceHistoryByUserMessages.
    replace (limit <=? 0) with false by (symmetry; apply Z.leb_gt; lia).
    destruct (sliceIndexFrom limit 0 (rev (map (deref h) ch))) as [j|] eqn:Hslice.
    + apply sliceIndexFrom_bound in Hslice; [|done].
      rewrite length_rev, length_map in Hslice.
      rewrite length_drop.
      replace (length ch - (length ch - j))%nat with j by lia.
      destruct (findLastToolInteractionIndex (map (deref h) ch)) as [last|].
      * destruct (last <? j)%nat eqn:Hlt.
        -- exists last. split_and!; [done|lia|]. by intros i [= <-].
        -- apply Nat.ltb_ge in Hlt. exists j. split_and!; [done|lia|].
           by intros i [= <-].
      * exists j. split_and!; [done|lia|done].
    + exists 0%nat. rewrite Nat.sub_diag.
      destruct (findLastToolInteractionIndex (map (deref h) ch)) as [last|];
        simpl; split_and!; try done; intros; lia.
  - exists 0%nat. split_and!; try done. intros; lia.
Qed.

(** X4. Whatever [limitMessages] is, the minimized view holds the last
    assistant message with a tool-use part of the whole history as it is
    stored, directly followed by the user message next to it when that one
    starts with a tool result and answers one of its tool uses: the limit
    never cuts the last tool turn off. *)
Theorem getHistoryView_limit_keeps_last_turn (ch : list loc) (limit : Z) (h : Heap)
    (i : nat) (m : Message) :
  valid_locs h ch →
  let history := map (deref h) ch in
  findLastToolInteractionIndex history = Some i → history !! i = Some m →
  let view := getHistoryView ch true limit h in
  ∃ before after,
    map (deref view.2) view.1 = before ++ m :: after ∧
    ∀ r, history !! S i = Some r → isToolResultFirst r = true →
         isLastToolResult (Some (toolUseIds (partsOf m))) r = true →
         ∃ after', after = r :: after'.
Proof.
  intros Hvalid history Hlast Hm view.
  destruct (getHistoryView_sim ch true limit h Hvalid) as (_ & _ & _ & Hvalues).
  fold view in Hvalues. rewrite Hvalues.
  destruct (historyWindow_reaches_last_tool h limit ch) as (n & -> & _ & Hle).
  specialize (Hle i Hlast).
  rewrite <- skipn_map. fold history.
  pose proof (findLastToolInteractionIndex_drop history n i Hlast Hle) as Hlast'.
  assert (Hm' : drop n history !! (i - n)%nat = Some m).
  { rewrite lookup_drop. by replace (n + (i - n))%nat with i by lia. }
  destruct (view_last_turn (drop n history) (i - n)%nat m Hlast' Hm')
    as (before & after & Heq & Hnext).
  exists before, after. split; [done|]. intros r Hr. apply Hnext.
  rewrite lookup_drop. by replace (n + S (i - n))%nat with (S i) by lia.
Qed.

Lemma getHistoryView_limit_keeps_last_turn_witness :
  let ch := Samples.allLocs Samples.longHistory in
  let view := getHistoryView ch true 1 Samples.longHistory in
  ∃ before after,
    map (deref view.2) view.1
    = before ++ Samples.stored 8 assistant (Blocks [ToolUse "t5" "list_files" JNull])
                               (Some ["t5"]) :: after.
Proof.
  intros ch view.
  destruct (getHistoryView_limit_keeps_last_turn ch 1 Samples.longHistory 7%nat
              (Samples.stored 8 assistant (Blocks [ToolUse "t5" "list_files" JNull])
                              (Some ["t5"])))
    as (before & after & Heq & _).
  - unfold valid_locs. simpl. repeat constructor.
  - reflexivity.
  - reflexivity.
  - by exists before, after.
Defined.

Lemma findLatestFrom_spec (messages : list Message) :
  ∀ n, match findLatestFrom n messages with
       | Some j =>
           ∃ i entry, j = (n + i)%nat ∧ messages !! i = Some entry ∧
             isUserText entry = true ∧
             ∀ i' x, (i < i')%nat → messages !! i' = Some x → isUserText x = false
       | None => ∀ i x, messages !! i = Some x → isUserText x = false
       end.
Proof.
  induction messages as [|entry messages IH]; intros n; simpl; [done|].
  specialize (IH (S n)).
  destruct (findLatestFrom (S n) messages) as [j|].
  - destruct IH as (i & e & -> & Hi & He & Hmax).
    exists (S i), e. split_and!; [lia|done|done|].
    intros [|i'] x Hlt Hx; [lia|]. simpl in Hx. apply (Hmax i'); [lia|done].
  - destruct (isUserText entry) eqn:He.
    + exists 0%nat, entry. split_and!; [lia|done|done|].
      intros [|i'] x Hlt Hx; [lia|]. simpl in Hx. by apply (IH i').
    + intros [|i] x Hx; simpl in Hx; [by injection Hx as <-|by apply (IH i)].
Qed.

(** X5. [findLatestUserTextMessageIndex] returns the index of the last user
    message with string content, and -1 exactly when there is none;
    [findLastToolInteractionIndex] does the same for the assistant messages
    with a tool-use part. *)
Theorem findLatest_indices (messages : list Message) :
  match findLatestUserTextMessageIndex messages with
  | Some i =>
      ∃ entry, messages !! i = Some entry ∧ isUserText entry = true ∧
        ∀ j x, (i < j)%nat → messages !! j = Some x → isUserText x = false
  | None => ∀ j x, messages !! j = Some x → isUserText x = false
  end ∧
  match findLastToolInteractionIndex messages with
  | Some i =>
      ∃ entry, messages !! i = Some entry ∧ isToolInteraction entry = true ∧
        ∀ j x, (i < j)%nat → messages !! j = Some x → isToolInteraction x = false
  | None => ∀ j x, messages !! j = Some x → isToolInteraction x = false
  end.
Proof.
  split.
  - unfold findLatestUserTextMessageIndex.
    pose proof (findLatestFrom_spec messages 0) as Hspec.
    destruct (findLatestFrom 0 messages) as [j|]; [|done].
    destruct Hspec as (i & entry & -> & Hspec). simpl. eauto.
  - unfold findLastToolInteractionIndex.
    pose proof (findLastFrom_spec messages 0) as Hspec.
    destruct (findLastFrom 0 messages) as [j|]; [|done].
    destruct Hspec as (i & entry & -> & Hspec). simpl. eauto.
Qed.

(** ** Ids of restored messages *)

Lemma ensureMessageId_numbered (message : Message) (counter : Z) :
  ∃ n, _id (ensureMessageId message counter).1 = IdNum n ∧
       n ≤ (ensureMessageId message counter).2.
Proof.
  unfold ensureMessageId.
  destruct (_id message) as [|z| |str] eqn:Hid; simpl.
  - exists (counter + 1). split; [done|lia].
  - exists z. split; [done|]. destruct (counter <? z) eqn:Hlt; lia.
  - exists (counter + 1). split; [done|lia].
  - destruct (parseInt str) as [parsed|]; simpl.
    + exists parsed. split; [done|]. destruct (counter <? parsed) eqn:Hlt; lia.
    + exists (counter + 1). split; [done|lia].
Qed.

Section RestoredIds.

Context {World : Type}.

Abbreviation State := (@State World).
Abbreviation Options := (@Options World).

Lemma ensureMessageIdAt_step (l : loc) (s : State) :
  (l < length (heap s))%nat →
  let s1 := ensureMessageIdAt l s in
  hasCountedId s1 (deref (heap s1) l) ∧
  (∀ l' n, _id (deref (heap s) l') = IdNum n → deref (heap s1) l' = deref (heap s) l') ∧
  messageIdCounter (manager s) ≤ messageIdCounter (manager s1) ∧
  length (heap s1) = length (heap s).
Proof.
  intros Hl. unfold ensureMessageIdAt.
  pose proof (ensureMessageId_numbered (deref (heap s) l) (messageIdCounter (manager s)))
    as (n & Hn & Hle).
  pose proof (ensureMessageId_fields (deref (heap s) l) (messageIdCounter (manager s)))
    as (_ & _ & _ & _ & _ & _ & Hcounter).
  pose proof (ensureMessageId_kept (deref (heap s) l) (messageIdCounter (manager s)))
    as Hkept.
  destruct (ensureMessageId (deref (heap s) l) (messageIdCounter (manager s)))
    as [message counter].
  simpl in *. split_and!.
  - exists n. by rewrite deref_store_eq.
  - intros l' k Hk. destruct (decide (l = l')) as [<-|Hne].
    + rewrite deref_store_eq by done. by destruct (Hkept k Hk).
    + by apply deref_store_ne.
  - done.
  - apply length_store.
Qed.

Lemma ensureIds_fold (ls : list loc) :
  ∀ s : State, valid_locs (heap s) ls →
  let s' := fold_left (fun s0 entry => ensureMessageIdAt entry s0) ls s in
  (∀ l, l ∈ ls → hasCountedId s' (deref (heap s') l)) ∧
  (∀ l n, _id (deref (heap s) l) = IdNum n → deref (heap s') l = deref (heap s) l) ∧
  messageIdCounter (manager s) ≤ messageIdCounter (manager s') ∧
  length (heap s') = length (heap s).
Proof.
  induction ls as [|l ls IH]; intros s Hvalid; simpl.
  - split_and!; try done. intros l Hl. by apply elem_of_nil in Hl.
  - apply Forall_cons in Hvalid as [Hl Hvalid]. simpl in Hl.
    destruct (ensureMessageIdAt_step l s Hl) as (Hnum & Hkeep & Hcounter & Hlen).
    assert (Hvalid1 : valid_locs (heap (ensureMessageIdAt l s)) ls).
    { unfold valid_locs. by rewrite Hlen. }
    destruct (IH (ensureMessageIdAt l s) Hvalid1) as (Hall & Hkeep' & Hcounter' & Hlen').
    split_and!.
    + intros l' Hl'. apply elem_of_cons in Hl' as [->|Hl']; [|by apply Hall].
      destruct Hnum as (n & Hn & Hle). exists n.
      rewrite (Hkeep' l n Hn). split; [done|lia].
    + intros l' n Hn. rewrite <- (Hkeep l' n Hn). apply (Hkeep' l' n).
      by rewrite (Hkeep l' n Hn).
    + lia.
    + congruence.
Qed.

Lemma ensureHistoryMessageIds_fixed (s : State) :
  (∀ l, l ∈ conversationHistory (manager s) → hasCountedId s (deref (heap s) l)) →
  ensureHistoryMessageIds s = s.
Proof.
  intros Hall. unfold ensureHistoryMessageIds.
  assert (Hgen : ∀ ls, (∀ l, l ∈ ls → l ∈ conversationHistory (manager s)) →
            fold_left (fun s0 entry => ensureMessageIdAt entry s0) ls s = s).
  { induction ls as [|l ls IH]; intros Hin; simpl; [done|].
    destruct (Hall l) as (n & Hid & Hle); [apply Hin; left|].
    rewrite (ensureMessageIdAt_idle l s n Hid Hle). apply IH.
    intros l' Hl'. apply Hin. by right. }
  by apply Hgen.
Qed.

Lemma ensureHistoryMessageIds_counted (s : State) :
  wellFormed s →
  Forall (hasCountedId (ensureHistoryMessageIds s))
         (historyValues (ensureHistoryMessageIds s)).
Proof.
  intros Hw.
  destruct (ensureHistoryMessageIds_sameButIds s) as (_ & _ & Hhistory & _).
  destruct (ensureIds_fold (conversationHistory (manager s)) s Hw) as (Hall & _).
  unfold historyValues. rewrite Hhistory. apply Forall_forall. intros m Hm.
  apply list_elem_of_fmap in Hm as (l & -> & Hl). by apply Hall.
Qed.

(** X6. Whatever ids the stored messages carry (none, a number, a string),
    after [ensureHistoryMessageIds] every stored message has a numeric id
    that is not above the id counter; a message that had a numeric id is
    left as it is, and the others change in their id only; the counter is
    never lowered; and a second call changes nothing. *)
Theorem ensureHistoryMessageIds_numbers (s : State) :
  wellFormed s →
  let s' := ensureHistoryMessageIds s in
  Forall (hasCountedId s') (historyValues s') ∧
  map eraseId (historyValues s') = map eraseId (historyValues s) ∧
  (∀ i m n, historyValues s !! i = Some m → _id m = IdNum n →
            historyValues s' !! i = Some m) ∧
  messageIdCounter (manager s) ≤ messageIdCounter (manager s') ∧
  ensureHistoryMessageIds s' = s'.
Proof.
  intros Hw s'.
  pose proof (ensureHistoryMessageIds_sameButIds s) as Hsame. fold s' in Hsame.
  pose proof Hsame as (_ & Hcounter & Hhistory & _).
  destruct (ensureIds_fold (conversationHistory (manager s)) s Hw)
    as (Hall & Hkeep & _ & _).
  change (fold_left _ _ s) with s' in Hall, Hkeep.
  split_and!.
  - by apply ensureHistoryMessageIds_counted.
  - by apply sameButIds_history.
  - intros i m n Hi Hn. unfold historyValues in *. rewrite Hhistory.
    rewrite list_lookup_fmap in Hi. rewrite list_lookup_fmap.
    destruct (conversationHistory (manager s) !! i) as [l|]; [|done].
    simpl in *. injection Hi as <-. f_equal. by apply (Hkeep l n).
  - done.
  - apply ensureHistoryMessageIds_fixed. rewrite Hhistory. exact Hall.
Qed.


End RestoredIds.

Lemma restored_wellFormed : wellFormed restored.
Proof. unfold wellFormed, valid_locs. simpl. repeat constructor. Qed.

Lemma ensureHistoryMessageIds_numbers_witness :
  map _id (historyValues (ensureHistoryMessageIds restored)) = [IdNum 5; IdNum 6; IdNum 3] ∧
  ensureHistoryMessageIds (ensureHistoryMessageIds restored)
  = ensureHistoryMessageIds restored.
Proof.
  split; [reflexivity|].
  apply (ensureHistoryMessageIds_numbers restored restored_wellFormed).
Defined.


(** ** Batch summaries and the tool registry *)

Lemma countToolMeta_fold (metas : list ToolMeta) :
  ∀ s, fold_left countToolMeta metas s
       = mkSummary (successCount s + countFailed false metas)
                   (failureCount s + countFailed true metas)
                   (successNames s ++ summaryNames false metas)
                   (failureNames s ++ summaryNames true metas).
Proof.
  unfold countFailed.
  induction metas as [|meta metas IH]; intros s; simpl.
  - rewrite !Nat.add_0_r, !app_nil_r. by destruct s.
  - rewrite IH. unfold countToolMeta.
    destruct (default false (tm_isError meta)), (truthy_ostr (tm_name meta));
      simpl; rewrite <- ?app_assoc, ?app_nil_r; simpl; f_equal; lia.
Qed.

Lemma prefix_append (a b : string) : String.prefix a (a +:+ b) = true.
Proof.
  induction a as [|c a IH]; [by destruct b|].
  change (String c a +:+ b) with (String c (a +:+ b)). simpl.
  by destruct (ascii_dec c c).
Qed.

(** X8. [buildToolBatchSummary] counts the metas with and without the error
    flag and lists their truthy names in order, so the two counts add up to
    the size of the batch; [buildToolSummaryText] of the summary has at most
    two lines, the line on successes first, and has no line exactly when
    the batch is empty. *)
Theorem buildToolBatchSummary_spec (metas : list ToolMeta) :
  let summary := buildToolBatchSummary metas in
  summary = mkSummary (countFailed false metas) (countFailed true metas)
                      (summaryNames false metas) (summaryNames true metas) ∧
  (successCount summary + failureCount summary)%nat = length metas ∧
  (length (buildToolSummaryText summary) ≤ 2)%nat ∧
  (buildToolSummaryText summary = [] ↔ metas = []) ∧
  (0 < successCount summary →
     ∃ line rest, buildToolSummaryText summary = line :: rest ∧
                  String.prefix "Successfully called " line = true)%nat.
Proof.
  intros summary.
  assert (Hsummary : summary = mkSummary (countFailed false metas) (countFailed true metas)
                                 (summaryNames false metas) (summaryNames true metas)).
  { unfold summary, buildToolBatchSummary. by rewrite countToolMeta_fold. }
  pose proof (buildToolBatchSummary_count metas) as Hcount. fold summary in Hcount.
  simpl in Hcount.
  split; [done|]. split; [done|]. split; [|split].
  - unfold buildToolSummaryText.
    destruct (0 <? successCount summary)%nat, (0 <? failureCount summary)%nat;
      repeat case_match; simpl; lia.
  - split.
    + intros Hnone. destruct metas as [|meta metas]; [done|].
      exfalso. apply (buildToolSummaryText_nonempty summary); [|done].
      simpl. rewrite Hcount. simpl. lia.
    + by intros ->.
  - intros Hpos. unfold buildToolSummaryText.
    replace (0 <? successCount summary)%nat with true
      by (symmetry; by apply Nat.ltb_lt).
    destruct (successCount summary =? 1)%nat; simpl; eexists _, _;
      (split; [done|]).
    + apply (prefix_append "Successfully called "
               ("tool " +:+ firstNameOr (successNames summary))).
    + apply prefix_append.
Qed.

Section ToolRegistry.

Context {World : Type}.

Abbreviation State := (@State World).
Abbreviation UniversalTool := (@UniversalTool World).
Abbreviation AIManager := (@AIManager World).

Lemma findTool_app (a b : list UniversalTool) (name : string) :
  findTool (a ++ b) name
  = match findTool a name with
    | Some tool => Some tool
    | None => findTool b name
    end.
Proof.
  unfold findTool. induction a as [|t a IH]; simpl; [done|].
  by destruct (String.eqb (tool_name t) name).
Qed.

Lemma registerTools_tools (ts : list UniversalTool) :
  ∀ m : AIManager,
  tools (registerTools ts m)
  = tools m ++ map (fun tool => mkUniversalTool (tool_name tool) (tool_description tool)
                                  (tool_parameters tool) (handler tool) "general") ts.
Proof.
  unfold registerTools.
  induction ts as [|t ts IH]; intros m; simpl; [by rewrite app_nil_r|].
  rewrite IH. simpl. by rewrite <- app_assoc.
Qed.

(** X9. A tool is looked up by name and the first one registered under a
    name is the one that is called: [registerTool] under a name that is
    taken adds a tool that no call reaches, and a call under any other name
    is executed as before; under a free name the new tool is the one found.
    [registerTools] registers its tools in order, each under its own name
    and with the category 'general', whatever category it had. *)
Theorem registerTool_first_wins (name description : string) (parameters : jsval)
    (h : jsval → World → Outcome * World) (cat : string) (m : AIManager) :
  let m' := registerTool name description parameters h cat m in
  (∀ call tool (s : State),
     findTool (tools m) (call_name call) = Some tool →
     findTool (tools m') (call_name call) = Some tool ∧
     executeToolCall (tools m') call s = executeToolCall (tools m) call s) ∧
  (∀ call (s : State), call_name call ≠ name →
     executeToolCall (tools m') call s = executeToolCall (tools m) call s) ∧
  (findTool (tools m) name = None →
     findTool (tools m') name
     = Some (mkUniversalTool name description parameters h cat)) ∧
  (∀ ts, map tool_name (tools (registerTools ts m))
         = map tool_name (tools m) ++ map tool_name ts ∧
         Forall (fun tool => category tool = "general")
                (drop (length (tools m)) (tools (registerTools ts m)))).
Proof.
  intros m'. simpl. split_and!.
  - intros call tool s Hfind.
    assert (Hsame : findTool (tools m ++ [mkUniversalTool name description parameters h cat])
                             (call_name call) = Some tool)
      by (by rewrite findTool_app, Hfind).
    split; [done|]. unfold executeToolCall. by rewrite Hsame, Hfind.
  - intros call s Hne. unfold executeToolCall. rewrite findTool_app.
    destruct (findTool (tools m) (call_name call)) as [tool|]; [done|].
    unfold findTool. simpl.
    by rewrite (proj2 (String.eqb_neq name (call_name call)))
      by (intros Heq; by apply Hne).
  - intros Hnone. rewrite findTool_app, Hnone. unfold findTool. simpl.
    by rewrite String.eqb_refl.
  - intros ts. rewrite registerTools_tools. split.
    + rewrite map_app, map_map. done.
    + rewrite drop_app_length. apply Forall_forall. intros tool Htool.
      apply list_elem_of_In, in_map_iff in Htool as (t & <- & _). done.
Qed.

End ToolRegistry.

(** ** Outcome of the loop *)

Section LoopRun.

Context {World : Type}.

Abbreviation State := (@State World).
Abbreviation UniversalTool := (@UniversalTool World).
Abbreviation AIProvider := (@AIProvider World).
Abbreviation Options := (@Options World).

Lemma finalIteration_response (options : Options) (response : Response) (v : LoopVars)
    (s : State) :
  finalResponse (finalIteration options response v s).1
  = Some (answerResponse (messageIdCounter (manager s)) response).
Proof.
  unfold finalIteration, answerResponse.
  destruct (truthy_str (r_content response)); [|done].
  rewrite (appendMessage_spec (newMessage assistant (Text (r_content response))) s eq_refl).
  simpl. by rewrite deref_alloc_new.
Qed.

(** One round of the loop, by what the provider did. *)
Lemma iteration_outcome (provider : AIProvider) (options : Options) (v : LoopVars)
    (s : State) :
  let outbound := map (deref (heap s)) (messages v) in
  let counter := messageIdCounter (manager s) in
  let run := iteration provider options v s in
  ∃ w w' answer,
    callAPI provider outbound (tools (manager s)) (providerOptionsOf options) w
    = (answer, w') ∧
    match answer with
    | Threw message => run.1 = Threw message ∧ grows s run.2 [CallAPI outbound] []
    | Ok response =>
        ∃ v', run.1 = Ok v' ∧ iterations v' = iterations v + 1 ∧
        match r_toolCalls response with
        | [] =>
            grows s run.2 [CallAPI outbound]
                  (if truthy_str (r_content response)
                   then [set_id (IdNum (counter + 1)) (finalAssistantMessage response)]
                   else []) ∧
            messages v' = messages v ∧ continueProcessing v' = false ∧
            finalResponse v' = Some (answerResponse counter response) ∧
            lv_allToolCalls v' = lv_allToolCalls v ∧
            lv_allToolResults v' = lv_allToolResults v
        | _ :: _ =>
            ∃ results,
              Forall2 (recordedFor (tools (manager s))) (r_toolCalls response) results ∧
              grows s run.2
                    (CallAPI outbound
                     :: handlerEvents (tools (manager s)) (r_toolCalls response))
                    [set_id (IdNum (counter + 1)) (assistantToolMessage response);
                     set_id (IdNum (counter + 2)) (toolResultMessageOf results)] ∧
              messages v' = messages v ++ [length (heap s); S (length (heap s))] ∧
              continueProcessing v' = true ∧
              finalResponse v'
              = Some (responseResult response (Some (IdNum (counter + 1)))
                                              (Some (IdNum (counter + 2)))) ∧
              lv_allToolCalls v'
              = lv_allToolCalls v
                ++ map (fun call => (call, IdNum (counter + 1))) (r_toolCalls response) ∧
              lv_allToolResults v'
              = lv_allToolResults v
                ++ map (fun result => (result, IdNum (counter + 2))) results
        end
    end.
Proof.
  intros outbound counter run. unfold run, iteration. cbv zeta. simpl messages.
  fold outbound.
  set (s0 := match prepareRateLimit options with
             | Some prepare => set_world (prepare outbound (world s)) s
             | None => s
             end).
  assert (Hs0 : grows s s0 [] []).
  { unfold s0. destruct (prepareRateLimit options);
      [apply (grows_world s s), grows_refl|apply grows_refl]. }
  assert (Hh0 : heap s0 = heap s ∧ manager s0 = manager s).
  { unfold s0. by destruct (prepareRateLimit options). }
  destruct Hh0 as [Hh0 Hm0]. clearbody s0.
  pose proof (grows_trans _ _ _ _ _ _ _ Hs0 (log_grows s0 (CallAPI outbound))) as Hs1.
  simpl in Hs1.
  set (s1 := log (CallAPI outbound) s0) in *.
  assert (Hh1 : heap s1 = heap s ∧ manager s1 = manager s) by (by rewrite <- Hh0, <- Hm0).
  destruct Hh1 as [Hh1 Hm1]. clearbody s1.
  exists (world s1).
  destruct (callAPI provider outbound (tools (manager s1)) (providerOptionsOf options)
                    (world s1)) as [answer w] eqn:Hcall.
  rewrite Hm1 in Hcall. exists w, answer. split; [done|].
  destruct answer as [response|message]; simpl.
  - destruct (r_toolCalls response) as [|call calls] eqn:Hcalls.
    + set (v1 := mkLoopVars (messages v) (continueProcessing v) (finalResponse v)
                            (lv_allToolCalls v) (lv_allToolResults v) (iterations v + 1)).
      pose proof (finalIteration_spec options response v1 (set_world w s1)) as Hf.
      pose proof (finalIteration_response options response v1 (set_world w s1)) as Hfin'.
      destruct (finalIteration _ _ _ _) as [v' s']. simpl in Hf, Hfin'.
      destruct Hf as (Hg & Hmsg & Hcont & Hit & _ & Hcalls' & Hres').
      pose proof (grows_trans _ _ _ _ _ _ _ (grows_world _ _ w _ _ Hs1) Hg) as Hgrow.
      simpl in Hgrow. rewrite Hm1 in Hgrow, Hfin'.
      exists v'. simpl. split_and!; done.
    + set (v1 := mkLoopVars (messages v) (continueProcessing v) (finalResponse v)
                            (lv_allToolCalls v) (lv_allToolResults v) (iterations v + 1)).
      pose proof (toolIteration_spec options response v1 (set_world w s1)) as Ht.
      destruct (toolIteration _ _ _ _) as [v' s']. simpl in Ht.
      destruct Ht as (results & Hrec & Hg & Hmsg & Hcont & Hit & Hfin & Hcalls' & Hres').
      pose proof (grows_trans _ _ _ _ _ _ _ (grows_world _ _ w _ _ Hs1) Hg) as Hgrow.
      simpl in Hgrow, Hrec, Hmsg, Hfin, Hcalls', Hres'.
      rewrite Hm1 in Hgrow, Hrec, Hfin, Hcalls', Hres'. rewrite Hh1 in Hmsg.
      rewrite Hcalls in *.
      exists v'. simpl. split_and!; try done. exists results. split_and!; done.
  - split; [done|]. by apply grows_world.
Qed.

End LoopRun.

Section LoopAsChain.

Context {World : Type}.

Abbreviation State := (@State World).
Abbreviation UniversalTool := (@UniversalTool World).
Abbreviation AIProvider := (@AIProvider World).
Abbreviation Options := (@Options World).

(** The loop, started with the rounds the budget leaves, is a chain of turns
    with an ending, and leaves its variables as [loopOutcome] says. *)
Lemma loop_run (provider : AIProvider) (options : Options) (MAX : Z) :
  ∀ (rounds : nat) (v : LoopVars) (s : State),
  continueProcessing v = true →
  Z.of_nat rounds = Z.max 0 (MAX - iterations v) →
  valid_locs (heap s) (messages v) →
  let run := loop rounds provider options MAX v s in
  let outbound := map (deref (heap s)) (messages v) in
  let counter := messageIdCounter (manager s) in
  ∃ turns ending,
    chain (tools (manager s)) rounds counter outbound turns ending ∧
    grows s run.2 (runEvents (tools (manager s)) outbound turns ending)
          (runMessages counter turns ending) ∧
    loopOutcome provider options (tools (manager s)) rounds counter outbound v
                turns ending run.1.
Proof.
  induction rounds as [|rounds IH]; intros v s Hcont Hrounds Hvalid run outbound counter.
  - exists [], Paused. unfold run. simpl. rewrite Hcont. simpl.
    destruct (iterations v <? MAX) eqn:Hlt; simpl.
    + apply Z.ltb_lt in Hlt. lia.
    + split_and!; try done; [apply grows_refl|lia|by rewrite app_nil_r..].
  - unfold run. simpl. rewrite Hcont. simpl.
    replace (iterations v <? MAX) with true by (symmetry; apply Z.ltb_lt; lia).
    destruct (iteration_outcome provider options v s) as (w & w' & answer & Hcall & Hcase).
    fold outbound counter in Hcall, Hcase.
    destruct (iteration provider options v s) as [res s1]. simpl in Hcase.
    destruct answer as [response|message].
    + destruct Hcase as (v1 & -> & Hit & Hcase).
      destruct (r_toolCalls response) as [|call calls] eqn:Hcalls.
      * destruct Hcase as (Hg & Hmsg & Hc1 & Hfin & Hagg1 & Hagg2).
        rewrite (loop_stopped _ _ _ _ _ _ Hc1). simpl.
        exists [], (Answered response). unfold runEvents, runMessages. simpl.
        rewrite !app_nil_r.
        replace (counter + 2 * Z.of_nat 0 + 1) with (counter + 1) by lia.
        replace (counter + 2 * Z.of_nat 0) with counter by lia.
        split_and!; try done. lia.
      * destruct Hcase as (results & Hrec & Hg & Hmsg & Hc1 & Hfin & Hagg1 & Hagg2).
        rewrite <- Hcalls in Hrec, Hg, Hagg1.
        assert (Hvalid1 : valid_locs (heap s1) (messages v1)).
        { rewrite Hmsg. apply Forall_app. split.
          - by eapply valid_locs_grows.
          - destruct Hg as (Hh & _). rewrite Hh, length_app. simpl.
            repeat constructor; lia. }
        assert (Hrounds1 : Z.of_nat rounds = Z.max 0 (MAX - iterations v1)) by lia.
        destruct (IH v1 s1 Hc1 Hrounds1 Hvalid1) as (turns & ending & Hchain & Hg1 & Hout1).
        pose proof Hg as (Hh & _ & Hn & _ & _ & _ & Htools & _).
        set (t := mkTurn outbound counter response results).
        assert (Houtbound : map (deref (heap s1)) (messages v1)
                            = outbound ++ turnMessages t).
        { rewrite Hmsg, map_app. f_equal; [by eapply values_grows|].
          rewrite Hh. simpl. unfold deref.
          rewrite (list_lookup_total_middle (heap s) _ _ (length (heap s))) by done.
          replace (heap s ++ [_; _])
            with ((heap s ++ [set_id (IdNum (counter + 1)) (assistantToolMessage response)])
                  ++ [set_id (IdNum (counter + 2)) (toolResultMessageOf results)])
            by (by rewrite <- app_assoc).
          rewrite list_lookup_total_middle; [done|]. rewrite length_app. simpl. lia. }
        simpl in Hn.
        assert (Hcounter : messageIdCounter (manager s1) = counter + 2)
          by (unfold counter; lia).
        rewrite Houtbound, Htools, Hcounter in Hchain, Hg1, Hout1.
        exists (t :: turns), ending. split_and!.
        -- simpl. split_and!; try done; try lia; by rewrite Hcalls.
        -- rewrite (runEvents_cons (tools (manager s)) outbound t turns ending eq_refl),
             runMessages_cons.
           exact (grows_trans _ _ _ _ _ _ _ Hg Hg1).
        -- unfold loopOutcome in *.
           destruct ending as [| |final],
                    (loop rounds provider options MAX v1 s1).1 as [v'|message];
             try done.
           ++ destruct Hout1 as (Hc' & Hit' & Hfin' & Hcalls' & Hres').
              split_and!; try done.
              ** lia.
              ** rewrite Hfin'. destruct turns as [|t' turns]; [exact Hfin|].
                 change (last (t :: t' :: turns)) with (last (t' :: turns)).
                 by destruct (last (t' :: turns)) eqn:Hlast;
                   [|apply last_None in Hlast].
              ** rewrite Hcalls', Hagg1. simpl. unfold turnCalls at 2. simpl.
                 by rewrite <- app_assoc.
              ** rewrite Hres', Hagg2. simpl. unfold turnResults at 2. simpl.
                 by rewrite <- app_assoc.
           ++ simpl. by rewrite <- app_assoc in Hout1.
           ++ destruct Hout1 as (Hc' & Hfin' & Hcalls' & Hres').
              split_and!; try done.
              ** rewrite Hfin'. f_equal. f_equal. simpl length. lia.
              ** rewrite Hcalls', Hagg1. simpl. unfold turnCalls at 2. simpl.
                 by rewrite <- app_assoc.
              ** rewrite Hres', Hagg2. simpl. unfold turnResults at 2. simpl.
                 by rewrite <- app_assoc.
    + destruct Hcase as [-> Hg]. simpl.
      exists [], Rejected. unfold runEvents, runMessages. simpl. rewrite !app_nil_r.
      split_and!; try done; [lia|]. by exists w, w'.
Qed.

End LoopAsChain.

(** ** A call of the orchestrator in full *)

Section SendMessageRunFacts.

Context {World : Type}.
Variable JSON_stringify : jsval → option string.

Abbreviation State := (@State World).
Abbreviation UniversalTool := (@UniversalTool World).
Abbreviation AIProvider := (@AIProvider World).
Abbreviation Options := (@Options World).

Lemma findLatestFrom_content (values : list Message) :
  ∀ n i, findLatestFrom n values = Some i →
  ∃ target text, values !! (i - n)%nat = Some target ∧ content target = Text text ∧
                 (n ≤ i)%nat.
Proof.
  induction values as [|m values IH]; intros n i; simpl; [done|].
  destruct (findLatestFrom (S n) values) as [j|] eqn:Hrest.
  - intros [= <-]. destruct (IH (S n) j Hrest) as (target & text & Hj & Hc & Hle).
    exists target, text. split_and!; [|done|lia].
    replace (j - n)%nat with (S (j - S n)) by lia. done.
  - destruct (isUserText m) eqn:Hm; [|done]. intros [= <-].
    unfold isUserText in Hm. destruct (role m), (content m) as [text|] eqn:Hc; try done.
    exists m, text. rewrite Nat.sub_diag. done.
Qed.

Lemma augmentedValues_latest (augmented : string → string) (values : list Message) :
  findLatestUserTextMessageIndex (augmentedValues augmented values)
  = findLatestUserTextMessageIndex values.
Proof.
  unfold augmentedValues.
  destruct (findLatestUserTextMessageIndex values) as [i|] eqn:Hlatest; [|done].
  destruct (values !! i) as [target|] eqn:Hi; [|done].
  destruct (content target) as [text|] eqn:Hc; [|done].
  assert (Hgen : ∀ l n j m',
             (∀ m, l !! j = Some m → isUserText m' = isUserText m) →
             findLatestFrom n (<[j := m']> l) = findLatestFrom n l).
  { induction l as [|m l IH]; intros n j m' Hsame; [done|].
    destruct j as [|j]; simpl.
    - by rewrite (Hsame m eq_refl).
    - rewrite IH; [done|]. intros m0 Hm0. by apply Hsame. }
  unfold findLatestUserTextMessageIndex in *. rewrite Hgen; [done|].
  intros m Hm. rewrite Hi in Hm. injection Hm as <-.
  unfold isUserText. simpl. by rewrite Hc.
Qed.

(** The events of [augmentLatest]: one call of the [code_summary] handler
    when the list has a user message with string content and the tool is
    there. *)
Lemma augmentLatest_trace (h0 : Heap) (messages : list loc) (s : State)
    (values : list Message) :
  viewInv h0 (messages, heap s) values →
  trace (augmentLatest JSON_stringify messages s)
  = trace s ++ if bool_decide (is_Some (findLatestUserTextMessageIndex values))
               then codeSummaryEvents s else [].
Proof.
  intros (_ & _ & _ & Hv). simpl in Hv. unfold augmentLatest. rewrite Hv.
  destruct (findLatestUserTextMessageIndex values) as [t|] eqn:Hlatest;
    [|by rewrite app_nil_r].
  rewrite bool_decide_eq_true_2 by eauto.
  destruct (findLatestFrom_content values 0 t Hlatest) as (target & text & Ht & Hc & _).
  rewrite Nat.sub_0_r in Ht.
  rewrite <- Hv, list_lookup_fmap in Ht.
  destruct (messages !! t) as [l|]; [|done]. simpl in Ht. injection Ht as Ht.
  rewrite Ht, Hc.
  pose proof (buildAugmentedPrompt_spec JSON_stringify text s) as Hb.
  destruct (buildAugmentedPrompt JSON_stringify text s) as [augmented s1].
  simpl in Hb. destruct Hb as (-> & _ & _ & Htrace).
  by rewrite augmentedPromptOf_differs.
Qed.

Lemma prepareMessages_trace (userMessage : string) (options : Options) (s : State) :
  wellFormed s →
  trace (prepareMessages JSON_stringify userMessage options s).2
  = trace s ++ summaryEvents JSON_stringify userMessage options s.
Proof.
  intros Hw. unfold prepareMessages, summaryEvents, outboundValues.
  set (s1 := beginTurn userMessage options s).
  pose proof (beginTurn_wellFormed userMessage options s Hw) as Hw1. fold s1 in Hw1.
  pose proof (outboundMessages_spec options s1 Hw1) as Ho.
  pose proof (codeSummaryOutcome_prepared userMessage options s Hw) as Hsame.
  fold s1 in Hsame.
  destruct (beginTurn_spec userMessage options s) as [Hsame0 Hgrow].
  fold s1 in Hgrow.
  assert (Htrace1 : trace s1 = trace s).
  { destruct Hgrow as (_ & _ & _ & Ht & _). rewrite app_nil_r in Ht.
    destruct Hsame0 as (_ & _ & _ & _ & _ & _ & _ & _ & Ht'). congruence. }
  assert (Htools1 : tools (manager s1) = tools (manager s)).
  { destruct Hgrow as (_ & _ & _ & _ & _ & _ & Ht1 & _).
    destruct Hsame0 as (_ & _ & _ & _ & _ & Ht0 & _). congruence. }
  destruct (outboundMessages options s1) as [messages s2].
  simpl in Ho, Hsame. destruct Ho as (Hi & Hm & _ & Ht). simpl.
  destruct (negb (isContinuationMarker userMessage)); simpl.
  - rewrite (augmentLatest_trace (heap s1) messages s2 _ Hi), Ht, Htrace1.
    rewrite augmentedValues_latest. f_equal.
    replace (codeSummaryEvents s2) with (codeSummaryEvents s); [done|].
    unfold codeSummaryEvents. by rewrite Hm, Htools1.
  - rewrite app_nil_r. congruence.
Qed.

Lemma finish_answered_result (MAX : Z) (v : LoopVars) (counter : Z) (turns : list Turn)
    (response : Response) :
  continueProcessing v = false →
  finalResponse v = Some (answerResponse (counter + 2 * Z.of_nat (length turns)) response) →
  lv_allToolCalls v = flat_map turnCalls turns →
  lv_allToolResults v = flat_map turnResults turns →
  finish MAX v = Ok (answeredResult counter turns response).
Proof.
  intros Hc Hfin Hcalls Hres. unfold finish. rewrite Hc, andb_false_r, Hfin. simpl.
  by rewrite Hcalls, Hres.
Qed.

Lemma finish_paused_result (MAX : Z) (v : LoopVars) (turns : list Turn) :
  continueProcessing v = true → iterations v = Z.max 0 MAX →
  finalResponse v = (turnResponse <$> last turns) →
  lv_allToolCalls v = flat_map turnCalls turns →
  lv_allToolResults v = flat_map turnResults turns →
  finish MAX v = Ok (pausedResult MAX turns).
Proof.
  intros Hc Hit Hfin Hcalls Hres. unfold finish, pausedResult. rewrite Hc, Hit.
  replace (MAX <=? Z.max 0 MAX) with true by (symmetry; apply Z.leb_le; lia).
  simpl. rewrite Hfin, Hcalls, Hres. by destruct (last turns).
Qed.

(** A run of [sendMessage] with a provider configured, in full: the events
    before the loop, the turns, how it ended and what is returned. *)
Lemma sendMessage_run (userMessage : string) (options : Options) (s : State)
    (provider : AIProvider) :
  wellFormed s → getProvider (manager s) = Some provider →
  let s1 := beginTurn userMessage options s in
  let MAX := maxIterationsFor options (isContinuationMarker userMessage) in
  let outbound := outboundValues JSON_stringify userMessage options s in
  let counter := messageIdCounter (manager s1) in
  let run := sendMessage JSON_stringify userMessage options s in
  ∃ turns ending,
    trace run.2 = trace s ++ summaryEvents JSON_stringify userMessage options s
                  ++ runEvents (tools (manager s)) outbound turns ending ∧
    chain (tools (manager s)) (Z.to_nat MAX) counter outbound turns ending ∧
    historyValues run.2 = historyValues s1 ++ runMessages counter turns ending ∧
    resultOf provider options (tools (manager s)) MAX counter outbound turns ending
             run.1.
Proof.
  intros Hw Hprov s1 MAX outbound counter run. unfold run, sendMessage. rewrite Hprov.
  pose proof (prepareMessages_spec JSON_stringify userMessage options s Hw) as Hprep.
  pose proof (prepareMessages_trace userMessage options s Hw) as Hprelude.
  pose proof (beginTurn_wellFormed userMessage options s Hw) as Hw1.
  destruct (beginTurn_spec userMessage options s) as [Hsame Hgrow1].
  fold s1 in Hprep, Hw1, Hgrow1.
  destruct (prepareMessages JSON_stringify userMessage options s) as [messages s2].
  simpl in Hprep, Hprelude. destruct Hprep as (Hi & Hm2 & _).
  pose proof Hi as (Hp & Hr & Hn & Hv). simpl in Hp, Hr, Hn, Hv.
  assert (Hw2 : wellFormed s2).
  { unfold wellFormed. rewrite Hm2. by eapply valid_locs_preserves. }
  assert (Hvalid : valid_locs (heap s2) messages).
  { eapply Forall_impl; [exact Hr|]. intros l Hl. simpl in Hl. lia. }
  assert (Htools1 : tools (manager s1) = tools (manager s)).
  { destruct Hgrow1 as (_ & _ & _ & _ & _ & _ & Ht1 & _).
    destruct Hsame as (_ & _ & _ & _ & _ & Ht0 & _). congruence. }
  fold MAX.
  set (v0 := mkLoopVars messages true None [] [] 0).
  destruct (loop_run provider options MAX (Z.to_nat MAX) v0 s2 eq_refl
              ltac:(simpl; lia) Hvalid)
    as (turns & ending & Hchain & Hg & Hout).
  simpl in Hchain, Hg, Hout. rewrite Hv, Hm2, Htools1 in Hchain, Hg, Hout.
  fold outbound counter in Hchain, Hg, Hout.
  pose proof (grows_history_values s2 _ _ _ Hw2 Hg) as Hvalues.
  pose proof Hg as (_ & _ & _ & Htrace & _).
  exists turns, ending.
  assert (Hhistory : map (deref (heap s2)) (conversationHistory (manager s2))
                     = historyValues s1).
  { unfold historyValues. rewrite Hm2. by apply preserves_map_deref. }
  unfold loopOutcome in Hout.
  destruct (loop (Z.to_nat MAX) provider options MAX v0 s2) as [[v'|message] s3];
    simpl in *.
  - split_and!; try done.
    + by rewrite Htrace, Hprelude, <- app_assoc.
    + unfold historyValues at 1. by rewrite Hvalues, Hhistory.
    + destruct ending as [| |response]; simpl; [|done|].
      * destruct Hout as (Hc & Hit & Hfin & Hcalls & Hres).
        apply finish_paused_result; try done; try lia.
      * destruct Hout as (Hc & Hfin & Hcalls & Hres).
        by apply finish_answered_result.
  - split_and!; try done.
    + by rewrite Htrace, Hprelude, <- app_assoc.
    + unfold historyValues at 1. by rewrite Hvalues, Hhistory.
    + destruct ending as [| |response]; simpl; try done.
      destruct Hout as (w & w' & Hcall). by exists message, w, w'.
Qed.

End SendMessageRunFacts.

(** ** Results, errors and continuations *)

Section RunLength.

Context {World : Type}.

Lemma chain_length (availableTools : list (@UniversalTool World)) (turns : list Turn) :
  ∀ rounds counter outbound ending,
  chain availableTools rounds counter outbound turns ending →
  match ending with
  | Paused => length turns = rounds
  | Rejected | Answered _ => (length turns < rounds)%nat
  end.
Proof.
  induction turns as [|t turns IH]; intros rounds counter outbound ending Hchain.
  - simpl in Hchain. destruct ending; simpl; [done|done|by destruct Hchain].
  - simpl in Hchain. destruct Hchain as (Hpos & _ & _ & _ & _ & Hrest).
    specialize (IH _ _ _ _ Hrest). destruct ending; simpl; lia.
Qed.

Lemma chain_answered (availableTools : list (@UniversalTool World))
    (turns : list Turn) :
  ∀ rounds counter outbound response,
  chain availableTools rounds counter outbound turns (Answered response) →
  r_toolCalls response = [].
Proof.
  induction turns as [|t turns IH]; intros rounds counter outbound response Hchain;
    simpl in Hchain.
  - by destruct Hchain.
  - destruct Hchain as (_ & _ & _ & _ & _ & Hrest). by eapply IH.
Qed.

End RunLength.

Lemma findLatestFrom_snoc (messages : list Message) (m : Message) :
  isUserText m = true →
  ∀ n, findLatestFrom n (messages ++ [m]) = Some (n + length messages)%nat.
Proof.
  intros Hm. induction messages as [|x messages IH]; intros n; simpl.
  - rewrite Hm. f_equal. lia.
  - rewrite IH. f_equal. lia.
Qed.

Lemma findLatestFrom_shift (messages : list Message) :
  ∀ n k, is_Some (findLatestFrom n messages) → is_Some (findLatestFrom k messages).
Proof.
  induction messages as [|x messages IH]; intros n k; simpl; [done|].
  destruct (findLatestFrom (S n) messages) eqn:Hn.
  - intros _. destruct (IH (S n) (S k)) as [j ->]; [by rewrite Hn|eauto].
  - intros Hx. destruct (findLatestFrom (S k) messages); [eauto|].
    destruct (isUserText x); [eauto|done].
Qed.

Lemma findLatest_withSystemPrompt (prompt : option string) (view : list Message) :
  is_Some (findLatestUserTextMessageIndex view) →
  is_Some (findLatestUserTextMessageIndex (withSystemPrompt prompt view)).
Proof.
  unfold withSystemPrompt, findLatestUserTextMessageIndex. intros Hview.
  destruct (truthy_ostr prompt && _); [|done]. simpl.
  destruct (findLatestFrom_shift view 0 1 Hview) as [j ->]. eauto.
Qed.

(** A user message with string content at the end of the history is the
    last message of the view. *)
Lemma viewValues_snoc_user (minimizeTokens : bool) (history : list Message)
    (m : Message) :
  isUserText m = true →
  ∃ before, viewValues minimizeTokens (history ++ [m]) = before ++ [m].
Proof.
  intros Hm. unfold viewValues. destruct minimizeTokens; simpl; [|by exists history].
  rewrite indexed_snoc, fold_left_app. cbn [fold_left].
  match goal with |- ∃ before, viewStepValues _ _ _ ?acc _ = _ => exists acc end.
  unfold viewStepValues. case_bool_decide; [done|].
  unfold isUserText in Hm. unfold isToolResultFirst.
  by destruct (role m), (content m).
Qed.

Lemma historyWindow_snoc (h : Heap) (limit : Z) (ch : list loc) (l : loc) :
  ∃ n, historyWindow h limit (ch ++ [l]) = drop n ch ++ [l].
Proof.
  assert (Hdrop : ∀ n, (n ≤ length ch)%nat → drop n (ch ++ [l]) = drop n ch ++ [l]).
  { intros n Hn. by rewrite drop_app_le. }
  unfold historyWindow.
  destruct (0 <? limit) eqn:Hpos; [|by exists 0%nat].
  apply Z.ltb_lt in Hpos. unfold sliceHistoryByUserMessages.
  replace (limit <=? 0) with false by (symmetry; apply Z.leb_gt; lia).
  destruct (sliceIndexFrom limit 0 (rev (map (deref h) (ch ++ [l])))) as [j|] eqn:Hslice.
  - apply sliceIndexFrom_bound in Hslice; [|done].
    rewrite length_rev, length_map, length_app in Hslice. simpl in Hslice.
    rewrite length_drop, length_app. simpl.
    replace (length ch + 1 - (length ch + 1 - j))%nat with j by lia.
    destruct (findLastToolInteractionIndex (map (deref h) (ch ++ [l]))) as [last|].
    + destruct (last <? j)%nat eqn:Hlt.
      * apply Nat.ltb_lt in Hlt. exists last. apply Hdrop. lia.
      * exists j. apply Hdrop. lia.
    + exists j. apply Hdrop. lia.
  - exists 0%nat.
    by destruct (findLastToolInteractionIndex (map (deref h) (ch ++ [l]))) as [last|];
      rewrite ?Nat.sub_diag; simpl.
Qed.

Section SendMessageResults.

Context {World : Type}.
Variable JSON_stringify : jsval → option string.

Abbreviation State := (@State World).
Abbreviation UniversalTool := (@UniversalTool World).
Abbreviation AIProvider := (@AIProvider World).
Abbreviation Options := (@Options World).

(** When [sendMessage] appends the user message, the outbound list has a
    user message with string content. *)
Lemma outboundValues_has_user_text (userMessage : string) (options : Options)
    (s : State) :
  isContinuationMarker userMessage = false → preAddedUserMessage options = false →
  is_Some (findLatestUserTextMessageIndex
             (outboundValues JSON_stringify userMessage options s)).
Proof.
  intros Hfresh Hadd. unfold outboundValues. rewrite Hfresh. simpl.
  rewrite augmentedValues_latest. apply findLatest_withSystemPrompt.
  destruct (beginTurn_spec userMessage options s) as [_ Hgrow].
  unfold userMessageAdded in Hgrow. rewrite Hfresh, Hadd in Hgrow. simpl in Hgrow.
  destruct Hgrow as (Hheap & Hhistory & _).
  set (s1 := beginTurn userMessage options s) in *.
  set (e := ensureHistoryMessageIds s) in *.
  simpl in Hhistory. rewrite Hhistory.
  destruct (historyWindow_snoc (heap s1) (default 0 (opt_limitMessages options))
              (conversationHistory (manager e)) (length (heap e))) as [n ->].
  rewrite map_app. simpl. rewrite Hheap at 2. rewrite deref_alloc_new.
  destruct (viewValues_snoc_user (opt_minimizeTokens options)
              (map (deref (heap s1)) (drop n (conversationHistory (manager e))))
              (set_id (IdNum (messageIdCounter (manager e) + 1))
                      (newMessage user (Text userMessage))) eq_refl) as [before ->].
  unfold findLatestUserTextMessageIndex. by rewrite findLatestFrom_snoc.
Qed.

(** X10. The result [sendMessage] returns lists under [allToolCalls] the
    tool calls of every round of the call, in order, each with the id of the
    assistant message that holds it, and under [allToolResults] the entries
    recorded for them with the id of their tool-result message.  After a
    final answer it carries the text of the answer, no pending tool calls,
    [needsContinuation] false and the id of the stored final message (none
    when the text is empty and nothing was stored).  When the budget ends
    first, every round was a tool round; the result carries the text and
    the calls of the last response, or the limit notice when that text is
    empty, the ids of the last two stored messages, [needsContinuation]
    true, [iterationsUsed] equal to the budget and [maxIterations]. *)
Theorem sendMessage_result (userMessage : string) (options : Options) (s : State)
    (provider : AIProvider) :
  wellFormed s → getProvider (manager s) = Some provider →
  let s1 := beginTurn userMessage options s in
  let MAX := maxIterationsFor options (isContinuationMarker userMessage) in
  let outbound := outboundValues JSON_stringify userMessage options s in
  let counter := messageIdCounter (manager s1) in
  let run := sendMessage JSON_stringify userMessage options s in
  ∃ turns ending,
    chain (tools (manager s)) (Z.to_nat MAX) counter outbound turns ending ∧
    historyValues run.2 = historyValues s1 ++ runMessages counter turns ending ∧
    match ending with
    | Answered response =>
        run.1 = Ok (mkExchangeResult
                      (r_content response) [] (r_usage response)
                      (if truthy_str (r_content response)
                       then Some (IdNum (counter + 2 * Z.of_nat (length turns) + 1))
                       else None)
                      None false None None
                      (flat_map turnCalls turns) (flat_map turnResults turns))
    | Paused =>
        length turns = Z.to_nat MAX ∧
        run.1 = Ok (pausedResult MAX turns)
    | Rejected => ∃ message, run.1 = Threw message
    end.
Proof.
  intros Hw Hprov s1 MAX outbound counter run.
  destruct (sendMessage_run JSON_stringify userMessage options s provider Hw Hprov)
    as (turns & ending & _ & Hchain & Hhistory & Hresult).
  exists turns, ending. split; [done|]. split; [done|].
  pose proof (chain_length _ _ _ _ _ _ Hchain) as Hlen.
  destruct ending as [| |response]; simpl in Hresult.
  - done.
  - destruct Hresult as (message & _ & _ & Hthrew & _). eauto.
  - fold run in Hresult. rewrite Hresult. unfold answeredResult.
    by rewrite (chain_answered _ _ _ _ _ _ Hchain).
Qed.


(** X12. A call with the marker "__continue_tools__" appends no user
    message, makes no [code_summary] call and augments nothing: the first
    provider call receives the view of the stored history, with the system
    prompt in front, as it is; the trace grows by the events of the rounds
    alone and the history by their messages.  The budget is
    [options.maxIterations], and 20 when that is absent or 0. *)
Theorem sendMessage_continuation (options : Options) (s : State)
    (provider : AIProvider) :
  wellFormed s → getProvider (manager s) = Some provider →
  let s1 := ensureHistoryMessageIds s in
  let MAX := match opt_maxIterations options with
             | Some n => if n =? 0 then 20 else n
             | None => 20
             end in
  let outbound :=
    withSystemPrompt (systemPrompt (manager s))
      (viewValues (opt_minimizeTokens options)
         (map (deref (heap s1))
              (historyWindow (heap s1) (default 0 (opt_limitMessages options))
                             (conversationHistory (manager s))))) in
  let counter := messageIdCounter (manager s1) in
  let run := sendMessage JSON_stringify "__continue_tools__" options s in
  ∃ turns ending,
    chain (tools (manager s)) (Z.to_nat MAX) counter outbound turns ending ∧
    trace run.2 = trace s ++ runEvents (tools (manager s)) outbound turns ending ∧
    historyValues run.2 = historyValues s1 ++ runMessages counter turns ending.
Proof.
  intros Hw Hprov s1 MAX outbound counter run.
  destruct (sendMessage_run JSON_stringify "__continue_tools__" options s provider
              Hw Hprov) as (turns & ending & Htrace & Hchain & Hhistory & _).
  destruct (ensureHistoryMessageIds_sameButIds s)
    as (_ & _ & Hch & _ & _ & _ & Hprompt & _).
  fold s1 in Hch, Hprompt.
  assert (Hbegin : beginTurn "__continue_tools__" options s = s1) by done.
  assert (Hout : outboundValues JSON_stringify "__continue_tools__" options s = outbound).
  { unfold outboundValues. rewrite Hbegin. simpl negb. cbv iota.
    unfold outbound. by rewrite Hprompt, Hch. }
  rewrite Hbegin, Hout in *.
  exists turns, ending. split_and!; try done.
Qed.

(** X13. In a call that is not a continuation, [sendMessage] calls the
    handler of the [code_summary] tool once, without arguments, before the
    first provider call, when such a tool is registered and the outbound
    list has a user message with string content, and calls no handler
    before the loop otherwise; the events of the rounds follow.  When the
    call appends the user message itself, the outbound list has such a
    message, so a registered [code_summary] runs once on every such call. *)
Theorem sendMessage_code_summary_call (userMessage : string) (options : Options)
    (s : State) (provider : AIProvider) :
  wellFormed s → getProvider (manager s) = Some provider →
  isContinuationMarker userMessage = false →
  let s1 := beginTurn userMessage options s in
  let MAX := maxIterationsFor options false in
  let outbound := outboundValues JSON_stringify userMessage options s in
  let summaryCalls :=
    match findLatestUserTextMessageIndex outbound, findTool (tools (manager s)) "code_summary" with
    | Some _, Some _ => [CallHandler "code_summary" JUndefined]
    | _, _ => []
    end in
  let run := sendMessage JSON_stringify userMessage options s in
  (∃ turns ending,
     chain (tools (manager s)) (Z.to_nat MAX) (messageIdCounter (manager s1))
           outbound turns ending ∧
     trace run.2
     = trace s ++ summaryCalls ++ runEvents (tools (manager s)) outbound turns ending) ∧
  (preAddedUserMessage options = false →
     is_Some (findLatestUserTextMessageIndex outbound)).
Proof.
  intros Hw Hprov Hfresh s1 MAX outbound summaryCalls run. split.
  - destruct (sendMessage_run JSON_stringify userMessage options s provider Hw Hprov)
      as (turns & ending & Htrace & Hchain & _).
    rewrite Hfresh in Hchain. exists turns, ending. split; [done|].
    fold run in Htrace. rewrite Htrace. do 2 f_equal.
    unfold summaryEvents, summaryCalls, codeSummaryEvents. rewrite Hfresh. simpl.
    fold outbound. destruct (findLatestUserTextMessageIndex outbound).
    + by rewrite bool_decide_eq_true_2 by eauto.
    + rewrite bool_decide_eq_false_2; [done|]. by intros [? ?].
  - intros Hadd. by apply outboundValues_has_user_text.
Qed.

End SendMessageResults.

(** The end-to-end scenario: one round with [echo], then the answer. *)
Lemma sendMessage_result_witness :
  let s := Stubs.start Stubs.managerP in
  let s1 := beginTurn "hi" Stubs.defaults s in
  let MAX := maxIterationsFor Stubs.defaults (isContinuationMarker "hi") in
  let counter := messageIdCounter (manager s1) in
  let run := sendMessage Stubs.noStringify "hi" Stubs.defaults s in
  ∃ turns ending,
    historyValues run.2 = historyValues s1 ++ runMessages counter turns ending ∧
    match ending with
    | Answered response =>
        run.1 = Ok (mkExchangeResult
                      (r_content response) [] (r_usage response)
                      (if truthy_str (r_content response)
                       then Some (IdNum (counter + 2 * Z.of_nat (length turns) + 1))
                       else None)
                      None false None None
                      (flat_map turnCalls turns) (flat_map turnResults turns))
    | Paused =>
        length turns = Z.to_nat MAX ∧
        run.1 = Ok (pausedResult MAX turns)
    | Rejected => ∃ message, run.1 = Threw message
    end.
Proof.
  intros s s1 MAX counter run.
  destruct (sendMessage_result Stubs.noStringify "hi" Stubs.defaults s Stubs.providerP
              (start_wellFormed Stubs.managerP eq_refl) eq_refl)
    as (turns & ending & _ & Hhistory & Hresult).
  exists turns, ending. exact (conj Hhistory Hresult).
Defined.


(** A continuation on the stub orchestrator. *)
Lemma sendMessage_continuation_witness :
  let s := Stubs.start Stubs.managerP in
  let s1 := ensureHistoryMessageIds s in
  let outbound :=
    withSystemPrompt (systemPrompt (manager s))
      (viewValues (opt_minimizeTokens Stubs.defaults)
         (map (deref (heap s1))
              (historyWindow (heap s1) (default 0 (opt_limitMessages Stubs.defaults))
                             (conversationHistory (manager s))))) in
  let run := sendMessage Stubs.noStringify "__continue_tools__" Stubs.defaults s in
  ∃ turns ending,
    trace run.2 = trace s ++ runEvents (tools (manager s)) outbound turns ending ∧
    historyValues run.2
    = historyValues s1 ++ runMessages (messageIdCounter (manager s1)) turns ending.
Proof.
  intros s s1 outbound run.
  destruct (sendMessage_continuation Stubs.noStringify Stubs.defaults s Stubs.providerP
              (start_wellFormed Stubs.managerP eq_refl) eq_refl)
    as (turns & ending & _ & Htrace & Hhistory).
  exists turns, ending. exact (conj Htrace Hhistory).
Defined.

(** A call on an orchestrator with a [code_summary] tool. *)
Lemma sendMessage_code_summary_call_witness :
  is_Some (findLatestUserTextMessageIndex
             (outboundValues Stubs.noStringify "hi" Stubs.defaults
                (Stubs.start (Stubs.managerSummarizing (JStr "two files"))))).
Proof.
  apply (sendMessage_code_summary_call Stubs.noStringify "hi" Stubs.defaults
           (Stubs.start (Stubs.managerSummarizing (JStr "two files"))) Stubs.answering
           (start_wellFormed (Stubs.managerSummarizing (JStr "two files")) eq_refl)
           eq_refl eq_refl).
  reflexivity.
Defined.

(** ** Well-formed provider responses *)

Lemma js_get_prop (v : jsval) (key : string) :
  nullish v = false → js_get v key = Ok (js_prop v key).
Proof. by destruct v. Qed.

Lemma js_get_nullish (v : jsval) (key : string) :
  nullish v = true → js_get v key = Threw TypeError.
Proof. by destruct v. Qed.

Lemma is_string_exclusive (v : jsval) (a b : string) :
  a ≠ b → is_string v a = true → is_string v b = false.
Proof.
  intros Hne. destruct v; simpl; try done. intros Ha%String.eqb_eq. subst.
  by apply String.eqb_neq.
Qed.

Section ClaudeResponses.

Lemma foldM_cons {A B : Type} (f : B → A → Result B) (x : A) (l : list A) (b : B) :
  foldM f (x :: l) b = f b x ≫= foldM f l.
Proof. done. Qed.

Lemma contentStep_spec (result : Parsed) (item : jsval) :
  ClaudeProvider.contentStep result item
  = if nullish item then Threw TypeError
    else Ok (if is_string (js_prop item "type") "text"
             then appendContent (js_prop item "text") result
             else if is_string (js_prop item "type") "tool_use"
                  then pushToolCall (mkParsedCall (js_prop item "id") (js_prop item "name")
                                                  (js_prop item "input")) result
                  else result).
Proof.
  unfold ClaudeProvider.contentStep.
  destruct item; try reflexivity; cbn [js_get nullish mbind Result_bind];
    match goal with
    | |- context [is_string (js_prop ?v "type") "text"] =>
        by destruct (is_string (js_prop v "type") "text"),
                    (is_string (js_prop v "type") "tool_use")
    end.
Qed.

Lemma append_empty_r (s : string) : s +:+ "" = s.
Proof.
  induction s as [|c s IH]; [done|].
  change (String c s +:+ "") with (String c (s +:+ "")). by rewrite IH.
Qed.

Lemma contentStep_fold (items : list jsval) :
  ∀ content calls usage raw,
  foldM ClaudeProvider.contentStep items (mkParsed (JStr content) calls usage raw)
  = if forallb (fun item => negb (nullish item)) items
    then Ok (mkParsed (JStr (content +:+ textOfParts items))
                      (calls ++ toolUsesOfParts items) usage raw)
    else Threw TypeError.
Proof.
  induction items as [|item items IH]; intros content calls usage raw.
  - simpl. by rewrite append_empty_r, app_nil_r.
  - rewrite foldM_cons, contentStep_spec. cbn [forallb textOfParts].
    unfold toolUsesOfParts. cbn [omap list_omap].
    destruct (nullish item); [done|]. cbn [negb andb mbind Result_bind].
    destruct (is_string (js_prop item "type") "text") eqn:Htext.
    + rewrite (is_string_exclusive _ "text" "tool_use" ltac:(done) Htext).
      unfold appendContent. cbn [p_content p_toolCalls p_usage p_raw js_String].
      rewrite IH. by rewrite append_assoc.
    + destruct (is_string (js_prop item "type") "tool_use") eqn:Huse.
      * unfold pushToolCall. cbn [p_content p_toolCalls p_usage p_raw].
        rewrite IH. by rewrite <- app_assoc.
      * by rewrite IH.
Qed.

(** X14. On a response object whose [content] is an array, the Claude
    adapter returns as text the [text] of the parts of type "text" put
    together in order, and as tool calls one call for each part of type
    "tool_use", in order, with the part's [id], [name] and [input]; parts of
    any other type are passed over, [usage] is the one of the response, or
    the empty object.  It throws a [TypeError] exactly when a part is [null]
    or [undefined]. *)
Theorem ClaudeProvider_parseResponse_parts (fields : list (string * jsval))
    (items : list jsval) :
  js_field "content" fields = Some (JArr items) →
  ClaudeProvider.parseResponse (JObj fields)
  = if forallb (fun item => negb (nullish item)) items
    then Ok (mkParsed (JStr (textOfParts items)) (toolUsesOfParts items)
                      (js_or (js_prop (JObj fields) "usage") (JObj [])) (JObj fields))
    else Threw TypeError.
Proof.
  intros Hcontent. unfold ClaudeProvider.parseResponse.
  cbn [js_get mbind Result_bind js_prop]. rewrite Hcontent.
  simpl. by rewrite contentStep_fold.
Qed.

End ClaudeResponses.

Lemma ClaudeProvider_parseResponse_parts_witness :
  ClaudeProvider.parseResponse (JObj [("content", JArr claudeParts)])
  = Ok (mkParsed (JStr "Let me check.")
                 [mkParsedCall (JStr "t1") (JStr "echo") (JStr "hi")]
                 (JObj []) (JObj [("content", JArr claudeParts)])).
Proof.
  exact (ClaudeProvider_parseResponse_parts [("content", JArr claudeParts)] claudeParts
           eq_refl).
Defined.

Section GeminiResponses.

Variable randomUUID : nat → string.

Lemma partStep_spec (result : Parsed) (part : jsval) :
  GeminiProvider.partStep randomUUID result part
  = if nullish part then Threw TypeError
    else Ok (if truthy (js_prop part "text")
             then appendContent (js_prop part "text") result
             else if truthy (js_prop part "functionCall")
                  then pushToolCall
                         (mkParsedCall (JStr (randomUUID (length (p_toolCalls result))))
                                       (js_prop (js_prop part "functionCall") "name")
                                       (js_prop (js_prop part "functionCall") "args"))
                         result
                  else result).
Proof.
  unfold GeminiProvider.partStep.
  destruct part; try reflexivity; cbn [js_get nullish mbind Result_bind];
    match goal with
    | |- context [truthy (js_prop ?v "text")] =>
        by destruct (truthy (js_prop v "text")), (truthy (js_prop v "functionCall"))
    end.
Qed.

Lemma partStep_fold (parts : list jsval) :
  ∀ content calls usage raw,
  foldM (GeminiProvider.partStep randomUUID) parts (mkParsed (JStr content) calls usage raw)
  = if forallb (fun part => negb (nullish part)) parts
    then Ok (mkParsed (JStr (content +:+ textOfGeminiParts parts))
                      (calls ++ numberedCalls randomUUID (length calls)
                                              (functionCallsOfParts parts))
                      usage raw)
    else Threw TypeError.
Proof.
  induction parts as [|part parts IH]; intros content calls usage raw.
  - simpl. by rewrite append_empty_r, app_nil_r.
  - rewrite foldM_cons, partStep_spec. cbn [forallb textOfGeminiParts].
    unfold functionCallsOfParts. cbn [omap list_omap].
    destruct (nullish part); [done|]. cbn [negb andb mbind Result_bind].
    destruct (truthy (js_prop part "text")) eqn:Htext; cbn [negb andb].
    + unfold appendContent. cbn [p_content p_toolCalls p_usage p_raw js_String].
      rewrite IH. by rewrite append_assoc.
    + destruct (truthy (js_prop part "functionCall")) eqn:Hcall.
      * unfold pushToolCall. cbn [p_content p_toolCalls p_usage p_raw numberedCalls].
        rewrite IH, length_app, <- app_assoc. simpl.
        by rewrite Nat.add_1_r.
      * by rewrite IH.
Qed.

(** X15. On a response with a first candidate whose [content.parts] is an
    array, the Gemini adapter returns as text the [text] of the parts that
    have one, put together in order, and as tool calls the function calls of
    the parts without text, in order: the [k]-th of them under the [k]-th id
    drawn from [crypto.randomUUID], with the [name] and [args] of the
    function call.  A function call in a part that also has text is dropped,
    the other candidates are not read, and the adapter throws a [TypeError]
    exactly when a part is [null] or [undefined]. *)
Theorem GeminiProvider_parseResponse_parts (fields : list (string * jsval))
    (candidate : jsval) (others parts : list jsval) :
  js_field "candidates" fields = Some (JArr (candidate :: others)) →
  js_prop (js_prop candidate "content") "parts" = JArr parts →
  GeminiProvider.parseResponse randomUUID (JObj fields)
  = if forallb (fun part => negb (nullish part)) parts
    then Ok (mkParsed (JStr (textOfGeminiParts parts))
                      (numberedCalls randomUUID 0 (functionCallsOfParts parts))
                      (geminiUsage (JObj fields)) (JObj fields))
    else Threw TypeError.
Proof.
  intros Hcandidates Hparts. unfold GeminiProvider.parseResponse, geminiUsage.
  cbn [js_get mbind Result_bind js_prop]. rewrite Hcandidates.
  cbn [default from_option id truthy js_at lookup list_lookup mret Result_ret mbind Result_bind].
  assert (Hcontent : truthy (js_prop candidate "content") = true).
  { destruct (js_prop candidate "content"); try done. }
  assert (Hcandidate : truthy candidate = true).
  { destruct candidate; try done. }
  rewrite Hcandidate, Hcontent, Hparts. cbn [truthy andb js_iterate mbind Result_bind].
  rewrite partStep_fold.
  destruct (forallb _ parts); [|done]. cbn [mbind Result_bind app length].
  by destruct (truthy (default JUndefined (js_field "usageMetadata" fields))).
Qed.

End GeminiResponses.

Lemma GeminiProvider_parseResponse_parts_witness :
  GeminiProvider.parseResponse string_of_nat (JObj geminiResponse)
  = Ok (mkParsed (JStr "On it. Done.") [mkParsedCall (JStr "0") (JStr "echo") (JStr "hi")]
                 (JObj []) (JObj geminiResponse)).
Proof.
  exact (GeminiProvider_parseResponse_parts string_of_nat geminiResponse
           (JObj [("content", JObj [("parts", JArr geminiParts)])]) [] geminiParts
           eq_refl eq_refl).
Defined.

Section OpenAIResponses.

Variable JSON_parse : jsval → Result jsval.

Lemma toolCallOf_spec (tc : jsval) :
  hasFunction tc = true →
  OpenAIProvider.toolCallOf JSON_parse tc
  = parsed ← JSON_parse (argumentsOf tc); mret (parsedCallOf tc parsed).
Proof.
  unfold hasFunction, OpenAIProvider.toolCallOf, argumentsOf, parsedCallOf.
  intros [Htc Hfn]%andb_true_iff. apply negb_true_iff in Htc, Hfn.
  rewrite !(js_get_prop tc _ Htc). cbn [mbind Result_bind].
  by rewrite !(js_get_prop _ _ Hfn).
Qed.

Lemma mapM_toolCallOf_parsed (items parsed : list jsval) :
  forallb hasFunction items = true →
  Forall2 (fun tc p => JSON_parse (argumentsOf tc) = Ok p) items parsed →
  mapM (OpenAIProvider.toolCallOf JSON_parse) items
  = Ok (zip_with parsedCallOf items parsed).
Proof.
  intros Hok Hparsed. induction Hparsed as [|tc p items parsed Hp _ IH]; [done|].
  simpl in Hok. apply andb_true_iff in Hok as [Htc Hok].
  cbn [mapM zip_with]. rewrite (toolCallOf_spec tc Htc), Hp. cbn [mbind Result_bind mret Result_ret].
  by rewrite (IH Hok).
Qed.

Lemma mapM_toolCallOf_rejected (good parsed : list jsval) (bad : jsval)
    (more : list jsval) (e : string) :
  forallb hasFunction (good ++ [bad]) = true →
  Forall2 (fun tc p => JSON_parse (argumentsOf tc) = Ok p) good parsed →
  JSON_parse (argumentsOf bad) = Threw e →
  mapM (OpenAIProvider.toolCallOf JSON_parse) (good ++ bad :: more) = Threw e.
Proof.
  intros Hok Hparsed Hbad. induction Hparsed as [|tc p good parsed Hp _ IH].
  - simpl in Hok. apply andb_true_iff in Hok as [Htc _].
    cbn [app mapM]. by rewrite (toolCallOf_spec bad Htc), Hbad.
  - simpl in Hok. apply andb_true_iff in Hok as [Htc Hok].
    cbn [app mapM]. rewrite (toolCallOf_spec tc Htc), Hp.
    cbn [mbind Result_bind mret Result_ret]. by rewrite (IH Hok).
Qed.

(** X16. On a response whose first choice has a [message] with an array
    [tool_calls] of calls that have a [function], the OpenAI adapter passes
    the [arguments] of every call to [JSON.parse], in order.  When all are
    accepted it returns the content of the message, or the empty string when
    that is [null] or missing, and one tool call for each, with its [id], the
    [name] of its function and the parsed arguments.  When one is rejected,
    [parseResponse] throws that error: the text and the other calls of the
    response are lost with it.  The other choices are not read. *)
Theorem OpenAIProvider_parseResponse_calls (fields : list (string * jsval))
    (choice : jsval) (others : list jsval) (message : list (string * jsval))
    (items : list jsval) :
  js_field "choices" fields = Some (JArr (choice :: others)) →
  js_prop choice "message" = JObj message →
  js_field "tool_calls" message = Some (JArr items) →
  forallb hasFunction items = true →
  (∀ parsed,
     Forall2 (fun tc p => JSON_parse (argumentsOf tc) = Ok p) items parsed →
     OpenAIProvider.parseResponse JSON_parse (JObj fields)
     = Ok (mkParsed (js_or (js_prop (JObj message) "content") (JStr ""))
                    (zip_with parsedCallOf items parsed)
                    (openAIUsage (JObj fields)) (JObj fields))) ∧
  (∀ good parsed bad more e,
     items = good ++ bad :: more →
     Forall2 (fun tc p => JSON_parse (argumentsOf tc) = Ok p) good parsed →
     JSON_parse (argumentsOf bad) = Threw e →
     OpenAIProvider.parseResponse JSON_parse (JObj fields) = Threw e).
Proof.
  intros Hchoices Hmessage Hcalls Hok.
  assert (Hchoice : nullish choice = false) by (by destruct choice).
  assert (Hrun : OpenAIProvider.parseResponse JSON_parse (JObj fields)
                 = toolCalls ← mapM (OpenAIProvider.toolCallOf JSON_parse) items;
                   mret (mkParsed (js_or (js_prop (JObj message) "content") (JStr ""))
                                  toolCalls (openAIUsage (JObj fields)) (JObj fields))).
  { unfold OpenAIProvider.parseResponse, openAIUsage.
    cbn [js_get mbind Result_bind js_prop]. rewrite Hchoices.
    cbn [default from_option id js_at lookup list_lookup mbind Result_bind].
    rewrite (js_get_prop choice _ Hchoice). cbn [mbind Result_bind].
    rewrite Hmessage. cbn [js_get mbind Result_bind js_prop]. rewrite Hcalls.
    cbn [default from_option id truthy]. done. }
  split.
  - intros parsed Hparsed. by rewrite Hrun, (mapM_toolCallOf_parsed items parsed Hok Hparsed).
  - intros good parsed bad more e -> Hparsed Hbad. rewrite Hrun.
    rewrite (mapM_toolCallOf_rejected good parsed bad more e); [done| |done|done].
    rewrite forallb_app in Hok. apply andb_true_iff in Hok as [Hgood Hrest].
    simpl in Hrest. apply andb_true_iff in Hrest as [Hb _].
    rewrite forallb_app. simpl. by rewrite Hgood, Hb.
Qed.

End OpenAIResponses.

Lemma OpenAIProvider_parseResponse_calls_witness :
  OpenAIProvider.parseResponse parseEmptyObject
    (JObj (openAIResponse "Working" [openAICall "c1" "{}"; openAICall "c2" "{"]))
  = Threw "SyntaxError".
Proof.
  pose proof (OpenAIProvider_parseResponse_calls parseEmptyObject
                (openAIResponse "Working" [openAICall "c1" "{}"; openAICall "c2" "{"])
                _ [] _ [openAICall "c1" "{}"; openAICall "c2" "{"]
                eq_refl eq_refl eq_refl eq_refl) as [_ Hrejected].
  apply (Hrejected [openAICall "c1" "{}"] [JObj []] (openAICall "c2" "{") []).
  - reflexivity.
  - by constructor.
  - reflexivity.
Defined.

Section OllamaResponses.

Variable JSON_parse : jsval → Result jsval.
Variable randomUUID : nat → string.
Variable js_plus : jsval → jsval → jsval.

Lemma toolsInContent_spec (text : string) :
  ∃ content calls,
    OllamaProvider.toolsInContent JSON_parse randomUUID text = (JStr content, calls) ∧
    (toolsMatch text = None → content = text ∧ calls = []) ∧
    (∀ whole group e,
       toolsMatch text = Some (whole, group) →
       JSON_parse (JStr (trim group)) = Threw e → content = text ∧ calls = []).
Proof.
  unfold OllamaProvider.toolsInContent. fold (toolsMatch text).
  destruct (toolsMatch text) as [[whole group]|]; [|by exists text, []].
  destruct (JSON_parse (JStr (trim group))) as [toolsJson|e] eqn:Hparse.
  - cbn [mbind Result_bind].
    destruct (OllamaProvider.mapCalls _ _ _) as [calls|e'].
    + exists (trim (removeFirst whole text)), calls. split_and!; [done|done|].
      intros whole' group' e [= <- <-]. congruence.
    + exists text, []. done.
  - exists text, []. done.
Qed.

(** X17. On a response whose [message] has a string as [content] and no
    array [tool_calls], the Ollama adapter never throws.  It returns the
    text as it is, with no tool calls, when the text has no "<tools>"
    closed by "</tool_call>" or "</tools>", and also when [JSON.parse]
    rejects what stands between them: that error is caught. *)
Theorem OllamaProvider_parseResponse_text (fields message : list (string * jsval))
    (text : string) :
  js_field "message" fields = Some (JObj message) →
  js_field "content" message = Some (JStr text) →
  (∀ items, js_prop (JObj message) "tool_calls" ≠ JArr items) →
  ∃ content calls,
    OllamaProvider.parseResponse JSON_parse randomUUID js_plus (JObj fields)
    = Ok (mkParsed (JStr content) calls (ollamaUsage js_plus (JObj fields)) (JObj fields)) ∧
    (String.index 0 "<tools>" text = None → content = text ∧ calls = []) ∧
    (toolsMatch text = None → content = text ∧ calls = []) ∧
    (∀ whole group e,
       toolsMatch text = Some (whole, group) →
       JSON_parse (JStr (trim group)) = Threw e → content = text ∧ calls = []).
Proof.
  intros Hmessage Hcontent Hcalls.
  unfold OllamaProvider.parseResponse, ollamaUsage.
  cbn [js_get mbind Result_bind js_prop]. rewrite Hmessage.
  cbn [default from_option id truthy js_prop]. rewrite Hcontent.
  cbn [default from_option id].
  assert (Hnone : String.index 0 "<tools>" text = None → toolsMatch text = None).
  { intros Hindex. unfold toolsMatch, OllamaProvider.matchTools. by rewrite Hindex. }
  destruct (toolsInContent_spec text) as (content & calls & Hrun & Hplain & Hcaught).
  assert (Hbody :
    (if truthy (js_or (JStr text) (JStr ""))
     then match js_or (JStr text) (JStr "") with
          | JStr text0 => mret (OllamaProvider.toolsInContent JSON_parse randomUUID text0)
          | _ => Threw TypeError
          end
     else mret (js_or (JStr text) (JStr ""), []))
    = Ok (JStr (if truthy (JStr text) then content else text),
          if truthy (JStr text) then calls else [])).
  { unfold js_or. destruct (truthy (JStr text)) eqn:Htruthy.
    - rewrite Htruthy. by rewrite Hrun.
    - simpl in Htruthy. apply negb_false_iff, String.eqb_eq in Htruthy. by subst. }
  specialize (Hcalls) as Hnot.
  cbn [js_prop] in Hnot.
  destruct (default JUndefined (js_field "tool_calls" message)) as [| | | | |items|] eqn:Htc;
    try (rewrite Hbody; cbn [mbind Result_bind mret Result_ret];
         exists (if truthy (JStr text) then content else text),
                (if truthy (JStr text) then calls else []);
         split; [done|];
         destruct (truthy (JStr text)); [by auto|];
         split_and!; by intros).
  by destruct (Hnot items).
Qed.

End OllamaResponses.

Lemma OllamaProvider_parseResponse_text_witness :
  ∃ content calls,
    OllamaProvider.parseResponse parseEmptyObject string_of_nat (fun a _ => a)
      (JObj (ollamaResponse "I call <tools>{</tools> now"))
    = Ok (mkParsed (JStr content) calls (JObj [])
                   (JObj (ollamaResponse "I call <tools>{</tools> now"))) ∧
    content = "I call <tools>{</tools> now" ∧ calls = [].
Proof.
  destruct (OllamaProvider_parseResponse_text parseEmptyObject string_of_nat
              (fun a _ => a) (ollamaResponse "I call <tools>{</tools> now")
              [("role", JStr "assistant"); ("content", JStr "I call <tools>{</tools> now")]
              "I call <tools>{</tools> now" eq_refl eq_refl ltac:(done))
    as (content & calls & Hrun & _ & _ & Hcaught).
  exists content, calls. split; [exact Hrun|].
  exact (Hcaught "<tools>{</tools>" "{" "SyntaxError" eq_refl eq_refl).
Defined.

(** ** Requests to the providers *)

Lemma toolRoleMessages_results (results : list ToolOutcome) :
  toolRoleMessages (map toolResultPart results) = map toolRoleMessage results.
Proof. induction results as [|r l IH]; [done|]. cbn. by rewrite <- IH. Qed.

Section OpenAIRequests.

Context {World : Type}.
Variable JSON_stringify : jsval → option string.
Variable stringifyParts : list Block → string.

Abbreviation formatMessages := (OpenAIProvider.formatMessages JSON_stringify stringifyParts).
Abbreviation formatMessage := (OpenAIProvider.formatMessage JSON_stringify stringifyParts).
Abbreviation partStep := (OpenAIProvider.partStep JSON_stringify).

Lemma OpenAI_formatMessages_flat (messages : list Message) (model : option string) :
  ∃ isO1Model, ∀ messages,
    formatMessages messages model = flat_map (formatMessage isO1Model) messages.
Proof.
  unfold OpenAIProvider.formatMessages.
  eexists. intros l.
  assert (Hgen : ∀ f (l : list Message) (acc : list jsval),
            fold_left (fun formatted msg => formatted ++ f msg) l acc
            = acc ++ flat_map f l).
  { clear. intros f l. induction l as [|m l IH]; intros acc; simpl.
    - by rewrite app_nil_r.
    - by rewrite IH, app_assoc. }
  by rewrite Hgen.
Qed.

Lemma OpenAI_formatMessages_app (a b : list Message) (model : option string) :
  formatMessages (a ++ b) model = formatMessages a model ++ formatMessages b model.
Proof.
  destruct (OpenAI_formatMessages_flat a model) as [isO1Model Hflat].
  by rewrite !Hflat, flat_map_app.
Qed.

Lemma OpenAI_partStep_calls (toolCalls : list ToolCall) :
  ∀ textContent sent,
  fold_left partStep (map toolUsePart toolCalls) (textContent, sent)
  = (textContent, sent ++ map (openAIToolCall JSON_stringify) toolCalls).
Proof.
  induction toolCalls as [|call toolCalls IH]; intros textContent sent; simpl.
  - by rewrite app_nil_r.
  - rewrite IH. by rewrite <- app_assoc.
Qed.

Lemma OpenAI_partStep_last_text (later : list Block) :
  forallb (fun part => negb (isTextPart part)) later = true →
  ∀ textContent sent, (fold_left partStep later (textContent, sent)).1 = textContent.
Proof.
  induction later as [|part later IH]; intros Hlater textContent sent; [done|].
  simpl in Hlater. apply andb_true_iff in Hlater as [Hpart Hlater].
  destruct part; try done; simpl; by apply IH.
Qed.

(** X18. The OpenAI adapter formats a tool round as [sendMessage] stores
    it, wherever it stands in the list, as one assistant message carrying
    the text of the response ([null] when it is empty) and one tool call
    per call, followed by one message of role 'tool' per recorded entry;
    the [tool_call_id]s of these are the ids of the tool calls, in the same
    order.  The messages before and after are formatted on their own. *)
Theorem OpenAIProvider_formatMessages_turn (availableTools : list (@UniversalTool World))
    (t : Turn) (model : option string) (before after : list Message) :
  Forall2 (recordedFor availableTools) (r_toolCalls (turn_response t)) (turn_results t) →
  let calls := map (openAIToolCall JSON_stringify) (r_toolCalls (turn_response t)) in
  let results := map toolRoleMessage (turn_results t) in
  formatMessages (before ++ turnMessages t ++ after) model
  = formatMessages before model
    ++ assistantRoleMessage (r_content (turn_response t)) calls :: results
    ++ formatMessages after model ∧
  map (fun message => js_prop message "tool_call_id") results
  = map (fun call => js_prop call "id") calls.
Proof.
  intros Hrecorded calls results. split.
  - rewrite !OpenAI_formatMessages_app. f_equal.
    change (assistantRoleMessage _ calls :: results ++ formatMessages after model)
      with ((assistantRoleMessage (r_content (turn_response t)) calls :: results)
            ++ formatMessages after model).
    f_equal.
    destruct (OpenAI_formatMessages_flat (turnMessages t) model) as [isO1Model ->].
    unfold turnMessages. cbn [flat_map]. rewrite app_nil_r.
    unfold OpenAIProvider.formatMessage at 2.
    cbn [turnToolResult toolResultMessageOf set_id role content].
    rewrite toolRoleMessages_results.
    unfold OpenAIProvider.formatMessage.
    cbn [turnAssistant assistantToolMessage set_id role content].
    rewrite fold_left_app.
    destruct (truthy_str (r_content (turn_response t))) eqn:Htext.
    + cbn [fold_left OpenAIProvider.partStep]. rewrite OpenAI_partStep_calls. done.
    + cbn [fold_left]. rewrite OpenAI_partStep_calls.
      unfold truthy_str in Htext. apply negb_false_iff, String.eqb_eq in Htext.
      by rewrite Htext.
  - unfold results, calls. rewrite !map_map. cbn.
    pose proof (recordedFor_ids _ _ _ Hrecorded) as Hids.
    rewrite <- (map_map out_id JStr), <- (map_map call_id JStr). by rewrite Hids.
Qed.

(** X19. What the OpenAI adapter leaves out: of a user message made of
    parts only the tool results are sent, so one without tool results is
    not sent at all; and of the text parts of an assistant message made of
    parts only the last one is sent, as the content of the one message
    built for it. *)
Theorem OpenAIProvider_formatMessages_lossy (model : option string) (msg : Message)
    (parts : list Block) :
  content msg = Blocks parts →
  (role msg = user →
     length (formatMessages [msg] model)
     = length (List.filter isToolResultPart parts) ∧
     (forallb (fun part => negb (isToolResultPart part)) parts = true →
        formatMessages [msg] model = [])) ∧
  (role msg = assistant →
     ∀ earlier text flag later,
       parts = earlier ++ TextBlock text flag :: later →
       forallb (fun part => negb (isTextPart part)) later = true →
       ∃ toolCalls, formatMessages [msg] model = [assistantRoleMessage text toolCalls]).
Proof.
  intros Hcontent.
  destruct (OpenAI_formatMessages_flat [msg] model) as [isO1Model Hflat].
  rewrite !Hflat. cbn [flat_map]. rewrite app_nil_r.
  unfold OpenAIProvider.formatMessage. rewrite Hcontent. split.
  - intros ->.
    assert (Hlen : length (toolRoleMessages parts)
                   = length (List.filter isToolResultPart parts)).
    { clear. unfold toolRoleMessages.
      induction parts as [|part parts IH]; [done|].
      destruct part; simpl; [exact IH|exact IH|by f_equal]. }
    split; [done|]. intros Hnone.
    assert (Hfilter : List.filter isToolResultPart parts = []).
    { clear -Hnone. induction parts as [|part parts IH]; [done|].
      simpl in Hnone. apply andb_true_iff in Hnone as [Hpart Hnone].
      simpl. destruct (isToolResultPart part); [done|]. by apply IH. }
    rewrite Hfilter in Hlen. by destruct (toolRoleMessages parts).
  - intros -> earlier text flag later -> Hlater.
    rewrite fold_left_app. cbn [fold_left].
    destruct (fold_left partStep earlier ("", [])) as [textContent sent].
    cbn [OpenAIProvider.partStep].
    pose proof (OpenAI_partStep_last_text later Hlater text sent) as Hlast.
    destruct (fold_left partStep later (text, sent)) as [final toolCalls].
    simpl in Hlast. subst final. by exists toolCalls.
Qed.

End OpenAIRequests.

Lemma OpenAIProvider_formatMessages_turn_witness :
  OpenAIProvider.formatMessages Stubs.noStringify (fun _ => "") (turnMessages echoTurn)
                                (Some "gpt-4o")
  = [JObj [("role", JStr "assistant"); ("content", JNull);
           ("tool_calls",
            JArr [JObj [("id", JStr "call_0"); ("type", JStr "function");
                        ("function", JObj [("name", JStr "echo");
                                           ("arguments", JUndefined)])]])];
     JObj [("role", JStr "tool"); ("content", JStr "hi");
           ("tool_call_id", JStr "call_0")]].
Proof.
  assert (Hrecorded : Forall2 (recordedFor (tools Stubs.managerP))
                               (r_toolCalls (turn_response echoTurn))
                               (turn_results echoTurn)).
  { repeat constructor. by exists 0%nat. }
  destruct (OpenAIProvider_formatMessages_turn Stubs.noStringify (fun _ => "")
              (tools Stubs.managerP) echoTurn (Some "gpt-4o") [] [] Hrecorded)
    as [Hturn _].
  exact Hturn.
Defined.

Lemma OpenAIProvider_formatMessages_lossy_witness :
  OpenAIProvider.formatMessages Stubs.noStringify (fun _ => "")
    [newMessage user (Blocks [TextBlock "look at this" false])] None
  = [].
Proof.
  apply (OpenAIProvider_formatMessages_lossy Stubs.noStringify (fun _ => "") None
           (newMessage user (Blocks [TextBlock "look at this" false]))
           [TextBlock "look at this" false] eq_refl); reflexivity.
Defined.

Section OllamaRequests.

Variable JSON_parse : jsval → Result jsval.
Variable stringifyParts : list Block → string.

Abbreviation formatMessages := (OllamaProvider.formatMessages JSON_parse stringifyParts).
Abbreviation formatMessage := (OllamaProvider.formatMessage JSON_parse stringifyParts).
Abbreviation partStep := (OllamaProvider.partStep JSON_parse).

Abbreviation parses := (fun s : string => ∃ v, JSON_parse (JStr s) = Ok v).

Lemma Ollama_partStep_fold (parts : list Block) :
  ∀ acc,
  (∃ final, foldM partStep parts acc = Ok final)
  ↔ Forall parses (omap (fun part => match part with
                                     | ToolUse _ _ (JStr s) => Some s
                                     | _ => None
                                     end) parts).
Proof.
  induction parts as [|part parts IH]; intros [textContent toolCalls].
  - simpl. split; [constructor|eauto].
  - rewrite foldM_cons. destruct part as [text flag|id name input|]; cbn [partStep OllamaProvider.partStep omap list_omap].
    + cbn [mret Result_ret mbind Result_bind]. apply IH.
    + destruct input as [| | | |s| |];
        try (cbn [mret Result_ret mbind Result_bind]; apply IH).
      destruct (JSON_parse (JStr s)) as [v|e] eqn:Hparse;
        cbn [mret Result_ret mbind Result_bind].
      * rewrite IH. split.
        -- intros Hrest. constructor; [by exists v|done].
        -- by intros [_ Hrest]%Forall_cons.
      * split; [by intros [final [=]]|].
        intros [[v Hv] _]%Forall_cons. congruence.
    + cbn [mret Result_ret mbind Result_bind]. apply IH.
Qed.

Lemma Ollama_formatMessage_ok (msg : Message) :
  (∃ pushed, formatMessage msg = Ok pushed) ↔ Forall parses (stringInputs msg).
Proof.
  unfold OllamaProvider.formatMessage, stringInputs.
  destruct (role msg), (content msg) as [s|parts];
    try (split; [constructor|by eexists]).
  rewrite <- (Ollama_partStep_fold parts ("", [])).
  destruct (foldM partStep parts ("", [])) as [[textContent toolCalls]|e];
    cbn [mret Result_ret mbind Result_bind]; split; eauto.
  - by intros [pushed [=]].
  - by intros [final [=]].
Qed.

Lemma Ollama_formatMessages_ok (messages : list Message) :
  ∀ formatted,
  (∃ final, foldM (fun formatted msg =>
                     pushed ← formatMessage msg; mret (formatted ++ pushed))
                  messages formatted = Ok final)
  ↔ Forall (fun msg => Forall parses (stringInputs msg)) messages.
Proof.
  induction messages as [|msg messages IH]; intros formatted.
  - simpl. split; [constructor|eauto].
  - rewrite foldM_cons, Forall_cons, <- Ollama_formatMessage_ok, <- (IH []).
    destruct (formatMessage msg) as [pushed|e]; cbn [mret Result_ret mbind Result_bind].
    + rewrite (IH (formatted ++ pushed)), <- (IH []). split; [eauto|by intros [_ ?]].
    + split; [by intros [final [=]]|by intros [[pushed [=]] _]].
Qed.

(** X20. The Ollama adapter passes every tool-use input that is a string
    to [JSON.parse] and sends the others as they are; [formatMessages]
    returns exactly when [JSON.parse] accepts all the string inputs of the
    assistant messages made of parts, and throws otherwise.  One stored tool
    call whose arguments are a string that is not JSON text thus makes
    every later request fail before it is sent. *)
Theorem OllamaProvider_formatMessages_string_input (messages : list Message) :
  (∃ formatted, formatMessages messages = Ok formatted)
  ↔ ∀ msg s, msg ∈ messages → s ∈ stringInputs msg → ∃ v, JSON_parse (JStr s) = Ok v.
Proof.
  unfold OllamaProvider.formatMessages. rewrite Ollama_formatMessages_ok.
  rewrite Forall_forall. split.
  - intros Hall msg s Hmsg Hs. specialize (Hall msg Hmsg).
    rewrite Forall_forall in Hall. by apply Hall.
  - intros Hall msg Hmsg. apply Forall_forall. intros s Hs. by apply (Hall msg s).
Qed.

End OllamaRequests.

Section GeminiRequests.

Lemma Gemini_formatMessages_map (messages : list Message) :
  GeminiProvider.formatMessages messages = map GeminiProvider.formatMessage messages.
Proof.
  unfold GeminiProvider.formatMessages.
  assert (Hgen : ∀ (l : list Message) (acc : list jsval),
            fold_left (fun contents msg => contents ++ [GeminiProvider.formatMessage msg])
                      l acc
            = acc ++ map GeminiProvider.formatMessage l).
  { induction l as [|m l IH]; intros acc; simpl.
    - by rewrite app_nil_r.
    - by rewrite IH, <- app_assoc. }
  by rewrite Hgen.
Qed.

Lemma modelParts_calls (toolCalls : list ToolCall) :
  GeminiProvider.modelParts (map toolUsePart toolCalls) = map functionCallPart toolCalls.
Proof. induction toolCalls as [|c l IH]; [done|]. cbn. by rewrite <- IH. Qed.

Lemma userPart_results (results : list ToolOutcome) :
  map GeminiProvider.userPart (map toolResultPart results)
  = map functionResponsePart results.
Proof. by rewrite map_map. Qed.

(** X21. The Gemini adapter sends one entry for each message, in order.
    A tool round as [sendMessage] stores it is sent, wherever it stands in
    the list, as an entry of role 'model' holding the text of the response,
    when it has one, and a function call with name and arguments for each
    call, followed by an entry of role 'user' holding one function response
    for each recorded entry: its content is the recorded result as a string,
    and its name is 'unknown' whatever tool was called. *)
Theorem GeminiProvider_formatMessages_turn (t : Turn) (before after : list Message) :
  GeminiProvider.formatMessages (before ++ turnMessages t ++ after)
  = GeminiProvider.formatMessages before
    ++ [JObj [("role", JStr "model");
              ("parts", JArr ((if truthy_str (r_content (turn_response t))
                               then [JObj [("text", JStr (r_content (turn_response t)))]]
                               else [])
                              ++ map functionCallPart (r_toolCalls (turn_response t))))];
        JObj [("role", JStr "user");
              ("parts", JArr (map functionResponsePart (turn_results t)))]]
    ++ GeminiProvider.formatMessages after ∧
  ∀ messages, length (GeminiProvider.formatMessages messages) = length messages.
Proof.
  split.
  - rewrite !Gemini_formatMessages_map, !map_app. do 2 f_equal.
    unfold turnMessages. cbn [map]. f_equal.
    + unfold GeminiProvider.formatMessage.
      cbn [turnAssistant assistantToolMessage set_id role content].
      unfold GeminiProvider.modelParts. rewrite omap_app.
      fold (GeminiProvider.modelParts (map toolUsePart (r_toolCalls (turn_response t)))).
      rewrite modelParts_calls.
      by destruct (truthy_str (r_content (turn_response t))).
    + unfold GeminiProvider.formatMessage.
      cbn [turnToolResult toolResultMessageOf set_id role content].
      by rewrite userPart_results.
  - intros messages. by rewrite Gemini_formatMessages_map, length_map.
Qed.

End GeminiRequests.

(** ** The token estimate *)

Lemma estimateTextTokens_bounds (text : string) :
  Z.of_nat (String.length text) ≤ 4 * estimateTextTokens text
  ≤ Z.of_nat (String.length text) + 3.
Proof.
  unfold estimateTextTokens. cbv zeta.
  pose proof (Z.div_mod (Z.of_nat (String.length text)) 4 ltac:(done)) as Hdiv.
  pose proof (Z.mod_pos_bound (Z.of_nat (String.length text)) 4 ltac:(done)) as Hmod.
  destruct (Z.of_nat (String.length text) mod 4 =? 0) eqn:Hzero.
  - apply Z.eqb_eq in Hzero. lia.
  - apply Z.eqb_neq in Hzero. lia.
Qed.

Lemma sumOf_app (a b : list Z) : sumOf (a ++ b) = sumOf a + sumOf b.
Proof. induction a as [|x a IH]; simpl; [done|]. rewrite IH. lia. Qed.

Section TokenEstimates.

Context {World : Type}.
Variable stringifyParts : list Block → string.

Abbreviation State := (@State World).

Lemma estimate_fold (provider : option (@AIProvider World)) (h : Heap) (ls : list loc) :
  ∀ acc,
  foldM (fun total l =>
           match provider with
           | Some _ => mret (total + estimateTextTokens
                                       (contentText stringifyParts (content (deref h l))))
           | None => Threw TypeError
           end) ls acc
  = match provider, ls with
    | None, _ :: _ => Threw TypeError
    | _, _ =>
        Ok (acc + sumOf (map (fun l => estimateTextTokens
                                         (contentText stringifyParts (content (deref h l))))
                             ls))
    end.
Proof.
  induction ls as [|l ls IH]; intros acc.
  - simpl. destruct provider; f_equal; lia.
  - rewrite foldM_cons. destruct provider as [p|]; [|done].
    cbn [mret Result_ret mbind Result_bind]. rewrite IH. simpl.
    destruct ls; f_equal; simpl; lia.
Qed.

(** X22. [AIManager.estimateTokens] adds up, over the stored messages, the
    length of the content (of its JSON text when it is made of parts)
    divided by four and rounded up: four times the estimate is at least the
    number of characters and exceeds it by at most three per message.
    Without a provider it returns 0 on an empty history and throws a
    [TypeError] on any other.  Adding a message raises the estimate by the
    estimate of its content. *)
Theorem estimateTokens_spec (s : State) :
  let texts := map (fun m => contentText stringifyParts (content m)) (historyValues s) in
  let chars := sumOf (map (fun text => Z.of_nat (String.length text)) texts) in
  let estimate := sumOf (map estimateTextTokens texts) in
  (getProvider (manager s) = None →
     estimateTokens stringifyParts s
     = match conversationHistory (manager s) with
       | [] => Ok 0
       | _ :: _ => Threw TypeError
       end) ∧
  (is_Some (getProvider (manager s)) →
     estimateTokens stringifyParts s = Ok estimate ∧
     chars ≤ 4 * estimate ≤ chars + 3 * Z.of_nat (length texts)) ∧
  (is_Some (getProvider (manager s)) → wellFormed s →
     ∀ r c, estimateTokens stringifyParts (addMessage r c s).2
            = Ok (estimate + estimateTextTokens (contentText stringifyParts c))).
Proof.
  intros texts chars estimate.
  assert (Hrun : ∀ s' : State, is_Some (getProvider (manager s')) →
            estimateTokens stringifyParts s'
            = Ok (sumOf (map estimateTextTokens
                             (map (fun m => contentText stringifyParts (content m))
                                  (historyValues s'))))).
  { intros s' [p Hp]. unfold estimateTokens. rewrite Hp. cbv zeta.
    rewrite (estimate_fold (Some p) (heap s')). unfold historyValues. rewrite !map_map.
    f_equal. }
  split_and!.
  - intros Hnone. unfold estimateTokens. rewrite Hnone. cbv zeta.
    rewrite (estimate_fold None (heap s)).
    by destruct (conversationHistory (manager s)).
  - intros Hp. split; [by apply Hrun|].
    unfold chars, estimate. clear. induction texts as [|text texts IH]; simpl; [lia|].
    pose proof (estimateTextTokens_bounds text). lia.
  - intros Hp Hw r c.
    pose proof (appendMessage_grows (newMessage r c) s eq_refl) as [_ Hgrow].
    pose proof (grows_history_values _ _ _ _ Hw Hgrow) as Hvalues.
    rewrite Hrun.
    + unfold addMessage, historyValues. rewrite Hvalues, !map_app, sumOf_app.
      simpl. f_equal. fold (historyValues s). fold texts. fold estimate. lia.
    + destruct Hgrow as (_ & _ & _ & _ & Hproviders & Hcurrent & _).
      unfold getProvider in *. unfold addMessage. by rewrite Hproviders, Hcurrent.
Qed.

End TokenEstimates.

(** ** The system prompt *)

Lemma augmentedValues_head (augmented : string → string) (values : list Message)
    (first : Message) :
  head values = Some first → role first = system →
  head (augmentedValues augmented values) = Some first.
Proof.
  intros Hhead Hrole. unfold augmentedValues.
  destruct (findLatestUserTextMessageIndex values) as [i|] eqn:Hlatest; [|done].
  destruct (values !! i) as [target|] eqn:Hi; [|done].
  destruct (content target) as [text|]; [|done].
  destruct i as [|i].
  - destruct values as [|m values]; [done|]. simpl in Hhead, Hi.
    injection Hhead as ->. injection Hi as ->.
    unfold findLatestUserTextMessageIndex in Hlatest.
    pose proof (findLatestFrom_spec (target :: values) 0) as Hspec.
    rewrite Hlatest in Hspec. destruct Hspec as (j & entry & Hj & Hentry & Huser & _).
    assert (j = 0%nat) as -> by lia. simpl in Hentry. injection Hentry as <-.
    unfold isUserText in Huser. by rewrite Hrole in Huser.
  - by destruct values.
Qed.

Lemma providerCalls_codeSummaryEvents {World : Type} (s : @State World) :
  providerCalls (codeSummaryEvents s) = [].
Proof. unfold codeSummaryEvents. by destruct (findTool _ _). Qed.

Lemma runMessages_roles (counter : Z) (turns : list Turn) (ending : Ending) :
  Forall (fun m => role m ≠ system) (runMessages counter turns ending).
Proof.
  unfold runMessages. apply Forall_app. split.
  - induction turns as [|t turns IH]; [constructor|].
    simpl. by repeat constructor.
  - destruct ending as [| |response]; try constructor.
    destruct (truthy_str (r_content response)); by repeat constructor.
Qed.

Section SystemPrompt.

Context {World : Type}.
Variable JSON_stringify : jsval → option string.

Abbreviation State := (@State World).
Abbreviation AIProvider := (@AIProvider World).
Abbreviation Options := (@Options World).

(** X23. The system prompt is sent, not stored.  When a prompt is set and
    the view of the history does not start with a system message, every
    provider call of [sendMessage] receives a list that starts with a new
    system message holding the prompt; when the view starts with a system
    message, every call starts with that one and the prompt is not sent.
    The messages the call appends to the history are user and assistant
    messages only. *)
Theorem sendMessage_system_prompt (userMessage : string) (options : Options)
    (s : State) (provider : AIProvider) :
  wellFormed s → getProvider (manager s) = Some provider →
  let s1 := beginTurn userMessage options s in
  let view := viewValues (opt_minimizeTokens options)
                (map (deref (heap s1))
                     (historyWindow (heap s1) (default 0 (opt_limitMessages options))
                                    (conversationHistory (manager s1)))) in
  let run := sendMessage JSON_stringify userMessage options s in
  let calls := providerCalls (drop (length (trace s)) (trace run.2)) in
  (∀ prompt, systemPrompt (manager s) = Some prompt → truthy_str prompt = true →
     role <$> head view ≠ Some system →
     ∀ sent, sent ∈ calls → head sent = Some (newMessage system (Text prompt))) ∧
  (∀ first, head view = Some first → role first = system →
     ∀ sent, sent ∈ calls → head sent = Some first) ∧
  ∃ appended,
    historyValues run.2 = historyValues (ensureHistoryMessageIds s) ++ appended ∧
    Forall (fun m => role m ≠ system) appended.
Proof.
  intros Hw Hprov s1 view run calls.
  destruct (sendMessage_run JSON_stringify userMessage options s provider Hw Hprov)
    as (turns & ending & Htrace & Hchain & Hhistory & _).
  fold run s1 in Htrace, Hhistory, Hchain.
  destruct (beginTurn_spec userMessage options s) as [Hsame Hgrow]. fold s1 in Hgrow.
  assert (Hprompt : systemPrompt (manager s1) = systemPrompt (manager s)).
  { destruct Hgrow as (_ & _ & _ & _ & _ & _ & _ & Hp1).
    destruct Hsame as (_ & _ & _ & _ & _ & _ & Hp0 & _). congruence. }
  assert (Hcalls : ∀ sent, sent ∈ calls →
            ∃ more, sent = outboundValues JSON_stringify userMessage options s ++ more).
  { intros sent Hsent. unfold calls in Hsent.
    rewrite Htrace, drop_app_length, providerCalls_app in Hsent.
    assert (Hnone : providerCalls (summaryEvents JSON_stringify userMessage options s) = []).
    { unfold summaryEvents. destruct (negb _ && _); [|done].
      apply providerCalls_codeSummaryEvents. }
    rewrite Hnone in Hsent. simpl in Hsent.
    by apply (proj2 (chain_calls_outbound _ _ _ _ _ _ Hchain)). }
  assert (Hhead : ∀ first, head (withSystemPrompt (systemPrompt (manager s)) view) = Some first →
            role first = system →
            ∀ sent, sent ∈ calls → head sent = Some first).
  { intros first Hfirst Hrole sent Hsent. destruct (Hcalls sent Hsent) as [more ->].
    assert (Hout : head (outboundValues JSON_stringify userMessage options s) = Some first).
    { unfold outboundValues. fold s1. rewrite Hprompt. fold view.
      destruct (negb (isContinuationMarker userMessage)); [|done].
      by apply augmentedValues_head. }
    destruct (outboundValues JSON_stringify userMessage options s); [done|]. done. }
  split_and!.
  - intros prompt Hset Htruthy Hview. apply Hhead; [|done].
    unfold withSystemPrompt. rewrite Hset. simpl. rewrite Htruthy.
    by rewrite bool_decide_eq_false_2.
  - intros first Hfirst Hrole. apply Hhead; [|done].
    unfold withSystemPrompt.
    rewrite (bool_decide_eq_true_2 (role <$> head view = Some system))
      by (by rewrite Hfirst; simpl; rewrite Hrole).
    by rewrite andb_false_r.
  - pose proof (sameButIds_wellFormed _ _ Hsame Hw) as Hw0.
    pose proof (grows_history_values _ _ _ _ Hw0 Hgrow) as Hvalues.
    exists (userMessageAdded userMessage options
              (messageIdCounter (manager (ensureHistoryMessageIds s)))
            ++ runMessages (messageIdCounter (manager s1)) turns ending).
    split.
    + rewrite Hhistory. unfold historyValues at 1. rewrite Hvalues.
      by rewrite <- app_assoc.
    + apply Forall_app. split; [|apply runMessages_roles].
      unfold userMessageAdded. destruct (negb _ && _); by repeat constructor.
Qed.

End SystemPrompt.

Lemma sendMessage_system_prompt_witness :
  let s := Stubs.start managerPrompted in
  let run := sendMessage Stubs.noStringify "hi" Stubs.defaults s in
  Forall (fun sent => head sent = Some (newMessage system (Text "Be brief.")))
         (providerCalls (drop (length (trace s)) (trace run.2))).
Proof.
  intros s run. apply Forall_forall.
  destruct (sendMessage_system_prompt Stubs.noStringify "hi" Stubs.defaults s
              Stubs.providerP (start_wellFormed managerPrompted eq_refl) eq_refl)
    as (Hprompt & _ & _).
  apply (Hprompt "Be brief." eq_refl eq_refl). by vm_compute.
Defined.
